(** * CyberVault: the password and URL risk engines

    A shallow embedding of [passwordStrengthChecker] and [phishingScanner]
    (the services module of the dashboard) and the properties of their
    scoring and aggregation rules.

    Strings.  A JavaScript string is a sequence of UTF-16 code units.  The
    strings a user types here (passwords, URLs) are modelled by [string],
    one [ascii] per code unit, that is, by the strings whose code units are
    below 256 (Latin-1).  On that range [toLowerCase] is closed and keeps
    the length, so it is modelled exactly.  The fixed messages of the
    program are kept as the literals of the source. *)

From Stdlib Require Import String Ascii List ZArith Bool Lia.
From Stdlib Require Import DecimalString.
Import ListNotations.

Open Scope string_scope.
Open Scope Z_scope.

(** ** JavaScript strings and built-ins *)

Module JS.

Definition code (c : ascii) : nat := nat_of_ascii c.

Definition in_range (lo hi : nat) (c : ascii) : bool :=
  (Nat.leb lo (code c) && Nat.leb (code c) hi)%bool.

(** [A-Z], [a-z], [0-9] and the classes built from them. *)
Definition is_upper (c : ascii) : bool := in_range 65 90 c.
Definition is_lower (c : ascii) : bool := in_range 97 122 c.
Definition is_digit (c : ascii) : bool := in_range 48 57 c.
Definition is_alnum (c : ascii) : bool := (is_upper c || is_lower c || is_digit c)%bool.
Definition is_lower_alnum (c : ascii) : bool := (is_lower c || is_digit c)%bool.

(** [String.prototype.toLowerCase] on one code unit below 256: the ASCII
    capitals and the Latin-1 capitals U+00C0..U+00DE (U+00D7, the
    multiplication sign, apart) move up by 32. *)
Definition lower_char (c : ascii) : ascii :=
  if (is_upper c || (in_range 192 222 c && negb (Nat.eqb (code c) 215)))%bool
  then ascii_of_nat (code c + 32)
  else c.

Fixpoint toLowerCase (s : string) : string :=
  match s with
  | EmptyString => EmptyString
  | String c s' => String (lower_char c) (toLowerCase s')
  end.

(** [toUpperCase] on the ASCII letters.  The program applies it to
    hexadecimal renderings only, which hold no other letter. *)
Definition upper_char (c : ascii) : ascii :=
  if is_lower c then ascii_of_nat (code c - 32) else c.

Fixpoint toUpperCase (s : string) : string :=
  match s with
  | EmptyString => EmptyString
  | String c s' => String (upper_char c) (toUpperCase s')
  end.

Definition length (s : string) : Z := Z.of_nat (String.length s).

(** [s.startsWith(p)] *)
Definition startsWith (s p : string) : bool := String.prefix p s.

(** [s.substring(0, n)] and [s.substring(n)] *)
Definition substring_to (n : nat) (s : string) : string := String.substring 0 n s.

Fixpoint substring_from (n : nat) (s : string) : string :=
  match n, s with
  | O, _ => s
  | S n', String _ s' => substring_from n' s'
  | S _, EmptyString => EmptyString
  end.

(** [arr.includes(x)] on an array of strings *)
Definition includes (arr : list string) (x : string) : bool :=
  existsb (String.eqb x) arr.

(** [arr.push(x)] *)
Definition push {A} (arr : list A) (x : A) : list A := (arr ++ [x])%list.

(** [arr.find(p)] *)
Definition find {A} (p : A -> bool) (arr : list A) : option A := List.find p arr.

(** [s.split(sep)] for a separator of one character.  The result is never
    empty: a string without the separator is returned whole. *)
Fixpoint split (sep : ascii) (s : string) : list string :=
  match s with
  | EmptyString => [EmptyString]
  | String c s' =>
      if Ascii.eqb c sep then EmptyString :: split sep s'
      else match split sep s' with
           | [] => [String c EmptyString]
           | w :: ws => String c w :: ws
           end
  end.

(** [arr.join(sep)] *)
Fixpoint join (sep : string) (arr : list string) : string :=
  match arr with
  | [] => EmptyString
  | [x] => x
  | x :: rest => x ++ sep ++ join sep rest
  end.

(** A string in a condition is true when it is not empty. *)
Definition truthy (s : string) : bool := negb (String.eqb s EmptyString).

(** *** Numbers

    The numbers the program handles are counts and scores.  A number is
    [NaN], an infinity, or the double whose value is the integer [z].
    Every integer up to 2^53 in magnitude is a double; above, a double has
    53 significant bits, and [to_double] rounds an integer to the nearest
    one. *)
Inductive number : Type :=
| NaN
| Num (z : Z)
| Infinity (negative : bool).

Definition show_Z (z : Z) : string := NilZero.string_of_int (Z.to_int z).

(** The double nearest to an integer, ties to the even mantissa.  The
    largest double is 2^1024 - 2^971; what rounds to 2^1024 is an
    infinity. *)
Definition to_double (z : Z) : number :=
  let a := Z.abs z in
  if a <=? 2 ^ 53 then Num z
  else
    let e := Z.log2 a - 52 in
    let q := a / 2 ^ e in
    let r := a mod 2 ^ e in
    let half := 2 ^ (e - 1) in
    let q' := if ((half <? r) || ((half =? r) && Z.odd q))%bool then q + 1 else q in
    let m := q' * 2 ^ e in
    if 2 ^ 1024 <=? m then Infinity (z <? 0) else Num (Z.sgn z * m).

(** Number to string, as in a template literal.  An integer up to 2^53 is
    written in full.  A larger double [a] is written with the fewest
    digits that read back as [a]: for k = 1, 2, ... the multiples of
    10^(n - k) next to [a], [n] being the number of digits of [a], are
    tried, and of two that read back as [a] the nearer is taken (the one
    with an even last digit when both are as near). *)
Definition reads_as (a v : Z) : bool :=
  match to_double v with
  | Num m => m =? a
  | _ => false
  end.

Definition nearest_multiple (a p : Z) : option Z :=
  let unit := 10 ^ p in
  let lo := a / unit * unit in
  let hi := lo + unit in
  match reads_as a lo, reads_as a hi with
  | true, true =>
      if a - lo <? hi - a then Some lo
      else if hi - a <? a - lo then Some hi
      else if Z.even (lo / unit) then Some lo else Some hi
  | true, false => Some lo
  | false, true => Some hi
  | false, false => None
  end.

Fixpoint shortest (fuel : nat) (a p : Z) : Z :=
  match fuel with
  | O => a
  | S fuel' =>
      match nearest_multiple a p with
      | Some v => v
      | None => shortest fuel' a (p - 1)
      end
  end.

Fixpoint strip_zeros (s : string) : string :=
  match s with
  | EmptyString => EmptyString
  | String c s' =>
      match strip_zeros s' with
      | EmptyString => if Ascii.eqb c "0" then EmptyString else String c EmptyString
      | t => String c t
      end
  end.

(** From 10^21 on the digits are followed by an exponent. *)
Definition show_digits (v : Z) : string :=
  let text := show_Z v in
  let n := Z.of_nat (String.length text) in
  if n <=? 21 then text
  else
    match strip_zeros text with
    | String d EmptyString => String d ("e+" ++ show_Z (n - 1))
    | String d ds => String d ("." ++ ds ++ "e+" ++ show_Z (n - 1))
    | EmptyString => text
    end.

Definition show_double (a : Z) : string :=
  if a <=? 2 ^ 53 then show_Z a
  else
    let n := String.length (show_Z a) in
    show_digits (shortest n a (Z.of_nat n - 1)).

Definition show (n : number) : string :=
  match n with
  | NaN => "NaN"
  | Num z => if z <? 0 then "-" ++ show_double (- z) else show_double z
  | Infinity negative => if negative then "-Infinity" else "Infinity"
  end.

(** White space that [parseInt] skips, among the code units below 256:
    TAB, LF, VT, FF, CR, space and the no-break space. *)
Definition is_space (c : ascii) : bool :=
  (in_range 9 13 c || Nat.eqb (code c) 32 || Nat.eqb (code c) 160)%bool.

Fixpoint skip_space (s : string) : string :=
  match s with
  | String c s' => if is_space c then skip_space s' else s
  | EmptyString => s
  end.

(** The value of a digit in a radix, when it is one. *)
Definition digit_value (radix : Z) (c : ascii) : option Z :=
  let v :=
    if is_digit c then Some (Z.of_nat (code c) - 48)
    else if is_lower c then Some (Z.of_nat (code c) - 87)
    else if is_upper c then Some (Z.of_nat (code c) - 55)
    else None in
  match v with
  | Some d => if d <? radix then Some d else None
  | None => None
  end.

(** The longest prefix of digits, read from the left: [acc] is the value so
    far, [seen] whether a digit was read. *)
Fixpoint read_digits (radix : Z) (s : string) (acc : Z) (seen : bool) : option Z :=
  match s with
  | String c s' =>
      match digit_value radix c with
      | Some d => read_digits radix s' (acc * radix + d) true
      | None => if seen then Some acc else None
      end
  | EmptyString => if seen then Some acc else None
  end.

(** [parseInt(s)] without a radix: leading white space, a sign, a [0x] or
    [0X] prefix for radix 16, then the digits up to the first character
    that is not one; [NaN] when there is no digit.  The integer read is
    rounded to a double.  (The language lets an implementation read the
    decimal digits after the twentieth as zeros; the common engines read them
    all, as here.) *)
Definition parseInt (s : string) : number :=
  let s := skip_space s in
  let '(sign, s) :=
    match s with
    | String "-" s' => (-1, s')
    | String "+" s' => (1, s')
    | _ => (1, s)
    end in
  let '(radix, s) :=
    match s with
    | String "0" (String "x" s') => (16, s')
    | String "0" (String "X" s') => (16, s')
    | _ => (10, s)
    end in
  match read_digits radix s 0 false with
  | Some v => to_double (sign * v)
  | None => NaN
  end.

(** [parseInt(arr[i])]: a missing element is [undefined], which is read as
    the text "undefined". *)
Definition parseInt_at (arr : list string) (i : nat) : number :=
  parseInt (nth i arr "undefined").

End JS.

(** ** Regular expressions

    The patterns of the program use literals, classes, alternation, [?] and
    [+]; none has an anchor, a back-reference or a look-around, so
    [pattern.test(s)] holds exactly when some substring of [s] belongs to
    the language of the pattern.  Matching is by derivatives. *)

Module Regex.

Inductive regex : Type :=
| Empty
| Eps
| Cls (p : ascii -> bool)
| Cat (r1 r2 : regex)
| Alt (r1 r2 : regex)
| Star (r : regex).

Definition Chr (c : ascii) : regex := Cls (Ascii.eqb c).
Definition Plus (r : regex) : regex := Cat r (Star r).
Definition Opt (r : regex) : regex := Alt r Eps.

(** A literal, and a literal under the [i] flag.  Without the [u] flag a
    code unit above 127 never matches an ASCII one, so under [i] an ASCII
    letter matches its two cases and nothing else. *)
Fixpoint Lit (s : string) : regex :=
  match s with
  | EmptyString => Eps
  | String c EmptyString => Chr c
  | String c s' => Cat (Chr c) (Lit s')
  end.

Definition Chr_i (c : ascii) : regex :=
  Cls (fun x => Ascii.eqb (JS.upper_char x) (JS.upper_char c)).

Fixpoint Lit_i (s : string) : regex :=
  match s with
  | EmptyString => Eps
  | String c EmptyString => Chr_i c
  | String c s' => Cat (Chr_i c) (Lit_i s')
  end.

Fixpoint Alts (rs : list regex) : regex :=
  match rs with
  | [] => Empty
  | [r] => r
  | r :: rs' => Alt r (Alts rs')
  end.

Fixpoint Cats (rs : list regex) : regex :=
  match rs with
  | [] => Eps
  | [r] => r
  | r :: rs' => Cat r (Cats rs')
  end.

Fixpoint nullable (r : regex) : bool :=
  match r with
  | Empty => false
  | Eps => true
  | Cls _ => false
  | Cat r1 r2 => nullable r1 && nullable r2
  | Alt r1 r2 => nullable r1 || nullable r2
  | Star _ => true
  end.

Fixpoint deriv (c : ascii) (r : regex) : regex :=
  match r with
  | Empty => Empty
  | Eps => Empty
  | Cls p => if p c then Eps else Empty
  | Cat r1 r2 =>
      if nullable r1 then Alt (Cat (deriv c r1) r2) (deriv c r2)
      else Cat (deriv c r1) r2
  | Alt r1 r2 => Alt (deriv c r1) (deriv c r2)
  | Star r1 => Cat (deriv c r1) (Star r1)
  end.

(** Some prefix of [s] is in the language of [r]. *)
Fixpoint match_prefix (r : regex) (s : string) : bool :=
  nullable r ||
  match s with
  | EmptyString => false
  | String c s' => match_prefix (deriv c r) s'
  end.

(** [r.test(s)]: a match starts at some position of [s]. *)
Fixpoint test (r : regex) (s : string) : bool :=
  match_prefix r s ||
  match s with
  | EmptyString => false
  | String _ s' => test r s'
  end.

(** The language of a pattern, for reference. *)
Inductive Matches : regex -> string -> Prop :=
| M_Eps : Matches Eps EmptyString
| M_Cls p c : p c = true -> Matches (Cls p) (String c EmptyString)
| M_Cat r1 r2 s1 s2 : Matches r1 s1 -> Matches r2 s2 -> Matches (Cat r1 r2) (s1 ++ s2)
| M_AltL r1 r2 s : Matches r1 s -> Matches (Alt r1 r2) s
| M_AltR r1 r2 s : Matches r2 s -> Matches (Alt r1 r2) s
| M_Star0 r : Matches (Star r) EmptyString
| M_StarS r s1 s2 : Matches r s1 -> Matches (Star r) s2 -> Matches (Star r) (s1 ++ s2).

End Regex.

(** ** The password checker: strength *)

(** ['weak' | 'medium' | 'strong'] *)
Module Strength.
Inductive t : Type := weak | medium | strong.
End Strength.

Record StrengthResult : Type := {
  score : Z;
  strength : Strength.t;
  feedback : list string
}.

Definition commonPasswords : list string :=
  ["password"; "123456"; "qwerty"; "admin"; "welcome"; "password123"].

Definition msg_too_short := "❌ Should be at least 8 characters".
Definition msg_add_upper := "⚠️ Add uppercase letters".
Definition msg_add_lower := "⚠️ Add lowercase letters".
Definition msg_add_digit := "⚠️ Add numbers".
Definition msg_add_special := "⚠️ Add special characters (!@#$%)".
Definition msg_common := "🚫 Very common password - choose something unique".
Definition msg_strong := "✅ Strong password!".
Definition msg_medium := "⚠️ Medium strength - could be stronger".
Definition msg_weak := "❌ Weak password - consider improving".

(** The four class tests of [checkStrength]. *)
Definition re_upper : Regex.regex := Regex.Cls JS.is_upper.
Definition re_lower : Regex.regex := Regex.Cls JS.is_lower.
Definition re_digit : Regex.regex := Regex.Cls JS.is_digit.
Definition re_symbol : Regex.regex := Regex.Cls (fun c => negb (JS.is_alnum c)).

(** One [if (test) score += 1; else feedback.push(msg)] step on the pair of
    the two locals. *)
Definition class_check (test : bool) (msg : string) (st : Z * list string)
  : Z * list string :=
  let '(score, feedback) := st in
  if test then (score + 1, feedback) else (score, JS.push feedback msg).

(** The locals [score] and [feedback] after the length and class checks
    (the statements before the common-password test). *)
Definition sub_checks (password : string) : Z * list string :=
  let score := 0 in
  let feedback : list string := [] in
  let score := if JS.length password >=? 8 then score + 1 else score in
  let score := if JS.length password >=? 12 then score + 1 else score in
  let feedback :=
    if JS.length password <? 8 then JS.push feedback msg_too_short else feedback in
  let st := (score, feedback) in
  let st := class_check (Regex.test re_upper password) msg_add_upper st in
  let st := class_check (Regex.test re_lower password) msg_add_lower st in
  let st := class_check (Regex.test re_digit password) msg_add_digit st in
  let st := class_check (Regex.test re_symbol password) msg_add_special st in
  st.

Definition checkStrength (password : string) : StrengthResult :=
  let '(score, feedback) := sub_checks password in
  let '(score, feedback) :=
    if JS.includes commonPasswords (JS.toLowerCase password)
    then (0, JS.push feedback msg_common)
    else (score, feedback) in
  if score >=? 5 then
    {| score := score; strength := Strength.strong; feedback := JS.push feedback msg_strong |}
  else if score >=? 3 then
    {| score := score; strength := Strength.medium; feedback := JS.push feedback msg_medium |}
  else
    {| score := score; strength := Strength.weak; feedback := JS.push feedback msg_weak |}.

(** ** Effects

    The engines call services of the platform and of third parties.  A
    computation returns a value or throws, and leaves the list of the
    requests it made, in order. *)

Inductive Result (A : Type) : Type :=
| Ok (a : A)
| Throw (e : string).

Arguments Ok {A} a.
Arguments Throw {A} e.

Inductive Request : Type :=
| RangeLookup (prefix : string)
| ThreatMatch (url key : string)
| DomainReputation (domain key : string)
| MultiEngine (id key : string).

Definition M (A : Type) : Type := (list Request * Result A)%type.

Definition ret {A} (a : A) : M A := ([], Ok a).

Definition throw {A} (e : string) : M A := ([], Throw e).

Definition bind {A B} (m : M A) (f : A -> M B) : M B :=
  match m with
  | (t, Ok a) => let '(t', r) := f a in ((t ++ t')%list, r)
  | (t, Throw e) => (t, Throw e)
  end.

(** [try { m } catch (e) { h e }] *)
Definition try_catch {A} (m : M A) (h : string -> M A) : M A :=
  match m with
  | (t, Throw e) => let '(t', r) := h e in ((t ++ t')%list, r)
  | (t, Ok a) => (t, Ok a)
  end.

(** A call that makes no request, and one that makes the request [rq]. *)
Definition lift {A} (r : Result A) : M A := ([], r).
Definition request {A} (rq : Request) (answer : Result A) : M A := ([rq], answer).

Definition trace {A} (m : M A) : list Request := fst m.
Definition outcome {A} (m : M A) : Result A := snd m.

Notation "x <- m ;; k" := (bind m (fun x => k))
  (at level 61, m at next level, right associativity).

(** *** The world outside the module

    Responses of the services are read as the fields the code looks at:
    - the range lookup: the [ok] flag of the response and its text (reading
      it may fail);
    - the threat match: [data.matches], absent or the [threatType] labels;
    - the domain reputation: [risk_score], absent or an integer, the three
      flags ([true] when the field is the boolean true) and [message];
    - the multi-engine scan: [last_analysis_stats], absent or an object
      from names to counts, listed with each name once.
    A call fails when the transport fails or the body is not the JSON the
    code dereferences.  The three key getters read the configuration of the
    build, which lies outside the module; they are allowed to fail too. *)

Record Response : Type := {
  ok : bool;
  text : Result string
}.

Record GoogleData : Type := {
  matches : option (list string)
}.

Record IpqsData : Type := {
  risk_score : option Z;
  malicious : bool;
  phishing : bool;
  suspicious : bool;
  message : option string
}.

Record VtData : Type := {
  last_analysis_stats : option (list (string * Z))
}.

Record World : Type := {
  subtle_digest_sha1 : string -> Result (list Byte.byte);
  fetch_range : string -> Result Response;
  env_google_key : Result string;
  env_ipqs_key : Result string;
  env_vt_key : Result string;
  fetch_threat_matches : string -> string -> Result GoogleData;
  fetch_domain_reputation : string -> string -> Result IpqsData;
  fetch_multi_engine : string -> string -> Result VtData;
  url_hostname : string -> Result string
}.

(** ** The password checker: breach lookup *)

Record BreachResult : Type := {
  isBreached : bool;
  breachCount : JS.number;
  breachDetails : string
}.

(** [b.toString(16)] for a byte, and [padStart(2, '0')]. *)
Definition hex_digit (n : nat) : ascii :=
  if Nat.ltb n 10 then ascii_of_nat (48 + n) else ascii_of_nat (87 + n).

Definition toString16 (b : Byte.byte) : string :=
  let n := N.to_nat (Byte.to_N b) in
  if Nat.ltb n 16 then String (hex_digit n) EmptyString
  else String (hex_digit (n / 16)) (String (hex_digit (n mod 16)) EmptyString).

Fixpoint repeat_char (c : ascii) (n : nat) : string :=
  match n with
  | O => EmptyString
  | S n' => String c (repeat_char c n')
  end.

Definition padStart (n : nat) (c : ascii) (s : string) : string :=
  repeat_char c (n - String.length s) ++ s.

(** The rendering of the digest: two hexadecimal digits a byte, joined
    and put in capitals. *)
Definition hex_string (hashArray : list Byte.byte) : string :=
  JS.toUpperCase
    (JS.join "" (map (fun b => padStart 2 "0" (toString16 b)) hashArray)).

Definition sha1 (W : World) (str : string) : M string :=
  hashArray <- lift (subtle_digest_sha1 W str) ;;
  ret (hex_string hashArray).

Definition LF : ascii := ascii_of_nat 10.
Definition CR : ascii := ascii_of_nat 13.

Definition no_breach : BreachResult :=
  {| isBreached := false; breachCount := JS.Num 0;
     breachDetails := "✅ No breaches found" |}.

Definition unable_to_check : BreachResult :=
  {| isBreached := false; breachCount := JS.Num 0;
     breachDetails := "⚠️ Unable to check breaches" |}.

(** The scan of the response text for the suffix (from [data.split] to the
    two returns of the [try] block). *)
Definition scan_response (suffix data : string) : BreachResult :=
  let hashes := JS.split LF data in
  let found := JS.find (fun hash => JS.startsWith hash suffix) hashes in
  match found with
  | Some found =>
      if JS.truthy found then
        let breachCount := JS.parseInt_at (JS.split ":" found) 1 in
        {| isBreached := true; breachCount := breachCount;
           breachDetails :=
             "⚠️ Found in " ++ JS.show breachCount ++ " data breaches!" |}
      else no_breach
  | None => no_breach
  end.

Definition hash_prefix (passwordHash : string) : string :=
  JS.substring_to 5 passwordHash.

Definition hash_suffix (passwordHash : string) : string :=
  JS.toUpperCase (JS.substring_from 5 passwordHash).

(** The [try] block of [checkPasswordBreach]. *)
Definition checkPasswordBreach_try (W : World) (password : string) : M BreachResult :=
  passwordHash <- sha1 W password ;;
  let prefix := hash_prefix passwordHash in
  let suffix := hash_suffix passwordHash in
  response <- request (RangeLookup prefix) (fetch_range W prefix) ;;
  if negb (ok response) then throw "API request failed"
  else
    data <- lift (text response) ;;
    ret (scan_response suffix data).

Definition checkPasswordBreach (W : World) (password : string) : M BreachResult :=
  try_catch (checkPasswordBreach_try W password) (fun _ => ret unable_to_check).

(** ** The phishing scanner *)

(** The three labels ['low' | 'medium' | 'high'], of [riskLevel] and of
    [domainReputation] alike. *)
Inductive Level : Type := low | medium | high.

Record BasicCheck : Type := {
  basicSafe : bool;
  basicRiskLevel : Level;
  basicThreatTypes : list string;
  basicDetails : string
}.

(** The assessment [scanUrl] returns.  Its [timestamp] is the wall clock at
    the call and is left out. *)
Record ScanResult : Type := {
  safe : bool;
  riskLevel : Level;
  threatTypes : list string;
  googleSafe : bool;
  domainReputation : Level;
  riskScore : Z;
  details : string
}.

Record GoogleResult : Type := {
  gSafe : bool;
  gThreatTypes : list string;
  gDetails : string
}.

Record IpqsResult : Type := {
  reputation : Level;
  ipqsRiskScore : Z;
  isMalicious : bool;
  isPhishing : bool;
  isSuspicious : bool;
  ipqsDetails : string
}.

Record VtResult : Type := {
  vtMalicious : Z;
  vtSuspicious : Z;
  vtUndetected : Z;
  vtTotal : Z
}.

(** *** The local analysis *)

Import Regex.

Definition lower_alnums : regex := Plus (Cls JS.is_lower_alnum).
Definition digits : regex := Plus (Cls JS.is_digit).

Definition suspiciousPatterns : list (regex * string) :=
  [ (Cats [Alts [Lit "login"; Lit "signin"; Lit "account"];
           Chr "."; lower_alnums; Chr "."; lower_alnums],
     "Potential phishing page");
    (Cats [Alts [Lit "paypal"; Lit "bank"; Lit "amazon"; Lit "google"; Lit "facebook"];
           Chr "."; lower_alnums; Chr "."; lower_alnums],
     "Brand impersonation");
    (Alts [Lit "bit.ly"; Lit "tinyurl"; Lit "goo.gl"; Lit "t.co"; Lit "ow.ly"],
     "URL shortener");
    (Chr "@", "Misleading @ symbol");
    (Cats [Lit "http"; Opt (Chr "s"); Lit "://";
           digits; Chr "."; digits; Chr "."; digits; Chr "."; digits],
     "IP address instead of domain");
    (Alts [Lit_i "-login-"; Lit_i "secure-"; Lit_i "verify-"; Lit_i "account-"],
     "Suspicious keywords") ].

(** The body of the [forEach]: one pattern against the lowercased URL. *)
Definition check_pattern (url : string) (threats : list string)
  (entry : regex * string) : list string :=
  let '(pattern, threat) := entry in
  if test pattern (JS.toLowerCase url) then JS.push threats threat else threats.

Definition msg_no_https := "Not using HTTPS".
Definition msg_long_url := "Unusually long URL".

(** The array [threats] at the end of [basicUrlAnalysis]. *)
Definition basic_threats (url : string) : list string :=
  let threats : list string := [] in
  let threats := fold_left (check_pattern url) suspiciousPatterns threats in
  let threats :=
    if negb (JS.startsWith url "https://") then JS.push threats msg_no_https
    else threats in
  let threats :=
    if JS.length url >? 100 then JS.push threats msg_long_url else threats in
  threats.

Definition basicUrlAnalysis (url : string) : BasicCheck :=
  let threats := basic_threats url in
  let n := Z.of_nat (List.length threats) in
  {| basicSafe := n =? 0;
     basicRiskLevel := if n >=? 3 then high else if n >=? 1 then medium else low;
     basicThreatTypes := threats;
     basicDetails := if n >? 0 then JS.join ". " threats else "Passes basic checks" |}.

Definition normalizeUrl (url : string) : string :=
  if JS.startsWith url "http" then url else "http://" ++ url.

(** [new URL(..).hostname] is the platform's; a failure of the parse
    returns the input. *)
Definition extractDomain (W : World) (url : string) : M string :=
  try_catch (lift (url_hostname W (normalizeUrl url))) (fun _ => ret url).

(** *** The three services *)

Definition checkWithGoogle (W : World) (url apiKey : string) : M GoogleResult :=
  let u := normalizeUrl url in
  data <- request (ThreatMatch u apiKey) (fetch_threat_matches W u apiKey) ;;
  match matches data with
  | Some (m :: ms) =>
      let threats := m :: ms in
      ret {| gSafe := false; gThreatTypes := threats;
             gDetails := "Google Safe Browsing: " ++ JS.join ", " threats ++ " detected" |}
  | _ =>
      ret {| gSafe := true; gThreatTypes := [];
             gDetails := "Google Safe Browsing: No threats found" |}
  end.

(** [x || 0] on a number that may be absent. *)
Definition or_zero (x : option Z) : Z :=
  match x with
  | Some z => z
  | None => 0
  end.

(** [x > n] on a number that may be absent: [undefined > n] is false. *)
Definition gt_num (x : option Z) (n : Z) : bool :=
  match x with
  | Some z => z >? n
  | None => false
  end.

Definition reputation_of (risk_score : option Z) : Level :=
  if gt_num risk_score 75 then low
  else if gt_num risk_score 25 then medium
  else high.

Definition checkDomainReputation (W : World) (domain apiKey : string) : M IpqsResult :=
  data <- request (DomainReputation domain apiKey)
                  (fetch_domain_reputation W domain apiKey) ;;
  ret {| reputation := reputation_of (risk_score data);
         ipqsRiskScore := or_zero (risk_score data);
         isMalicious := malicious data;
         isPhishing := phishing data;
         isSuspicious := suspicious data;
         ipqsDetails :=
           match message data with
           | Some msg =>
               if JS.truthy msg then msg
               else "Risk score: " ++ JS.show_Z (or_zero (risk_score data)) ++ "/100"
           | None => "Risk score: " ++ JS.show_Z (or_zero (risk_score data)) ++ "/100"
           end |}.

(** [btoa] on code units below 256, where it never fails. *)
Definition b64_char (n : nat) : ascii :=
  if Nat.ltb n 26 then ascii_of_nat (65 + n)
  else if Nat.ltb n 52 then ascii_of_nat (97 + (n - 26))
  else if Nat.ltb n 62 then ascii_of_nat (48 + (n - 52))
  else if Nat.eqb n 62 then "+"%char
  else "/"%char.

Fixpoint btoa (s : string) : string :=
  match s with
  | EmptyString => EmptyString
  | String a EmptyString =>
      let x := JS.code a in
      String (b64_char (x / 4)) (String (b64_char (x mod 4 * 16)) "==")
  | String a (String b EmptyString) =>
      let x := JS.code a in
      let y := JS.code b in
      String (b64_char (x / 4))
        (String (b64_char (x mod 4 * 16 + y / 16))
           (String (b64_char (y mod 16 * 4)) "="))
  | String a (String b (String c rest)) =>
      let x := JS.code a in
      let y := JS.code b in
      let z := JS.code c in
      String (b64_char (x / 4))
        (String (b64_char (x mod 4 * 16 + y / 16))
           (String (b64_char (y mod 16 * 4 + z / 64))
              (String (b64_char (z mod 64)) (btoa rest))))
  end%nat.

(** [s.replace(/=/g, '')] *)
Fixpoint strip_padding (s : string) : string :=
  match s with
  | EmptyString => EmptyString
  | String c s' => if Ascii.eqb c "=" then strip_padding s' else String c (strip_padding s')
  end.

(** [stats.name || 0] and the sum of [Object.values(stats)]. *)
Fixpoint stat (name : string) (stats : list (string * Z)) : Z :=
  match stats with
  | [] => 0
  | (k, v) :: rest => if String.eqb k name then v else stat name rest
  end.

Definition checkWithVirusTotal (W : World) (url apiKey : string) : M VtResult :=
  let base64Url := strip_padding (btoa url) in
  data <- request (MultiEngine base64Url apiKey)
                  (fetch_multi_engine W base64Url apiKey) ;;
  let stats :=
    match last_analysis_stats data with
    | Some st => st
    | None => []
    end in
  ret {| vtMalicious := stat "malicious" stats;
         vtSuspicious := stat "suspicious" stats;
         vtUndetected := stat "undetected" stats;
         vtTotal := fold_left (fun a kv => a + snd kv) stats 0 |}.

(** *** The pipeline of [scanUrl]

    [results] is one object, updated in place by the stages; each stage is
    a function from its value before to its value after. *)

Definition initial_results : ScanResult :=
  {| safe := true; riskLevel := low; threatTypes := [];
     googleSafe := true; domainReputation := high; riskScore := 0;
     details := "" |}.

Definition scan_failed : ScanResult :=
  {| safe := false; riskLevel := high; threatTypes := ["Scan failed"];
     googleSafe := false; domainReputation := low; riskScore := 100;
     details := "Unable to complete security scan" |}.

(** [Object.assign(results, basicCheck)]: the four properties of
    [basicCheck] replace those of [results]. *)
Definition assign_basic (results : ScanResult) (basicCheck : BasicCheck) : ScanResult :=
  {| safe := basicSafe basicCheck;
     riskLevel := basicRiskLevel basicCheck;
     threatTypes := basicThreatTypes basicCheck;
     googleSafe := googleSafe results;
     domainReputation := domainReputation results;
     riskScore := riskScore results;
     details := basicDetails basicCheck |}.

(** 1. Basic local check *)
Definition stage_basic (url : string) (results : ScanResult) : M ScanResult :=
  let basicCheck := basicUrlAnalysis url in
  if negb (basicSafe basicCheck) then ret (assign_basic results basicCheck)
  else ret results.

(** 2. Google Safe Browsing *)
Definition stage_google (W : World) (url : string) (results : ScanResult) : M ScanResult :=
  googleApiKey <- lift (env_google_key W) ;;
  if JS.truthy googleApiKey then
    try_catch
      (googleResult <- checkWithGoogle W url googleApiKey ;;
       if negb (gSafe googleResult) then
         ret {| safe := false;
                riskLevel := high;
                threatTypes := gThreatTypes googleResult;
                googleSafe := false;
                domainReputation := domainReputation results;
                riskScore := riskScore results;
                details := gDetails googleResult |}
       else ret results)
      (fun _ => ret results)
  else ret results.

(** 3. IPQualityScore domain check *)
Definition stage_ipqs (W : World) (url : string) (results : ScanResult) : M ScanResult :=
  ipqsApiKey <- lift (env_ipqs_key W) ;;
  if (JS.truthy ipqsApiKey && safe results)%bool then
    try_catch
      (domain <- extractDomain W url ;;
       ipqsResult <- checkDomainReputation W domain ipqsApiKey ;;
       let flagged := (isMalicious ipqsResult || isPhishing ipqsResult)%bool in
       ret {| safe := if flagged then false else safe results;
              riskLevel := if flagged then high else riskLevel results;
              threatTypes := threatTypes results;
              googleSafe := googleSafe results;
              domainReputation := reputation ipqsResult;
              riskScore := ipqsRiskScore ipqsResult;
              details := details results |})
      (fun _ => ret results)
  else ret results.

Definition Level_eqb (a b : Level) : bool :=
  match a, b with
  | low, low | medium, medium | high, high => true
  | _, _ => false
  end.

(** 4. VirusTotal *)
Definition stage_vt (W : World) (url : string) (results : ScanResult) : M ScanResult :=
  vtApiKey <- lift (env_vt_key W) ;;
  if (JS.truthy vtApiKey && Level_eqb (riskLevel results) high)%bool then
    try_catch
      (vtResult <- checkWithVirusTotal W url vtApiKey ;;
       if vtMalicious vtResult >? 0 then
         ret {| safe := false;
                riskLevel := high;
                threatTypes := threatTypes results;
                googleSafe := googleSafe results;
                domainReputation := domainReputation results;
                riskScore := riskScore results;
                details := details results |}
       else ret results)
      (fun _ => ret results)
  else ret results.

(** The final [details]. *)
Definition finalize (results : ScanResult) : ScanResult :=
  {| safe := safe results;
     riskLevel := riskLevel results;
     threatTypes := threatTypes results;
     googleSafe := googleSafe results;
     domainReputation := domainReputation results;
     riskScore := riskScore results;
     details :=
       if safe results then "✅ URL appears safe based on multiple checks"
       else "⚠️ " ++
            (if Z.of_nat (List.length (threatTypes results)) >? 0
             then JS.join ", " (threatTypes results)
             else "Potential security threat detected") |}.

(** The states of [results] after stage 2 and after stage 3. *)
Definition after_google (W : World) (url : string) : M ScanResult :=
  r1 <- stage_basic url initial_results ;;
  stage_google W url r1.

Definition after_ipqs (W : World) (url : string) : M ScanResult :=
  r2 <- after_google W url ;;
  stage_ipqs W url r2.

(** The outer [try] block, and [scanUrl]. *)
Definition scanUrl_try (W : World) (url : string) : M ScanResult :=
  r1 <- stage_basic url initial_results ;;
  r2 <- stage_google W url r1 ;;
  r3 <- stage_ipqs W url r2 ;;
  r4 <- stage_vt W url r3 ;;
  ret (finalize r4).

Definition scanUrl (W : World) (url : string) : M ScanResult :=
  try_catch (scanUrl_try W url) (fun _ => ret scan_failed).

(** ** Notions used in the statements *)

(** A verdict that is unsafe at the highest level. *)
Definition locked (r : ScanResult) : Prop :=
  safe r = false /\ riskLevel r = high.

(** The entries of [suspiciousPatterns] that match the lowercased URL. *)
Definition matching_patterns (url : string) : list (regex * string) :=
  filter (fun entry => test (fst entry) (JS.toLowerCase url)) suspiciousPatterns.

(** The number of threats the local analysis is said to count. *)
Definition threat_count (url : string) : nat :=
  (List.length (matching_patterns url)
   + (if JS.startsWith url "https://" then 0 else 1)
   + (if JS.length url >? 100 then 1 else 0))%nat.

(** The scheme of a URL: the text before its first colon. *)
Fixpoint scheme (url : string) : option string :=
  match url with
  | EmptyString => None
  | String c rest =>
      if Ascii.eqb c ":" then Some EmptyString
      else option_map (String c) (scheme rest)
  end.

Definition has_char (p : ascii -> bool) (s : string) : bool :=
  existsb p (list_ascii_of_string s).

(** A number that is not negative: an integer from 0 on, or the positive
    infinity. *)
Definition not_negative (n : JS.number) : Prop :=
  match n with
  | JS.Num z => 0 <= z
  | JS.Infinity negative => negative = false
  | JS.NaN => False
  end.

(** The labels the threat-match stage puts in [threatTypes], when it does:
    its key is configured and the service returned at least one match. *)
Definition google_labels (W : World) (url : string) : option (list string) :=
  match env_google_key W with
  | Ok key =>
      if JS.truthy key then
        match fetch_threat_matches W (normalizeUrl url) key with
        | Ok {| matches := Some (m :: ms) |} => Some (m :: ms)
        | _ => None
        end
      else None
  | Throw _ => None
  end.

(** The value of a string of decimal digits. *)
Definition digit_step (acc : Z) (c : ascii) : Z :=
  acc * 10 + (Z.of_nat (JS.code c) - 48).

Definition decimal (ds : string) : Z :=
  fold_left digit_step (list_ascii_of_string ds) 0.

Definition all_digits (ds : string) : bool :=
  forallb JS.is_digit (list_ascii_of_string ds).

(** The value of [score] at the threshold tests: 0 for a common password,
    the points of the sub-checks otherwise. *)
Definition final_score (password : string) : Z :=
  if JS.includes commonPasswords (JS.toLowerCase password) then 0
  else fst (sub_checks password).

(** *** Sample worlds *)

(** No credential is configured and no service answers. *)
Definition world_offline : World :=
  {| subtle_digest_sha1 := fun _ => Throw "crypto.subtle is undefined";
     fetch_range := fun _ => Throw "Failed to fetch";
     env_google_key := Ok "";
     env_ipqs_key := Ok "";
     env_vt_key := Ok "";
     fetch_threat_matches := fun _ _ => Throw "Failed to fetch";
     fetch_domain_reputation := fun _ _ => Throw "Failed to fetch";
     fetch_multi_engine := fun _ _ => Throw "Failed to fetch";
     url_hostname := fun _ => Throw "Invalid URL" |}.

(** The three credentials are configured; the threat match reports
    malware, the reputation service would report a clean domain, the
    multi-engine scan reports nothing. *)
Definition world_malware : World :=
  {| subtle_digest_sha1 := fun _ => Throw "crypto.subtle is undefined";
     fetch_range := fun _ => Throw "Failed to fetch";
     env_google_key := Ok "g-key";
     env_ipqs_key := Ok "i-key";
     env_vt_key := Ok "v-key";
     fetch_threat_matches := fun _ _ => Ok {| matches := Some ["MALWARE"] |};
     fetch_domain_reputation := fun _ _ =>
       Ok {| risk_score := Some 0; malicious := false; phishing := false;
             suspicious := false; message := None |};
     fetch_multi_engine := fun _ _ => Ok {| last_analysis_stats := None |};
     url_hostname := fun _ => Ok "example.com" |}.

(** Only the reputation credential is configured; the service flags the
    domain as phishing with a risk score of 88. *)
Definition world_phishing : World :=
  {| subtle_digest_sha1 := fun _ => Throw "crypto.subtle is undefined";
     fetch_range := fun _ => Throw "Failed to fetch";
     env_google_key := Ok "";
     env_ipqs_key := Ok "i-key";
     env_vt_key := Ok "";
     fetch_threat_matches := fun _ _ => Throw "Failed to fetch";
     fetch_domain_reputation := fun _ _ =>
       Ok {| risk_score := Some 88; malicious := false; phishing := true;
             suspicious := true; message := None |};
     fetch_multi_engine := fun _ _ => Throw "Failed to fetch";
     url_hostname := fun _ => Ok "example.com" |}.

(** The configuration cannot be read. *)
Definition world_no_config : World :=
  {| subtle_digest_sha1 := fun _ => Throw "crypto.subtle is undefined";
     fetch_range := fun _ => Throw "Failed to fetch";
     env_google_key := Throw "Cannot read properties of undefined";
     env_ipqs_key := Throw "Cannot read properties of undefined";
     env_vt_key := Throw "Cannot read properties of undefined";
     fetch_threat_matches := fun _ _ => Throw "Failed to fetch";
     fetch_domain_reputation := fun _ _ => Throw "Failed to fetch";
     fetch_multi_engine := fun _ _ => Throw "Failed to fetch";
     url_hostname := fun _ => Throw "Invalid URL" |}.

(** SHA-1 of "password" is 5BAA61E4C9B93F3F0682250B6CF8331B7EE68FD8. *)
Definition sha1_of_password : list Byte.byte :=
  [Byte.x5b; Byte.xaa; Byte.x61; Byte.xe4; Byte.xc9; Byte.xb9; Byte.x3f;
   Byte.x3f; Byte.x06; Byte.x82; Byte.x25; Byte.x0b; Byte.x6c; Byte.xf8;
   Byte.x33; Byte.x1b; Byte.x7e; Byte.xe6; Byte.x8f; Byte.xd8].

Definition suffix_of_password : string := "1E4C9B93F3F0682250B6CF8331B7EE68FD8".

(** The range service answers every prefix with [response]. *)
Definition world_range (response : Result Response) : World :=
  {| subtle_digest_sha1 := fun _ => Ok sha1_of_password;
     fetch_range := fun _ => response;
     env_google_key := Ok "";
     env_ipqs_key := Ok "";
     env_vt_key := Ok "";
     fetch_threat_matches := fun _ _ => Throw "Failed to fetch";
     fetch_domain_reputation := fun _ _ => Throw "Failed to fetch";
     fetch_multi_engine := fun _ _ => Throw "Failed to fetch";
     url_hostname := fun _ => Throw "Invalid URL" |}.

Definition range_text (data : string) : Result Response :=
  Ok {| ok := true; text := Ok data |}.

(** ** The password generator *)

Definition charset : string :=
  "ABCDEFGHIJKLMNOPQRSTUVWXYZabcdefghijklmnopqrstuvwxyz0123456789!@#$%^&*".

(** [s.charAt(i)]: the empty string when [i] is out of range. *)
Definition charAt (s : string) (i : Z) : string :=
  if i <? 0 then EmptyString
  else match String.get (Z.to_nat i) s with
       | Some c => String c EmptyString
       | None => EmptyString
       end.

(** The loop of [generateStrongPassword].  [draw i] stands for the value
    of [Math.floor(Math.random() * charset.length)] at iteration [i]; the
    random source is the platform's. *)
Fixpoint generate_loop (draw : nat -> Z) (i count : nat) (password : string) : string :=
  match count with
  | O => password
  | S count' =>
      generate_loop draw (S i) count' (password ++ charAt charset (draw i))
  end.

(** [generateStrongPassword(length)], for a whole number [length]. *)
Definition generateStrongPassword (draw : nat -> Z) (length : Z) : string :=
  generate_loop draw 0 (Z.to_nat length) EmptyString.

(** *** Notions for the password checker *)

Definition b2z (b : bool) : Z := if b then 1 else 0.

(** The entries of advice, in the order of the checks. *)
Definition advice (password : string) : list string :=
  ((if JS.length password <? 8 then [msg_too_short] else [])
   ++ (if Regex.test re_upper password then [] else [msg_add_upper])
   ++ (if Regex.test re_lower password then [] else [msg_add_lower])
   ++ (if Regex.test re_digit password then [] else [msg_add_digit])
   ++ (if Regex.test re_symbol password then [] else [msg_add_special]))%list.

Definition summary (s : Strength.t) : string :=
  match s with
  | Strength.strong => msg_strong
  | Strength.medium => msg_medium
  | Strength.weak => msg_weak
  end.

Definition is_common (password : string) : bool :=
  JS.includes commonPasswords (JS.toLowerCase password).

(** *** Notions for the breach lookup *)

(** A digit of a hexadecimal number in capitals. *)
Definition is_hex_upper (c : ascii) : bool :=
  (JS.is_digit c || JS.in_range 65 70 c)%bool.

(** *** Notions for the scanner *)

(** [results] after the local stage. *)
Definition local_results (url : string) : ScanResult :=
  if basicSafe (basicUrlAnalysis url) then initial_results
  else assign_basic initial_results (basicUrlAnalysis url).

(** What the fields of an assessment say of one another. *)
Definition coherent (r : ScanResult) : Prop :=
  (safe r = true <-> riskLevel r = low) /\
  (safe r = true -> threatTypes r = [] /\ googleSafe r = true) /\
  (googleSafe r = false -> locked r) /\
  (riskLevel r = medium ->
   googleSafe r = true /\ domainReputation r = high /\ riskScore r = 0 /\
   (1 <= List.length (threatTypes r) <= 2)%nat).

(** The world [W] with another multi-engine service. *)
Definition with_multi_engine (W : World)
  (service : string -> string -> Result VtData) : World :=
  {| subtle_digest_sha1 := subtle_digest_sha1 W;
     fetch_range := fetch_range W;
     env_google_key := env_google_key W;
     env_ipqs_key := env_ipqs_key W;
     env_vt_key := env_vt_key W;
     fetch_threat_matches := fetch_threat_matches W;
     fetch_domain_reputation := fetch_domain_reputation W;
     fetch_multi_engine := service;
     url_hostname := url_hostname W |}.

(** One label, when its test holds. *)
Definition opt_threat (b : bool) (label : string) : list string :=
  if b then [label] else [].

(** The literals of the shortener pattern. *)
Definition shorteners : list string :=
  ["bit.ly"; "tinyurl"; "goo.gl"; "t.co"; "ow.ly"].

(** ** The scanner page *)

Definition Level_label (l : Level) : string :=
  match l with
  | low => "low"
  | medium => "medium"
  | high => "high"
  end.

Definition getRiskColor (riskLevel : string) : string :=
  if String.eqb riskLevel "low" then "text-green-600 bg-green-50"
  else if String.eqb riskLevel "medium" then "text-yellow-600 bg-yellow-50"
  else if String.eqb riskLevel "high" then "text-red-600 bg-red-50"
  else "text-gray-600 bg-gray-50".

Definition getReputationColor (reputation : string) : string :=
  if String.eqb reputation "high" then "text-green-600"
  else if String.eqb reputation "medium" then "text-yellow-600"
  else if String.eqb reputation "low" then "text-red-600"
  else "text-gray-600".

(** The class of the risk score, the conditional in the markup of the
    result card. *)
Definition riskScoreColor (riskScore : Z) : string :=
  if riskScore <? 25 then "text-green-600"
  else if riskScore <? 75 then "text-yellow-600"
  else "text-red-600".

(** A character of the base64 alphabet. *)
Definition is_base64_char (c : ascii) : bool :=
  (JS.is_alnum c || Ascii.eqb c "+" || Ascii.eqb c "/")%bool.

(** ** Values and documents

    A JavaScript value, as far as the services look at it: an object is the
    list of its own enumerable properties in the order of [Object.keys]
    (each name once); an array is the object of its indices; [VOther]
    stands for what is neither (a function, a symbol, a big integer). *)
#[warnings="-register-all"] Inductive value : Type :=
| VUndefined
| VNull
| VBool (b : bool)
| VNumber (n : JS.number)
| VString (s : string)
| VObject (props : list (string * value))
| VOther.

(** A field of a document given to the store: a value, the sentinel of
    [serverTimestamp()], or a nested map. *)
#[warnings="-register-all"] Inductive field : Type :=
| FValue (v : value)
| FServerTimestamp
| FMap (fields : list (string * field)).

Definition document : Type := list (string * field).

(** [obj[key]], [obj[key] = v] and [Object.keys(obj)] on the properties of
    an object. *)
Fixpoint prop_get {A} (absent : A) (props : list (string * A)) (key : string) : A :=
  match props with
  | [] => absent
  | (k, v) :: rest => if String.eqb k key then v else prop_get absent rest key
  end.

Fixpoint prop_set {A} (props : list (string * A)) (key : string) (v : A)
  : list (string * A) :=
  match props with
  | [] => [(key, v)]
  | (k, v0) :: rest =>
      if String.eqb k key then (k, v) :: rest
      else (k, v0) :: prop_set rest key v
  end.

Definition keys {A} (props : list (string * A)) : list string := map fst props.

(** [{ ...a, ...b }]: the properties of [b] set on [a], in order. *)
Definition spread {A} (a b : list (string * A)) : list (string * A) :=
  fold_left (fun acc kv => prop_set acc (fst kv) (snd kv)) b a.

(** [v !== undefined && v !== null] *)
Definition is_present (v : value) : bool :=
  match v with
  | VUndefined | VNull => false
  | _ => true
  end.

(** ** The store

    The document store is outside the module.  An operation on it returns
    or fails with an error, which has a message and may have a code; the
    operations made are kept, in order. *)
Record JsError : Type := {
  err_code : option string;
  err_message : string
}.

Inductive Outcome (A : Type) : Type :=
| Done (a : A)
| Failed (e : JsError).

Arguments Done {A} a.
Arguments Failed {A} e.

(** [new Error(message)] *)
Definition new_Error (message : string) : JsError :=
  {| err_code := None; err_message := message |}.

Inductive DbOp : Type :=
| GetDoc (path : list string)
| SetDoc (path : list string) (data : document)
| UpdateDoc (path : list string) (data : document)
| AddDoc (path : list string) (data : document)
| DeleteDoc (path : list string)
| GetDocs (path : list string) (orderBy : option (string * string)).

Record Firestore : Type := {
  db_getDoc : list string -> Outcome (option document);
  db_setDoc : list string -> document -> Outcome unit;
  db_updateDoc : list string -> document -> Outcome unit;
  db_addDoc : list string -> document -> Outcome string;
  db_deleteDoc : list string -> Outcome unit;
  db_getDocs : list string -> option (string * string)
               -> Outcome (list (string * document));
  navigator_userAgent : string
}.

Definition Db (A : Type) : Type := (list DbOp * Outcome A)%type.

Definition db_ret {A} (a : A) : Db A := ([], Done a).

Definition db_throw {A} (e : JsError) : Db A := ([], Failed e).

Definition db_bind {A B} (m : Db A) (f : A -> Db B) : Db B :=
  match m with
  | (t, Done a) => let '(t', r) := f a in ((t ++ t')%list, r)
  | (t, Failed e) => (t, Failed e)
  end.

Definition db_try {A} (m : Db A) (h : JsError -> Db A) : Db A :=
  match m with
  | (t, Failed e) => let '(t', r) := h e in ((t ++ t')%list, r)
  | (t, Done a) => (t, Done a)
  end.

Definition db_op {A} (op : DbOp) (answer : Outcome A) : Db A := ([op], answer).

Definition db_ops {A} (m : Db A) : list DbOp := fst m.
Definition db_outcome {A} (m : Db A) : Outcome A := snd m.

Notation "x <~ m ;; k" := (db_bind m (fun x => k))
  (at level 61, m at next level, right associativity).

(** ** [activityService.logActivity] *)

(** The body of the [forEach] on [Object.keys(details)]. *)
Definition clean_step (details cleanDetails : list (string * value)) (key : string)
  : list (string * value) :=
  if is_present (prop_get VUndefined details key)
  then prop_set cleanDetails key (prop_get VUndefined details key)
  else cleanDetails.

Definition clean_details (details : list (string * value)) : list (string * value) :=
  fold_left (clean_step details) (keys details) [].

(** The [details] property of [activityData], when it is set. *)
Definition activity_details (details : value) : option value :=
  match details with
  | VUndefined | VNull => None
  | VObject props =>
      let cleanDetails := clean_details props in
      if Z.of_nat (List.length (keys cleanDetails)) >? 0
      then Some (VObject cleanDetails)
      else None
  | VString _ | VNumber _ | VBool _ => Some details
  | VOther => None
  end.

Definition activity_data (F : Firestore) (action : string) (details : value) : document :=
  let activityData :=
    [("action", FValue (VString action));
     ("timestamp", FServerTimestamp);
     ("userAgent", FValue (VString (navigator_userAgent F)))] in
  match activity_details details with
  | Some d => prop_set activityData "details" (FValue d)
  | None => activityData
  end.

Definition logActivity (F : Firestore) (userId action : string) (details : value)
  : Db unit :=
  db_try
    (let activitiesRef := ["users"; userId; "activities"] in
     let activityData := activity_data F action details in
     _ <~ db_op (AddDoc activitiesRef activityData)
                (db_addDoc F activitiesRef activityData) ;;
     db_ret tt)
    (fun _ => db_ret tt).

(** ** [initUserProfile] *)

Record User : Type := {
  uid : string;
  displayName : option string;
  email : option string;
  photoURL : option string
}.

(** [user.email?.split('@')[0]] *)
Definition email_local_part (user : User) : value :=
  match email user with
  | Some e =>
      match JS.split "@" e with
      | x :: _ => VString x
      | [] => VUndefined
      end
  | None => VUndefined
  end.

Definition profile_fields (user : User) : list (string * field) :=
      [("displayName",
        FValue match displayName user with
               | Some n => if JS.truthy n then VString n else email_local_part user
               | None => email_local_part user
               end);
       ("email",
        FValue match email user with
               | Some e => VString e
               | None => VNull
               end);
       ("photoURL",
        FValue match photoURL user with
               | Some p => if JS.truthy p then VString p else VString ""
               | None => VString ""
               end);
       ("createdAt", FServerTimestamp);
       ("lastLogin", FServerTimestamp)].

Definition profile_document (user : User) : document :=
  [("profile", FMap (profile_fields user))].

(** [setDoc(doc(userRef, name, 'initial'), {}).catch(() => {})] *)
Definition placeholder (F : Firestore) (userRef : list string) (name : string) : Db unit :=
  let ref := (userRef ++ [name; "initial"])%list in
  db_try (db_op (SetDoc ref []) (db_setDoc F ref [])) (fun _ => db_ret tt).

Definition initUserProfile (F : Firestore) (user : User) : Db bool :=
  db_try
    (let userRef := ["users"; uid user] in
     userSnap <~ db_op (GetDoc userRef) (db_getDoc F userRef) ;;
     match userSnap with
     | None =>
         _ <~ db_op (SetDoc userRef (profile_document user))
                    (db_setDoc F userRef (profile_document user)) ;;
         _ <~ placeholder F userRef "screenTime" ;;
         _ <~ placeholder F userRef "todos" ;;
         _ <~ placeholder F userRef "digitalProperties" ;;
         _ <~ placeholder F userRef "subscriptions" ;;
         db_ret true
     | Some _ =>
         _ <~ db_op (UpdateDoc userRef [("profile.lastLogin", FServerTimestamp)])
                    (db_updateDoc F userRef [("profile.lastLogin", FServerTimestamp)]) ;;
         db_ret true
     end)
    (fun _ => db_ret false).

(** ** The services of the collections *)

(** [{ id: doc.id, ...doc.data() }] *)
Definition with_id (doc : string * document) : document :=
  spread [("id", FValue (VString (fst doc)))] (snd doc).

(** [doc.id !== 'initial'] *)
Definition not_initial (doc : string * document) : bool :=
  negb (String.eqb (fst doc) "initial").

Definition getTodos (F : Firestore) (userId : string) : Db (list document) :=
  db_try
    (let todosRef := ["users"; userId; "todos"] in
     let q := Some ("createdAt", "desc") in
     snapshot <~ db_op (GetDocs todosRef q) (db_getDocs F todosRef q) ;;
     db_ret (map with_id (filter not_initial snapshot)))
    (fun _ => db_ret []).

Definition getPhishingHistory (F : Firestore) (userId : string) : Db (list document) :=
  db_try
    (let scansRef := ["users"; userId; "phishingScans"] in
     let q := Some ("timestamp", "desc") in
     snapshot <~ db_op (GetDocs scansRef q) (db_getDocs F scansRef q) ;;
     db_ret (map with_id snapshot))
    (fun _ => db_ret []).

Definition getScreenTimeHistory (F : Firestore) (userId : string) : Db (list document) :=
  let screenTimeRef := ["users"; userId; "screenTime"] in
  let q := Some ("createdAt", "desc") in
  snapshot <~ db_op (GetDocs screenTimeRef q) (db_getDocs F screenTimeRef q) ;;
  db_ret (map with_id snapshot).

Definition deletePhishingScan (F : Firestore) (userId scanId : string) : Db unit :=
  db_try
    (let scanRef := ["users"; userId; "phishingScans"; scanId] in
     _ <~ db_op (DeleteDoc scanRef) (db_deleteDoc F scanRef) ;;
     db_ret tt)
    (fun error =>
       db_throw (new_Error ("Failed to delete phishing scan: " ++ err_message error))).

(** ** The scanner page: the history and its deletion *)

Record ScanEntry : Type := {
  entryId : string;
  entryUrl : string;
  entrySafe : bool
}.

Record ScanStats : Type := {
  total : Z;
  safeCount : Z;
  unsafeCount : Z
}.

Record PageState : Type := {
  history : list ScanEntry;
  scanStats : ScanStats
}.

Definition count_of (p : ScanEntry -> bool) (scans : list ScanEntry) : Z :=
  Z.of_nat (List.length (filter p scans)).

(** The statistics the snapshot listener sets. *)
Definition stats_of (scans : list ScanEntry) : ScanStats :=
  {| total := Z.of_nat (List.length scans);
     safeCount := count_of entrySafe scans;
     unsafeCount := count_of (fun s => negb (entrySafe s)) scans |}.

(** The callback of the snapshot listener. *)
Definition on_snapshot (scans : list ScanEntry) : PageState :=
  {| history := scans; scanStats := stats_of scans |}.

Definition alert_permission := "Permission denied. Please check your Firebase rules.".
Definition alert_not_found := "Scan not found. It may have already been deleted.".

(** [deleteScan]: the state of the page after it, the operations on the
    store and the alert shown, if any.  [user] is the signed-in user, if
    any, and [confirmed] the answer to the confirmation.  The handler reads
    [history] as it is when the deletion is asked for. *)
Definition deleteScan (F : Firestore) (user : option string) (confirmed : bool)
  (scanId : string) (st : PageState) : PageState * list DbOp * option string :=
  match user with
  | None => (st, [], None)
  | Some userId =>
      if negb confirmed then (st, [], None)
      else
        let deletedScan := JS.find (fun scan => String.eqb (entryId scan) scanId) (history st) in
        let history1 :=
          filter (fun scan => negb (String.eqb (entryId scan) scanId)) (history st) in
        let stats1 :=
          match deletedScan with
          | Some d =>
              {| total := total (scanStats st) - 1;
                 safeCount := safeCount (scanStats st) - (if entrySafe d then 1 else 0);
                 unsafeCount := unsafeCount (scanStats st) - (if entrySafe d then 0 else 1) |}
          | None => scanStats st
          end in
        let deletion := deletePhishingScan F userId scanId in
        match db_outcome deletion with
        | Done _ =>
            let logged :=
              logActivity F userId "DELETED_PHISHING_SCAN"
                          (VObject [("scanId", VString scanId)]) in
            ({| history := history1; scanStats := stats1 |},
             (db_ops deletion ++ db_ops logged)%list, None)
        | Failed error =>
            let alert :=
              match err_code error with
              | Some code =>
                  if String.eqb code "permission-denied" then alert_permission
                  else if String.eqb code "not-found" then alert_not_found
                  else "Failed to delete scan: "
                       ++ (if JS.truthy (err_message error) then err_message error
                           else "Unknown error")
                       ++ ". Please refresh and try again."
              | None =>
                  "Failed to delete scan: "
                  ++ (if JS.truthy (err_message error) then err_message error
                      else "Unknown error")
                  ++ ". Please refresh and try again."
              end in
            ({| history := history1; scanStats := stats1 |},
             db_ops deletion, Some alert)
        end
  end.

(** *** Sample stores and users *)

(** A store that holds no profile and accepts every write but those of the
    placeholder documents. *)
Definition store_new_user : Firestore :=
  {| db_getDoc := fun _ => Done None;
     db_setDoc := fun path _ =>
       if Nat.eqb (List.length path) 2 then Done tt
       else Failed {| err_code := Some "permission-denied";
                      err_message := "Missing or insufficient permissions." |};
     db_updateDoc := fun _ _ => Done tt;
     db_addDoc := fun _ _ => Done "doc-1";
     db_deleteDoc := fun _ => Done tt;
     db_getDocs := fun _ _ => Done [];
     navigator_userAgent := "Mozilla/5.0" |}.

(** A store that holds a profile and two to-do documents beside the
    placeholder; deletions are refused. *)
Definition store_existing_user : Firestore :=
  {| db_getDoc := fun _ => Done (Some [("profile", FMap [])]);
     db_setDoc := fun _ _ => Done tt;
     db_updateDoc := fun _ _ => Done tt;
     db_addDoc := fun _ _ => Done "doc-2";
     db_deleteDoc := fun _ =>
       Failed {| err_code := Some "permission-denied";
                 err_message := "Missing or insufficient permissions." |};
     db_getDocs := fun _ _ =>
       Done [("t2", [("title", FValue (VString "Rotate keys"))]);
             ("initial", []);
             ("t1", [("title", FValue (VString "Back up"));
                     ("id", FValue (VString "legacy-7"))])];
     navigator_userAgent := "Mozilla/5.0" |}.

(** A store that cannot be reached. *)
Definition store_down : Firestore :=
  {| db_getDoc := fun _ => Failed (new_Error "unavailable");
     db_setDoc := fun _ _ => Failed (new_Error "unavailable");
     db_updateDoc := fun _ _ => Failed (new_Error "unavailable");
     db_addDoc := fun _ _ => Failed (new_Error "unavailable");
     db_deleteDoc := fun _ => Failed (new_Error "unavailable");
     db_getDocs := fun _ _ => Failed (new_Error "unavailable");
     navigator_userAgent := "Mozilla/5.0" |}.

Definition user_ada : User :=
  {| uid := "u1"; displayName := None; email := Some "ada@example.com";
     photoURL := None |}.

Definition sample_history : list ScanEntry :=
  [{| entryId := "s3"; entryUrl := "http://bit.ly/abc"; entrySafe := false |};
   {| entryId := "s2"; entryUrl := "https://example.com"; entrySafe := true |};
   {| entryId := "s1"; entryUrl := "https://example.org"; entrySafe := true |}].

(** The three parts of what [deleteScan] leaves. *)
Definition page_after (r : PageState * list DbOp * option string) : PageState :=
  fst (fst r).
Definition ops_after (r : PageState * list DbOp * option string) : list DbOp :=
  snd (fst r).
Definition alert_after (r : PageState * list DbOp * option string) : option string :=
  snd r.

(** [scan.id !== scanId] *)
Definition other_than (scanId : string) (scan : ScanEntry) : bool :=
  negb (String.eqb (entryId scan) scanId).

(** ** The handlers of the two pages *)

(** [s.trim()] on code units below 256. *)
Fixpoint trim_end (s : string) : string :=
  match s with
  | EmptyString => EmptyString
  | String c s' =>
      match trim_end s' with
      | EmptyString => if JS.is_space c then EmptyString else String c EmptyString
      | t => String c t
      end
  end.

Definition trim (s : string) : string := trim_end (JS.skip_space s).

(** An array as a value: the object of its indices. *)
Definition array_value (l : list value) : value :=
  VObject (combine (map (fun i => JS.show_Z (Z.of_nat i)) (seq 0 (List.length l))) l).



Definition as_fields (props : list (string * value)) : document :=
  map (fun kv => (fst kv, FValue (snd kv))) props.

(** [phishingService.addPhishingScan] and [passwordService.addPasswordCheck]:
    the record with the time of the server, added to the collection. *)
Definition addPhishingScan (F : Firestore) (userId : string) (scan : document) : Db string :=
  let scansRef := ["users"; userId; "phishingScans"] in
  let data := spread scan [("timestamp", FServerTimestamp)] in
  db_op (AddDoc scansRef data) (db_addDoc F scansRef data).


(** What a handler leaves: the arguments of its calls of [setResult], in
    order (the last is the state [result] of the page afterwards), the
    requests made and the operations on the store. *)
Record Run (R : Type) : Type := {
  setResult : list R;
  requests : list Request;
  stored : list DbOp
}.

Arguments setResult {R} r.
Arguments requests {R} r.
Arguments stored {R} r.

(** The state [result] of the scanner page, by the properties that the
    markup reads.  The object that [scanUrl] returns has them all, with
    the [Date] of the scan as its [timestamp]; the object set by the
    [catch] of the handler has four. *)
Record ResultObject : Type := {
  o_safe : bool;
  o_riskLevel : Level;
  o_threatTypes : list string;
  o_details : string;
  o_googleSafe : option bool;
  o_domainReputation : option Level;
  o_riskScore : option Z;
  o_timestamp : bool
}.

Definition assessment (scanResult : ScanResult) : ResultObject :=
  {| o_safe := safe scanResult;
     o_riskLevel := riskLevel scanResult;
     o_threatTypes := threatTypes scanResult;
     o_details := details scanResult;
     o_googleSafe := Some (googleSafe scanResult);
     o_domainReputation := Some (domainReputation scanResult);
     o_riskScore := Some (riskScore scanResult);
     o_timestamp := true |}.

Definition scan_error : ResultObject :=
  {| o_safe := false;
     o_riskLevel := high;
     o_threatTypes := ["Scan error"];
     o_details := "Scan failed. Please try again.";
     o_googleSafe := None;
     o_domainReputation := None;
     o_riskScore := None;
     o_timestamp := false |}.

(** The result card, as the markup builds it from [result]: the two
    badges of the head, the three lines of the threat analysis with their
    classes, the threats and the recommendation.  (The text of the scan
    time is the platform's rendering of the [Date].) *)
Record ResultView : Type := {
  riskClass : string;
  riskBadge : string;
  safeBadge : string;
  googleBadge : string;
  reputationClass : string;
  reputationBadge : string;
  scoreClass : string;
  scoreText : string;
  detectedThreats : list string;
  recommendation : string
}.

(** The markup under [result &&].  An absent property reads as
    [undefined]: it is false in a condition and in a comparison with a
    number, and a method call on it ([result.timestamp.toLocaleString()],
    [result.domainReputation.toUpperCase()]) throws a [TypeError]. *)
Definition render_result (result : ResultObject) : Result ResultView :=
  if negb (o_timestamp result) then Throw "TypeError"
  else
    match o_domainReputation result with
    | None => Throw "TypeError"
    | Some reputation =>
        Ok {| riskClass := getRiskColor (Level_label (o_riskLevel result));
              riskBadge := JS.toUpperCase (Level_label (o_riskLevel result)) ++ " RISK";
              safeBadge := if o_safe result then "SAFE" else "UNSAFE";
              googleBadge :=
                match o_googleSafe result with
                | Some true => "Safe"
                | _ => "Threat"
                end;
              reputationClass := getReputationColor (Level_label reputation);
              reputationBadge := JS.toUpperCase (Level_label reputation);
              scoreClass :=
                match o_riskScore result with
                | Some riskScore => riskScoreColor riskScore
                | None => "text-red-600"
                end;
              scoreText :=
                match o_riskScore result with
                | Some riskScore => JS.show_Z riskScore ++ "/100"
                | None => "/100"
                end;
              detectedThreats := o_threatTypes result;
              recommendation :=
                if o_safe result then "✅ Safe to Proceed" else "🚫 Do Not Proceed" |}
    end.

Definition scan_record (url : string) (scanResult : ScanResult) : list (string * value) :=
  [("url", VString url);
   ("safe", VBool (safe scanResult));
   ("riskLevel", VString (Level_label (riskLevel scanResult)));
   ("threatTypes", array_value (map VString (threatTypes scanResult)));
   ("googleSafe", VBool (googleSafe scanResult));
   ("domainReputation", VString (Level_label (domainReputation scanResult)));
   ("riskScore", VNumber (JS.Num (riskScore scanResult)))].

(** The handler [scanUrl] of the scanner page.  The assessment is set as
    the result before the history is written; the [catch] sets the object
    of a failed scan. *)
Definition handleScanUrl (W : World) (F : Firestore) (user : option string)
  (url : string) : Run ResultObject :=
  if negb (JS.truthy (trim url)) then
    {| setResult := []; requests := []; stored := [] |}
  else
    let scan := scanUrl W url in
    match outcome scan with
    | Throw _ =>
        {| setResult := [scan_error]; requests := trace scan; stored := [] |}
    | Ok scanResult =>
        match user with
        | None =>
            {| setResult := [assessment scanResult]; requests := trace scan;
               stored := [] |}
        | Some userId =>
            let added := addPhishingScan F userId (as_fields (scan_record url scanResult)) in
            match db_outcome added with
            | Done _ =>
                let logged :=
                  logActivity F userId "SCANNED_URL"
                    (VObject [("url", VString url);
                              ("safe", VBool (safe scanResult));
                              ("riskLevel",
                               VString (Level_label (riskLevel scanResult)))]) in
                {| setResult := [assessment scanResult]; requests := trace scan;
                   stored := (db_ops added ++ db_ops logged)%list |}
            | Failed _ =>
                {| setResult := [assessment scanResult; scan_error];
                   requests := trace scan; stored := db_ops added |}
            end
        end
    end.



(** ** URLs beyond Latin-1

    [btoa] takes a string of any code units and throws when one of them is
    above 255.  Here a string is the list of its code units, and
    [checkWithVirusTotal] is the function of the source on such a string;
    on the code units of a Latin-1 string it is the one above. *)
Module Wide.

Definition code_units (s : string) : list nat :=
  map JS.code (list_ascii_of_string s).

(** The Latin-1 string of code units that are all below 256. *)
Definition latin1 (units : list nat) : option string :=
  if forallb (fun u => Nat.ltb u 256) units
  then Some (string_of_list_ascii (map ascii_of_nat units))
  else None.

Definition btoa (units : list nat) : Result string :=
  match latin1 units with
  | Some s => Ok (btoa s)
  | None => Throw "InvalidCharacterError"
  end.

Definition checkWithVirusTotal (W : World) (url : list nat) (apiKey : string)
  : M VtResult :=
  encoded <- lift (btoa url) ;;
  let base64Url := strip_padding encoded in
  data <- request (MultiEngine base64Url apiKey)
                  (fetch_multi_engine W base64Url apiKey) ;;
  let stats :=
    match last_analysis_stats data with
    | Some st => st
    | None => []
    end in
  ret {| vtMalicious := stat "malicious" stats;
         vtSuspicious := stat "suspicious" stats;
         vtUndetected := stat "undetected" stats;
         vtTotal := fold_left (fun a kv => a + snd kv) stats 0 |}.

End Wide.


(** * Properties *)

(** ** The effect monad *)

Section MonadLaws.
Context {A B : Type}.

Lemma trace_bind (m : M A) (f : A -> M B) :
  trace (bind m f) =
  (trace m ++ match outcome m with
              | Ok a => trace (f a)
              | Throw _ => []
              end)%list.
Proof.
  destruct m as [t [a | e]]; simpl.
  - destruct (f a); reflexivity.
  - now rewrite app_nil_r.
Qed.

Lemma outcome_bind (m : M A) (f : A -> M B) :
  outcome (bind m f) =
  match outcome m with
  | Ok a => outcome (f a)
  | Throw e => Throw e
  end.
Proof.
  destruct m as [t [a | e]]; simpl; [destruct (f a) |]; reflexivity.
Qed.

Lemma trace_try_catch (m : M A) (h : string -> M A) :
  trace (try_catch m h) =
  (trace m ++ match outcome m with
              | Ok _ => []
              | Throw e => trace (h e)
              end)%list.
Proof.
  destruct m as [t [a | e]]; simpl.
  - now rewrite app_nil_r.
  - destruct (h e); reflexivity.
Qed.

Lemma outcome_try_catch (m : M A) (h : string -> M A) :
  outcome (try_catch m h) =
  match outcome m with
  | Ok a => Ok a
  | Throw e => outcome (h e)
  end.
Proof.
  destruct m as [t [a | e]]; simpl; [| destruct (h e)]; reflexivity.
Qed.
End MonadLaws.

(** A handler that returns a value makes the whole block return. *)
Lemma try_catch_returns {A} (m : M A) (fallback : A) :
  exists a, outcome (try_catch m (fun _ => ret fallback)) = Ok a.
Proof.
  rewrite outcome_try_catch. destruct (outcome m); simpl; eauto.
Qed.

(** ** Strings and arrays *)

Lemma includes_In (arr : list string) (x : string) :
  JS.includes arr x = true <-> In x arr.
Proof.
  unfold JS.includes. rewrite existsb_exists. split.
  - intros [y [Hy Heq]]. apply String.eqb_eq in Heq. now subst.
  - intros H. exists x. split; [assumption | apply String.eqb_refl].
Qed.

(** ** [checkStrength] *)

Lemma class_check_score (t : bool) (msg : string) (st : Z * list string) :
  fst st <= fst (class_check t msg st) <= fst st + 1.
Proof.
  destruct st as [sc fb]. unfold class_check. destruct t; simpl; lia.
Qed.

(** The length and class checks give between 0 and 6 points. *)
Lemma sub_checks_score (password : string) :
  0 <= fst (sub_checks password) <= 6.
Proof.
  unfold sub_checks, class_check.
  destruct (JS.length password >=? 8); destruct (JS.length password >=? 12);
    destruct (JS.length password <? 8);
    destruct (test re_upper password); destruct (test re_lower password);
    destruct (test re_digit password); destruct (test re_symbol password);
    simpl; lia.
Qed.

Lemma checkStrength_score (password : string) :
  score (checkStrength password) = final_score password.
Proof.
  unfold checkStrength, final_score.
  destruct (sub_checks password) as [sc fb]. cbn [fst].
  destruct (JS.includes commonPasswords (JS.toLowerCase password)).
  - reflexivity.
  - destruct (sc >=? 5); [| destruct (sc >=? 3)]; reflexivity.
Qed.

Lemma checkStrength_strength (password : string) :
  strength (checkStrength password) =
  if score (checkStrength password) >=? 5 then Strength.strong
  else if score (checkStrength password) >=? 3 then Strength.medium
  else Strength.weak.
Proof.
  unfold checkStrength.
  destruct (sub_checks password) as [sc fb].
  destruct (JS.includes commonPasswords (JS.toLowerCase password)).
  - reflexivity.
  - destruct (sc >=? 5) eqn:H5; simpl; [now rewrite H5 |].
    destruct (sc >=? 3) eqn:H3; simpl; now rewrite H5, H3.
Qed.

(** C2. A password whose lowercase form is one of the six common passwords
    gets score 0 and strength weak, whatever the length and class checks
    gave, and its feedback is that of those checks followed by the
    very-common-password entry and the weak summary. *)
Theorem common_password_scores_zero (password : string) :
  In (JS.toLowerCase password) commonPasswords ->
  score (checkStrength password) = 0 /\
  strength (checkStrength password) = Strength.weak /\
  feedback (checkStrength password) =
    (snd (sub_checks password) ++ [msg_common; msg_weak])%list.
Proof.
  intros Hin. apply includes_In in Hin.
  unfold checkStrength.
  destruct (sub_checks password) as [sc fb].
  rewrite Hin. cbn. repeat split.
  unfold JS.push. now rewrite <- app_assoc.
Qed.

Lemma common_password_witness :
  fst (sub_checks "PassWord123") = 4 /\
  score (checkStrength "PassWord123") = 0 /\
  strength (checkStrength "PassWord123") = Strength.weak /\
  feedback (checkStrength "PassWord123") =
    (snd (sub_checks "PassWord123") ++ [msg_common; msg_weak])%list.
Proof.
  split; [reflexivity |].
  apply (common_password_scores_zero "PassWord123").
  simpl. tauto.
Defined.

(** C3. The score is an integer between 0 and 6, the value 6 is reached,
    and the strength follows the score: strong exactly from 5 up, medium
    exactly for 3 and 4, weak exactly below 3. *)
Theorem score_range_and_thresholds :
  (forall password : string,
     let r := checkStrength password in
     0 <= score r <= 6 /\
     (strength r = Strength.strong <-> 5 <= score r) /\
     (strength r = Strength.medium <-> 3 <= score r < 5) /\
     (strength r = Strength.weak <-> score r < 3)) /\
  (exists password : string, score (checkStrength password) = 6).
Proof.
  split.
  - intros password r. subst r.
    rewrite checkStrength_strength.
    assert (Hs : 0 <= score (checkStrength password) <= 6).
    { rewrite checkStrength_score. unfold final_score.
      pose proof (sub_checks_score password).
      destruct (JS.includes _ _); lia. }
    split; [exact Hs |].
    destruct (Z.geb_spec (score (checkStrength password)) 5);
      [| destruct (Z.geb_spec (score (checkStrength password)) 3)];
      repeat split; intros; try discriminate; try lia; reflexivity.
  - exists "Password123!". reflexivity.
Qed.

(** ** The matcher and the language of a pattern *)

Lemma append_empty (s1 s2 : string) :
  s1 ++ s2 = "" -> s1 = "" /\ s2 = "".
Proof.
  destruct s1; simpl; [auto | discriminate].
Qed.

Lemma append_cons (s1 s2 : string) (c : ascii) (s : string) :
  s1 ++ s2 = String c s ->
  (s1 = "" /\ s2 = String c s) \/
  (exists s1', s1 = String c s1' /\ s = s1' ++ s2).
Proof.
  destruct s1 as [| a s1]; simpl; intros H.
  - left. auto.
  - injection H as -> <-. right. eauto.
Qed.

Lemma nullable_Matches (r : regex) : nullable r = true <-> Matches r "".
Proof.
  split.
  - induction r; simpl; intros H; try discriminate.
    + constructor.
    + apply andb_true_iff in H. destruct H as [H1 H2].
      change "" with ("" ++ ""). constructor; auto.
    + apply orb_true_iff in H. destruct H as [H | H];
        [apply M_AltL | apply M_AltR]; auto.
    + constructor.
  - intros H. remember "" as s eqn:Hs.
    induction H; simpl; try reflexivity; try discriminate.
    + apply append_empty in Hs. destruct Hs as [-> ->].
      rewrite IHMatches1, IHMatches2; reflexivity.
    + rewrite IHMatches; auto.
    + rewrite IHMatches, orb_true_r; auto.
Qed.

Lemma Matches_deriv (c : ascii) (r : regex) (s' : string) :
  Matches r s' -> forall s, s' = String c s -> Matches (deriv c r) s.
Proof.
  induction 1 as [| p a Hp | r1 r2 s1 s2 H1 IH1 H2 IH2 | r1 r2 s0 H IH
                  | r1 r2 s0 H IH | r0 | r0 s1 s2 H1 IH1 H2 IH2];
    intros s Hs; simpl.
  - discriminate.
  - injection Hs as -> <-. rewrite Hp. constructor.
  - apply append_cons in Hs. destruct Hs as [[-> ->] | (s1' & -> & ->)].
    + assert (Hn : nullable r1 = true) by now apply nullable_Matches.
      rewrite Hn. apply M_AltR. now apply IH2.
    + destruct (nullable r1);
        [apply M_AltL |]; constructor; auto.
  - apply M_AltL. auto.
  - apply M_AltR. auto.
  - discriminate.
  - apply append_cons in Hs. destruct Hs as [[-> ->] | (s1' & -> & ->)].
    + now apply IH2.
    + constructor; auto.
Qed.

Lemma deriv_Matches (c : ascii) (r : regex) (s : string) :
  Matches (deriv c r) s -> Matches r (String c s).
Proof.
  revert s. induction r as [| | p | r1 IH1 r2 IH2 | r1 IH1 r2 IH2 | r0 IH];
    intros s H; simpl in H.
  - inversion H.
  - inversion H.
  - destruct (p c) eqn:Hp; inversion H; subst. now constructor.
  - destruct (nullable r1) eqn:Hn.
    + inversion H as [| | | ? ? ? H' | ? ? ? H' | |]; subst.
      * inversion H' as [| | ? ? s1 s2 Ha Hb | | | |]; subst.
        change (String c (s1 ++ s2)) with (String c s1 ++ s2).
        constructor; auto.
      * change (String c s) with ("" ++ String c s).
        constructor; [now apply nullable_Matches | auto].
    + inversion H as [| | ? ? s1 s2 Ha Hb | | | |]; subst.
      change (String c (s1 ++ s2)) with (String c s1 ++ s2).
      constructor; auto.
  - inversion H; subst; [apply M_AltL | apply M_AltR]; auto.
  - inversion H as [| | ? ? s1 s2 Ha Hb | | | |]; subst.
    change (String c (s1 ++ s2)) with (String c s1 ++ s2).
    constructor; auto.
Qed.

(** [match_prefix] decides that a prefix of the string is in the language
    of the pattern. *)
Lemma match_prefix_Matches (r : regex) (s : string) :
  match_prefix r s = true <->
  exists s1 s2, s = s1 ++ s2 /\ Matches r s1.
Proof.
  revert r. induction s as [| c s IH]; intros r; simpl.
  - rewrite orb_false_r, nullable_Matches. split.
    + intros H. exists "", "". auto.
    + intros (s1 & s2 & Hs & H). symmetry in Hs.
      apply append_empty in Hs. destruct Hs as [-> _]. exact H.
  - rewrite orb_true_iff, nullable_Matches, IH. split.
    + intros [H | (s1 & s2 & -> & H)].
      * exists "", (String c s). auto.
      * exists (String c s1), s2. split; [reflexivity | now apply deriv_Matches].
    + intros (s1 & s2 & Hs & H). symmetry in Hs.
      apply append_cons in Hs. destruct Hs as [[-> _] | (s1' & -> & ->)].
      * left. exact H.
      * right. exists s1', s2. split; [reflexivity |].
        eapply Matches_deriv; [exact H | reflexivity].
Qed.

(** [test] decides that a substring is in the language of the pattern. *)
Lemma test_Matches (r : regex) (s : string) :
  test r s = true <->
  exists s0 s1 s2, s = s0 ++ s1 ++ s2 /\ Matches r s1.
Proof.
  induction s as [| c s IH]; cbn [test].
  - rewrite orb_false_r, match_prefix_Matches. split.
    + intros (s1 & s2 & Hs & H). exists "", s1, s2. auto.
    + intros (s0 & s1 & s2 & Hs & H). symmetry in Hs.
      apply append_empty in Hs. destruct Hs as [-> Hs]. eauto.
  - rewrite orb_true_iff, match_prefix_Matches, IH. split.
    + intros [(s1 & s2 & Hs & H) | (s0 & s1 & s2 & -> & H)].
      * exists "", s1, s2. auto.
      * exists (String c s0), s1, s2. auto.
    + intros (s0 & s1 & s2 & Hs & H).
      destruct s0 as [| a s0]; simpl in Hs.
      * left. eauto.
      * injection Hs as <- ->. right. eauto.
Qed.

(** ** Regular expressions on one class *)

Lemma match_prefix_Empty (s : string) : match_prefix Empty s = false.
Proof.
  induction s; simpl; auto.
Qed.

Lemma match_prefix_Cls (p : ascii -> bool) (s : string) :
  match_prefix (Cls p) s =
  match s with
  | EmptyString => false
  | String c _ => p c
  end.
Proof.
  destruct s as [| c s]; simpl; [reflexivity |].
  destruct (p c); [destruct s; reflexivity | apply match_prefix_Empty].
Qed.

(** A pattern of one class matches when some character is in the class. *)
Lemma test_Cls (p : ascii -> bool) (s : string) :
  test (Cls p) s = has_char p s.
Proof.
  unfold has_char.
  induction s as [| c s IH]; [reflexivity |].
  cbn [test list_ascii_of_string existsb].
  now rewrite match_prefix_Cls, IH.
Qed.

Lemma lower_char_idempotent (c : ascii) :
  JS.lower_char (JS.lower_char c) = JS.lower_char c.
Proof.
  destruct c as [[] [] [] [] [] [] [] []]; reflexivity.
Qed.

Lemma toLowerCase_idempotent (s : string) :
  JS.toLowerCase (JS.toLowerCase s) = JS.toLowerCase s.
Proof.
  induction s as [| c s IH]; simpl; [reflexivity |].
  now rewrite lower_char_idempotent, IH.
Qed.

Lemma toLowerCase_length (s : string) :
  String.length (JS.toLowerCase s) = String.length s.
Proof.
  induction s; simpl; congruence.
Qed.

(** Lowercasing keeps an at sign. *)
Lemma toLowerCase_at (s : string) :
  has_char (Ascii.eqb "@") s = true ->
  has_char (Ascii.eqb "@") (JS.toLowerCase s) = true.
Proof.
  unfold has_char.
  induction s as [| c s IH]; [easy |].
  cbn [JS.toLowerCase list_ascii_of_string existsb].
  intros H. apply orb_true_iff in H. apply orb_true_iff.
  destruct H as [H | H]; [left | right; auto].
  apply Ascii.eqb_eq in H. subst c. reflexivity.
Qed.

Lemma startsWith_append (s p : string) :
  JS.startsWith s p = true -> exists rest, s = p ++ rest.
Proof.
  unfold JS.startsWith. revert s.
  induction p as [| a p IH]; intros s H.
  - exists s. reflexivity.
  - destruct s as [| b s]; simpl in H; [discriminate |].
    destruct (ascii_dec a b) as [-> |]; [| discriminate].
    destruct (IH s H) as [rest ->]. exists rest. reflexivity.
Qed.

(** ** [basicUrlAnalysis] *)

Lemma check_patterns_fold (url : string) (ps : list (regex * string))
  (threats : list string) :
  fold_left (check_pattern url) ps threats =
  (threats ++
   map snd (filter (fun entry => test (fst entry) (JS.toLowerCase url)) ps))%list.
Proof.
  revert threats.
  induction ps as [| [pattern threat] ps IH]; intros threats; simpl.
  - now rewrite app_nil_r.
  - rewrite IH. destruct (test pattern (JS.toLowerCase url)); simpl.
    + unfold JS.push. now rewrite <- app_assoc.
    + reflexivity.
Qed.

Lemma basic_threats_eq (url : string) :
  basic_threats url =
  (map snd (matching_patterns url)
   ++ (if JS.startsWith url "https://" then [] else [msg_no_https])
   ++ (if JS.length url >? 100 then [msg_long_url] else []))%list.
Proof.
  unfold basic_threats, matching_patterns, JS.push.
  rewrite check_patterns_fold. cbn [app].
  destruct (JS.startsWith url "https://"); cbn [negb];
    destruct (JS.length url >? 100);
    rewrite ?app_nil_r, <- ?app_assoc; reflexivity.
Qed.

Lemma basic_threats_length (url : string) :
  List.length (basic_threats url) = threat_count url.
Proof.
  rewrite basic_threats_eq. unfold threat_count.
  rewrite !length_app, length_map.
  destruct (JS.startsWith url "https://"); destruct (JS.length url >? 100);
    simpl; lia.
Qed.

Lemma basic_verdict (url : string) :
  let n := List.length (basic_threats url) in
  basicSafe (basicUrlAnalysis url) = Nat.eqb n 0 /\
  basicRiskLevel (basicUrlAnalysis url) =
    (if Nat.leb 3 n then high else if Nat.leb 1 n then medium else low).
Proof.
  intros n. unfold basicUrlAnalysis. fold n. cbn [basicSafe basicRiskLevel].
  split.
  - destruct (Z.eqb_spec (Z.of_nat n) 0); destruct (Nat.eqb_spec n 0); lia || reflexivity.
  - destruct (Z.geb_spec (Z.of_nat n) 3); destruct (Nat.leb_spec 3 n); try lia; [reflexivity |].
    destruct (Z.geb_spec (Z.of_nat n) 1); destruct (Nat.leb_spec 1 n); try lia; reflexivity.
Qed.

Lemma at_sign_matches (url : string) :
  has_char (Ascii.eqb "@") url = true ->
  In (Chr "@", "Misleading @ symbol") (matching_patterns url).
Proof.
  intros H. unfold matching_patterns. apply filter_In. split.
  - simpl. tauto.
  - cbn [fst]. unfold Chr. rewrite test_Cls. now apply toLowerCase_at.
Qed.

(** C4. The threats of the local analysis are the labels of the matching
    patterns, then the non-HTTPS flag, then the length flag; their number
    decides the verdict: none is safe and low, one or two is medium, three
    or more is high; an at sign without HTTPS is unsafe and at least
    medium. *)
Theorem basicUrlAnalysis_counts_threats (url : string) :
  let b := basicUrlAnalysis url in
  let n := threat_count url in
  basicThreatTypes b =
    (map snd (matching_patterns url)
     ++ (if JS.startsWith url "https://" then [] else [msg_no_https])
     ++ (if JS.length url >? 100 then [msg_long_url] else []))%list /\
  List.length (basicThreatTypes b) = n /\
  (n = 0%nat -> basicSafe b = true /\ basicRiskLevel b = low) /\
  ((1 <= n <= 2)%nat -> basicSafe b = false /\ basicRiskLevel b = medium) /\
  ((3 <= n)%nat -> basicSafe b = false /\ basicRiskLevel b = high) /\
  (has_char (Ascii.eqb "@") url = true ->
   JS.startsWith url "https://" = false ->
   basicSafe b = false /\ basicRiskLevel b <> low).
Proof.
  intros b n.
  assert (Hlen : List.length (basic_threats url) = n) by apply basic_threats_length.
  destruct (basic_verdict url) as [Hsafe Hlevel].
  rewrite Hlen in Hsafe, Hlevel. fold b in Hsafe, Hlevel.
  split; [apply basic_threats_eq |].
  split; [exact Hlen |].
  rewrite Hsafe, Hlevel.
  assert (Hat : has_char (Ascii.eqb "@") url = true ->
                JS.startsWith url "https://" = false -> (2 <= n)%nat).
  { intros Hc Hs. subst n. unfold threat_count. rewrite Hs.
    apply at_sign_matches in Hc.
    destruct (matching_patterns url); [contradiction | simpl; lia]. }
  repeat split; intros.
  - subst n. now rewrite H.
  - subst n. now rewrite H.
  - destruct (Nat.eqb_spec n 0); [lia | reflexivity].
  - destruct (Nat.leb_spec 3 n); [lia |]. destruct (Nat.leb_spec 1 n); [reflexivity | lia].
  - destruct (Nat.eqb_spec n 0); [lia | reflexivity].
  - destruct (Nat.leb_spec 3 n); [reflexivity | lia].
  - specialize (Hat H H0). destruct (Nat.eqb_spec n 0); [lia | reflexivity].
  - specialize (Hat H H0).
    destruct (Nat.leb_spec 3 n); [discriminate |].
    destruct (Nat.leb_spec 1 n); [discriminate | lia].
Qed.

Lemma basicUrlAnalysis_witness :
  (basicSafe (basicUrlAnalysis "https://example.com") = true /\
   basicRiskLevel (basicUrlAnalysis "https://example.com") = low) /\
  (basicSafe (basicUrlAnalysis "http://bit.ly/abc") = false /\
   basicRiskLevel (basicUrlAnalysis "http://bit.ly/abc") = medium) /\
  (basicSafe (basicUrlAnalysis "http://paypal.secure-login.example.com@10.0.0.1") = false /\
   basicRiskLevel (basicUrlAnalysis "http://paypal.secure-login.example.com@10.0.0.1") = high) /\
  (basicSafe (basicUrlAnalysis "ftp://user@example.com") = false /\
   basicRiskLevel (basicUrlAnalysis "ftp://user@example.com") <> low).
Proof.
  split; [| split; [| split]].
  - destruct (basicUrlAnalysis_counts_threats "https://example.com")
      as (_ & _ & H & _).
    apply H. reflexivity.
  - destruct (basicUrlAnalysis_counts_threats "http://bit.ly/abc")
      as (_ & _ & _ & H & _).
    apply H. vm_compute. split; repeat constructor.
  - destruct (basicUrlAnalysis_counts_threats
                "http://paypal.secure-login.example.com@10.0.0.1")
      as (_ & _ & _ & _ & H & _).
    apply H. vm_compute. repeat constructor.
  - destruct (basicUrlAnalysis_counts_threats "ftp://user@example.com")
      as (_ & _ & _ & _ & _ & H).
    apply H; reflexivity.
Defined.

(** The scenarios of the specification, and the patterns at work. *)
Example shortener_is_flagged :
  basicThreatTypes (basicUrlAnalysis "http://bit.ly/abc") =
    ["URL shortener"; "Not using HTTPS"] /\
  basicRiskLevel (basicUrlAnalysis "http://bit.ly/abc") = medium.
Proof.
  vm_compute. split; reflexivity.
Qed.

Example plain_https_is_safe :
  scanUrl world_offline "https://example.com" =
    ([], Ok {| safe := true; riskLevel := low; threatTypes := [];
               googleSafe := true; domainReputation := high; riskScore := 0;
               details := "✅ URL appears safe based on multiple checks" |}).
Proof.
  vm_compute. reflexivity.
Qed.

Example address_and_keywords_are_flagged :
  basicThreatTypes (basicUrlAnalysis "http://192.168.10.1/Secure-Login.paypal.com.evil.io") =
    ["Potential phishing page"; "Brand impersonation";
     "IP address instead of domain"; "Suspicious keywords"; "Not using HTTPS"].
Proof.
  vm_compute. reflexivity.
Qed.

Lemma check_pattern_lowercased (url : string) (ps : list (regex * string))
  (threats : list string) :
  fold_left (check_pattern url) ps threats =
  fold_left (check_pattern (JS.toLowerCase url)) ps threats.
Proof.
  rewrite !check_patterns_fold. now rewrite toLowerCase_idempotent.
Qed.

Lemma scheme_of_https (rest : string) : scheme ("https://" ++ rest) = Some "https".
Proof.
  reflexivity.
Qed.

(** A URL whose scheme holds a capital does not start with [https://]. *)
Lemma capital_scheme_not_https (url sch : string) :
  scheme url = Some sch ->
  has_char JS.is_upper sch = true ->
  JS.startsWith url "https://" = false.
Proof.
  intros Hsch Hup.
  destruct (JS.startsWith url "https://") eqn:Hs; [| reflexivity].
  apply startsWith_append in Hs. destruct Hs as [rest ->].
  rewrite scheme_of_https in Hsch. injection Hsch as <-. discriminate.
Qed.

Lemma not_https_flagged (url : string) :
  JS.startsWith url "https://" = false ->
  In msg_no_https (basic_threats url) /\
  basicSafe (basicUrlAnalysis url) = false /\
  basicRiskLevel (basicUrlAnalysis url) <> low.
Proof.
  intros Hs.
  assert (Hin : In msg_no_https (basic_threats url)).
  { rewrite basic_threats_eq, Hs. apply in_or_app. right.
    apply in_or_app. left. simpl. tauto. }
  split; [exact Hin |].
  destruct (basic_verdict url) as [Hsafe Hlevel].
  rewrite Hsafe, Hlevel.
  destruct (basic_threats url) as [| t [| t' [| t'' ts]]];
    [contradiction | | |]; split; (reflexivity || discriminate).
Qed.

(** C10. The pattern tests see the lowercased URL: the pattern threats of
    a URL are the labels of the patterns that its lowercase form matches,
    in the order of the table, so a URL in capitals is flagged by a pattern
    written in small letters that the URL as given does not match
    ([https://BIT.LY/x] is a URL shortener).  The HTTPS test compares the
    URL as given with the prefix [https://], so a URL whose scheme holds a
    capital letter is flagged as not using HTTPS, is not safe, and has a
    risk level above low.  [HTTPS://example.com] is flagged where
    [https://example.com] is safe. *)
Theorem https_test_is_case_sensitive :
  (forall url : string,
     basicThreatTypes (basicUrlAnalysis url) =
     (map snd (filter (fun entry => test (fst entry) (JS.toLowerCase url))
                      suspiciousPatterns)
      ++ (if JS.startsWith url "https://" then [] else [msg_no_https])
      ++ (if JS.length url >? 100 then [msg_long_url] else []))%list) /\
  (forall url : string,
     fold_left (check_pattern url) suspiciousPatterns [] =
     fold_left (check_pattern (JS.toLowerCase url)) suspiciousPatterns []) /\
  (forall url sch : string,
     scheme url = Some sch ->
     has_char JS.is_upper sch = true ->
     In msg_no_https (basicThreatTypes (basicUrlAnalysis url)) /\
     basicSafe (basicUrlAnalysis url) = false /\
     basicRiskLevel (basicUrlAnalysis url) <> low) /\
  basicUrlAnalysis "HTTPS://example.com" =
    {| basicSafe := false; basicRiskLevel := medium;
       basicThreatTypes := [msg_no_https]; basicDetails := msg_no_https |} /\
  basicSafe (basicUrlAnalysis "https://example.com") = true /\
  forallb (fun entry => negb (test (fst entry) "https://BIT.LY/x")) suspiciousPatterns
    = true /\
  basicUrlAnalysis "https://BIT.LY/x" =
    {| basicSafe := false; basicRiskLevel := medium;
       basicThreatTypes := ["URL shortener"]; basicDetails := "URL shortener" |} /\
  basicThreatTypes (basicUrlAnalysis "HTTPS://PAYPAL.EVIL.COM/a@b") =
    ["Brand impersonation"; "Misleading @ symbol"; msg_no_https].
Proof.
  split; [| split; [| split; [| repeat split]]].
  - intros url. cbn [basicUrlAnalysis basicThreatTypes].
    rewrite basic_threats_eq. reflexivity.
  - intros url. apply check_pattern_lowercased.
  - intros url sch Hsch Hup.
    apply not_https_flagged. eapply capital_scheme_not_https; eassumption.
Qed.

Lemma https_test_witness :
  In msg_no_https (basicThreatTypes (basicUrlAnalysis "Https://example.com")) /\
  basicSafe (basicUrlAnalysis "Https://example.com") = false /\
  basicRiskLevel (basicUrlAnalysis "Https://example.com") <> low.
Proof.
  destruct https_test_is_case_sensitive as (_ & _ & H & _).
  apply (H "Https://example.com" "Https"); reflexivity.
Defined.

(** ** [checkPasswordBreach] *)

(** What [checkPasswordBreach] returns, by cases on what the platform and
    the service answer. *)
Lemma checkPasswordBreach_outcome (W : World) (password : string) :
  outcome (checkPasswordBreach W password) =
  Ok match subtle_digest_sha1 W password with
     | Throw _ => unable_to_check
     | Ok hashArray =>
         let passwordHash := hex_string hashArray in
         match fetch_range W (hash_prefix passwordHash) with
         | Throw _ => unable_to_check
         | Ok response =>
             if ok response then
               match text response with
               | Ok data => scan_response (hash_suffix passwordHash) data
               | Throw _ => unable_to_check
               end
             else unable_to_check
         end
     end.
Proof.
  cbv [checkPasswordBreach checkPasswordBreach_try sha1 bind try_catch lift
       request ret throw outcome snd].
  destruct (subtle_digest_sha1 W password) as [hashArray | e]; [| reflexivity].
  destruct (fetch_range W (hash_prefix (hex_string hashArray))) as [response | e];
    [| reflexivity].
  destruct (ok response); cbn [negb]; [| reflexivity].
  destruct (text response); reflexivity.
Qed.

(** A breach is reported only for a line of the text that starts with the
    suffix. *)
Lemma scan_response_breached (suffix data : string) :
  isBreached (scan_response suffix data) = true ->
  exists line,
    In line (JS.split LF data) /\ JS.startsWith line suffix = true.
Proof.
  unfold scan_response, JS.find.
  destruct (List.find _ _) as [found |] eqn:Hfind; [| discriminate].
  intros _. apply find_some in Hfind. exists found. exact Hfind.
Qed.

Lemma scan_response_not_unable (suffix data : string) :
  scan_response suffix data <> unable_to_check.
Proof.
  unfold scan_response.
  destruct (JS.find _ _) as [found |]; [destruct (JS.truthy found) |];
    discriminate.
Qed.

(** C8 (as the code has it).  [checkPasswordBreach] always returns a
    result.  A failure of the digest, a transport error, a status that is
    not a success and a failure to read the body all give the degraded
    result (not breached, count 0, unable to check).  A text that was read
    is scanned as it is, whatever its form.  A breach is reported only when
    a line of the text starts with the suffix. *)
Theorem checkPasswordBreach_never_raises (W : World) (password : string) :
  exists r : BreachResult,
    outcome (checkPasswordBreach W password) = Ok r /\
    (forall e, subtle_digest_sha1 W password = Throw e -> r = unable_to_check) /\
    (forall hashArray,
       subtle_digest_sha1 W password = Ok hashArray ->
       let passwordHash := hex_string hashArray in
       (forall e, fetch_range W (hash_prefix passwordHash) = Throw e ->
                  r = unable_to_check) /\
       (forall response,
          fetch_range W (hash_prefix passwordHash) = Ok response ->
          (ok response = false -> r = unable_to_check) /\
          (ok response = true ->
           forall e, text response = Throw e -> r = unable_to_check) /\
          (ok response = true ->
           forall data, text response = Ok data ->
                        r = scan_response (hash_suffix passwordHash) data /\
                        r <> unable_to_check))) /\
    (isBreached r = true ->
     exists hashArray response data line,
       subtle_digest_sha1 W password = Ok hashArray /\
       fetch_range W (hash_prefix (hex_string hashArray)) = Ok response /\
       ok response = true /\
       text response = Ok data /\
       In line (JS.split LF data) /\
       JS.startsWith line (hash_suffix (hex_string hashArray)) = true).
Proof.
  eexists. split; [apply checkPasswordBreach_outcome |].
  destruct (subtle_digest_sha1 W password) as [hashArray | e0].
  - split; [discriminate |]. split.
    + intros h [= <-]. cbn zeta. split.
      * intros e He. now rewrite He.
      * intros response Hr. rewrite Hr. split; [| split].
        -- intros Hok. now rewrite Hok.
        -- intros Hok e He. now rewrite Hok, He.
        -- intros Hok data Hd. rewrite Hok, Hd.
           split; [reflexivity | apply scan_response_not_unable].
    + cbn zeta.
      destruct (fetch_range W _) as [response | e1] eqn:Hf; [| easy].
      destruct (ok response) eqn:Hok; [| easy].
      destruct (text response) as [data | e2] eqn:Ht; [| easy].
      intros Hb. apply scan_response_breached in Hb. destruct Hb as [line [Hin Hp]].
      exists hashArray, response, data, line. repeat split; assumption.
  - split; [reflexivity |]. split; easy.
Qed.

Lemma checkPasswordBreach_witness :
  outcome (checkPasswordBreach world_offline "password") = Ok unable_to_check /\
  outcome (checkPasswordBreach
             (world_range (Ok {| ok := false; text := Ok "" |})) "password")
    = Ok unable_to_check /\
  outcome (checkPasswordBreach
             (world_range (Ok {| ok := true; text := Throw "body stream error" |}))
             "password")
    = Ok unable_to_check /\
  outcome (checkPasswordBreach
             (world_range (range_text (suffix_of_password ++ ":9545824"))) "password")
    = Ok (scan_response suffix_of_password (suffix_of_password ++ ":9545824")).
Proof.
  split; [| split; [| split]].
  - destruct (checkPasswordBreach_never_raises world_offline "password")
      as (r & Hr & Hdigest & _).
    rewrite Hr. f_equal.
    apply (Hdigest "crypto.subtle is undefined"). reflexivity.
  - destruct (checkPasswordBreach_never_raises
                (world_range (Ok {| ok := false; text := Ok "" |})) "password")
      as (r & Hr & _ & Hfetch & _).
    rewrite Hr. f_equal.
    destruct (Hfetch sha1_of_password eq_refl) as [_ Hresp].
    destruct (Hresp {| ok := false; text := Ok "" |} eq_refl) as [Hnok _].
    apply Hnok. reflexivity.
  - destruct (checkPasswordBreach_never_raises
                (world_range (Ok {| ok := true; text := Throw "body stream error" |}))
                "password")
      as (r & Hr & _ & Hfetch & _).
    rewrite Hr. f_equal.
    destruct (Hfetch sha1_of_password eq_refl) as [_ Hresp].
    destruct (Hresp {| ok := true; text := Throw "body stream error" |} eq_refl)
      as (_ & Hbody & _).
    apply (Hbody eq_refl "body stream error"). reflexivity.
  - destruct (checkPasswordBreach_never_raises
                (world_range (range_text (suffix_of_password ++ ":9545824")))
                "password")
      as (r & Hr & _ & Hfetch & _).
    rewrite Hr. f_equal.
    destruct (Hfetch sha1_of_password eq_refl) as [_ Hresp].
    destruct (Hresp {| ok := true; text := Ok (suffix_of_password ++ ":9545824") |}
                    eq_refl)
      as (_ & _ & Htext).
    apply (Htext eq_refl (suffix_of_password ++ ":9545824")). reflexivity.
Defined.

(** A response holding the suffix without a count is not rejected: a breach
    is reported, with a count that is not a number.  A response that is not
    a list of hashes at all is reported as no breach found, not as a check
    that could not be made. *)
Lemma malformed_response_counterexample :
  outcome (checkPasswordBreach
             (world_range (range_text suffix_of_password)) "password")
    = Ok {| isBreached := true; breachCount := JS.NaN;
            breachDetails := "⚠️ Found in NaN data breaches!" |} /\
  outcome (checkPasswordBreach
             (world_range (range_text "<html>Bad gateway</html>")) "password")
    = Ok no_breach /\
  no_breach <> unable_to_check.
Proof.
  split; [reflexivity |]. split; [reflexivity | discriminate].
Qed.

(** ** The digest rendering *)

Lemma toUpperCase_length (s : string) :
  String.length (JS.toUpperCase s) = String.length s.
Proof.
  induction s; simpl; congruence.
Qed.

Lemma append_length (s1 s2 : string) :
  String.length (s1 ++ s2) = (String.length s1 + String.length s2)%nat.
Proof.
  induction s1; simpl; congruence.
Qed.

Lemma hex_byte_length (b : Byte.byte) :
  String.length (padStart 2 "0" (toString16 b)) = 2%nat.
Proof.
  destruct b; reflexivity.
Qed.

Lemma join_hex_length (hashArray : list Byte.byte) :
  String.length
    (JS.join "" (map (fun b => padStart 2 "0" (toString16 b)) hashArray))
  = (2 * List.length hashArray)%nat.
Proof.
  induction hashArray as [| b bs IH]; [reflexivity |].
  cbn [map JS.join List.length].
  destruct (map _ bs) eqn:Hm.
  - destruct bs; [| discriminate]. apply hex_byte_length.
  - rewrite <- Hm in *. rewrite append_length, hex_byte_length.
    cbn [append]. rewrite IH. lia.
Qed.

Lemma substring_from_length (n : nat) (s : string) :
  String.length (JS.substring_from n s) = (String.length s - n)%nat.
Proof.
  revert s. induction n as [| n IH]; intros [| c s]; simpl; auto.
Qed.

Lemma substring_to_length (n : nat) (s : string) :
  (n <= String.length s)%nat ->
  String.length (JS.substring_to n s) = n.
Proof.
  unfold JS.substring_to. revert s.
  induction n as [| n IH]; intros [| c s] H; simpl in *; try reflexivity; try lia.
  rewrite IH; [reflexivity | lia].
Qed.

(** A digest of 20 bytes is rendered in 40 characters: 5 of prefix and 35
    of suffix. *)
Lemma hash_lengths (hashArray : list Byte.byte) :
  List.length hashArray = 20%nat ->
  String.length (hex_string hashArray) = 40%nat /\
  String.length (hash_prefix (hex_string hashArray)) = 5%nat /\
  String.length (hash_suffix (hex_string hashArray)) = 35%nat.
Proof.
  intros H.
  assert (H40 : String.length (hex_string hashArray) = 40%nat).
  { unfold hex_string. rewrite toUpperCase_length, join_hex_length. lia. }
  split; [exact H40 |]. split.
  - unfold hash_prefix. apply substring_to_length. lia.
  - unfold hash_suffix. rewrite toUpperCase_length, substring_from_length. lia.
Qed.

(** ** [split] and [parseInt] *)

Lemma split_no_sep (sep : ascii) (s : string) :
  has_char (Ascii.eqb sep) s = false -> JS.split sep s = [s].
Proof.
  unfold has_char.
  induction s as [| c s IH]; [reflexivity |].
  cbn [list_ascii_of_string existsb JS.split].
  intros H. apply orb_false_iff in H. destruct H as [Hc Hs].
  rewrite Ascii.eqb_sym, Hc, (IH Hs). reflexivity.
Qed.

Lemma split_at_sep (sep : ascii) (s1 s2 : string) :
  has_char (Ascii.eqb sep) s1 = false ->
  JS.split sep (s1 ++ String sep s2) = s1 :: JS.split sep s2.
Proof.
  unfold has_char.
  induction s1 as [| c s1 IH].
  - intros _. cbn [append JS.split]. now rewrite Ascii.eqb_refl.
  - cbn [list_ascii_of_string existsb append JS.split].
    intros H. apply orb_false_iff in H. destruct H as [Hc Hs].
    rewrite Ascii.eqb_sym, Hc, (IH Hs). reflexivity.
Qed.

Lemma digit_cases (c : ascii) :
  JS.is_digit c = true ->
  In c ["0"; "1"; "2"; "3"; "4"; "5"; "6"; "7"; "8"; "9"]%char.
Proof.
  destruct c as [[] [] [] [] [] [] [] []]; intros H;
    try discriminate H; simpl; tauto.
Qed.

Lemma digit_value_10 (c : ascii) :
  JS.is_digit c = true ->
  JS.digit_value 10 c = Some (Z.of_nat (JS.code c) - 48) /\
  0 <= Z.of_nat (JS.code c) - 48.
Proof.
  intros H. apply digit_cases in H. simpl in H.
  repeat (destruct H as [<- | H]; [split; [reflexivity | simpl; lia] |]).
  contradiction.
Qed.

(** What follows the count on a line: nothing, or the carriage return of a
    line that ended in CR LF. *)
Lemma read_digits_end (rest : string) (acc : Z) :
  rest = "" \/ rest = String CR "" ->
  JS.read_digits 10 rest acc true = Some acc.
Proof.
  intros [-> | ->]; reflexivity.
Qed.

Lemma read_digits_decimal (ds rest : string) (acc : Z) (seen : bool) :
  all_digits ds = true ->
  rest = "" \/ rest = String CR "" ->
  ds <> "" \/ seen = true ->
  JS.read_digits 10 (ds ++ rest) acc seen =
  Some (fold_left digit_step (list_ascii_of_string ds) acc).
Proof.
  unfold all_digits. intros Hds Hrest. revert acc seen.
  induction ds as [| d ds IH]; intros acc seen Hseen.
  - destruct Hseen as [? | ->]; [congruence |]. now apply read_digits_end.
  - cbn [list_ascii_of_string forallb] in Hds.
    apply andb_true_iff in Hds. destruct Hds as [Hd Hds].
    cbn [append JS.read_digits list_ascii_of_string fold_left].
    destruct (digit_value_10 d Hd) as [-> _].
    apply IH; auto.
Qed.

Lemma decimal_nonneg_from (l : list ascii) (acc : Z) :
  forallb JS.is_digit l = true -> 0 <= acc -> 0 <= fold_left digit_step l acc.
Proof.
  revert acc. induction l as [| d l IH]; intros acc Hl Hacc; [exact Hacc |].
  cbn [forallb] in Hl. apply andb_true_iff in Hl. destruct Hl as [Hd Hl].
  cbn [fold_left]. apply IH; [exact Hl |].
  destruct (digit_value_10 d Hd) as [_ H]. unfold digit_step. lia.
Qed.

Lemma decimal_nonneg (ds : string) : all_digits ds = true -> 0 <= decimal ds.
Proof.
  intros H. apply decimal_nonneg_from; [exact H | lia].
Qed.

(** An integer up to 2^53 is a double; the double of one that is not
    negative is not negative. *)
Lemma to_double_exact (z : Z) : Z.abs z <= 2 ^ 53 -> JS.to_double z = JS.Num z.
Proof.
  intros H. unfold JS.to_double. cbv zeta.
  destruct (Z.leb_spec (Z.abs z) (2 ^ 53)); [reflexivity | lia].
Qed.

Lemma to_double_sign (z : Z) : 0 <= z -> not_negative (JS.to_double z).
Proof.
  intros Hz. unfold JS.to_double. cbv zeta.
  destruct (Z.leb_spec (Z.abs z) (2 ^ 53)) as [Hs | Hs]; [exact Hz |].
  set (e := Z.log2 (Z.abs z) - 52).
  set (q' := if (_ || _)%bool then _ else _).
  assert (Hq : 0 <= q').
  { subst q'. assert (0 <= Z.abs z / 2 ^ e) by (apply Z_div_nonneg_nonneg; [lia | apply Z.pow_nonneg; lia]).
    destruct (_ || _)%bool; lia. }
  assert (Hm : 0 <= q' * 2 ^ e).
  { apply Z.mul_nonneg_nonneg; [exact Hq | apply Z.pow_nonneg; lia]. }
  destruct (2 ^ 1024 <=? q' * 2 ^ e).
  - cbn. destruct (Z.ltb_spec z 0); [lia | reflexivity].
  - cbn. assert (Z.sgn z = 1) as -> by (apply Z.sgn_pos; lia). lia.
Qed.

(** [parseInt] on a count: decimal digits, then the end of the line. *)
Lemma parseInt_count (ds rest : string) :
  ds <> "" ->
  all_digits ds = true ->
  rest = "" \/ rest = String CR "" ->
  JS.parseInt (ds ++ rest) = JS.to_double (decimal ds).
Proof.
  intros Hne Hds Hrest.
  assert (Hread : JS.read_digits 10 (ds ++ rest) 0 false = Some (decimal ds)).
  { apply read_digits_decimal; auto. }
  destruct ds as [| d ds]; [congruence |].
  pose proof Hds as Hall.
  unfold all_digits in Hds. cbn [list_ascii_of_string forallb] in Hds.
  apply andb_true_iff in Hds. destruct Hds as [Hd Hds].
  assert (Hfinish : forall s, JS.read_digits 10 s 0 false = Some (decimal (String d ds)) ->
            match JS.read_digits 10 s 0 false with
            | Some v => JS.to_double (1 * v)
            | None => JS.NaN
            end = JS.to_double (decimal (String d ds))).
  { intros s ->. f_equal. lia. }
  apply digit_cases in Hd. simpl in Hd.
  destruct Hd as [<- | Hd].
  - (* a leading zero: the next character decides the radix *)
    destruct ds as [| d2 ds].
    + destruct Hrest as [-> | ->]; reflexivity.
    + cbn [list_ascii_of_string forallb] in Hds.
      apply andb_true_iff in Hds. destruct Hds as [Hd2 _].
      apply digit_cases in Hd2. simpl in Hd2.
      repeat (destruct Hd2 as [<- | Hd2];
              [unfold JS.parseInt; cbn [append JS.skip_space];
               apply Hfinish; exact Hread |]).
      contradiction.
  - repeat (destruct Hd as [<- | Hd];
            [unfold JS.parseInt; cbn [append JS.skip_space];
             apply Hfinish; exact Hread |]).
    contradiction.
Qed.

(** C9 (as the code has it).  With a digest of 20 bytes the suffix has 35
    characters.  When no line of the text starts with the suffix the
    result is not breached with count 0.  Otherwise the first such line
    gives a breach whose count is [parseInt] of the field after its first
    colon.  When that field is made of decimal digits the count is the
    double nearest to the integer written there: it is not negative, and
    it is that integer when the integer is at most 2^53. *)
Theorem scan_response_counts (suffix data : string) :
  (forall hashArray : list Byte.byte,
     List.length hashArray = 20%nat ->
     String.length (hash_suffix (hex_string hashArray)) = 35%nat) /\
  (JS.find (fun hash => JS.startsWith hash suffix) (JS.split LF data) = None ->
   isBreached (scan_response suffix data) = false /\
   breachCount (scan_response suffix data) = JS.Num 0) /\
  (forall line : string,
     JS.find (fun hash => JS.startsWith hash suffix) (JS.split LF data) = Some line ->
     line <> "" ->
     isBreached (scan_response suffix data) = true /\
     breachCount (scan_response suffix data) = JS.parseInt_at (JS.split ":" line) 1) /\
  (forall ds rest : string,
     JS.find (fun hash => JS.startsWith hash suffix) (JS.split LF data)
       = Some (suffix ++ ":" ++ ds ++ rest) ->
     has_char (Ascii.eqb ":") suffix = false ->
     ds <> "" ->
     all_digits ds = true ->
     rest = "" \/ rest = String CR "" ->
     isBreached (scan_response suffix data) = true /\
     breachCount (scan_response suffix data) = JS.to_double (decimal ds) /\
     not_negative (breachCount (scan_response suffix data)) /\
     0 <= decimal ds /\
     (decimal ds <= 2 ^ 53 ->
      breachCount (scan_response suffix data) = JS.Num (decimal ds))).
Proof.
  split; [intros hashArray H; now apply hash_lengths |].
  split; [| split].
  - intros Hfind. unfold scan_response. now rewrite Hfind.
  - intros line Hfind Hne. unfold scan_response. rewrite Hfind.
    assert (Ht : JS.truthy line = true).
    { unfold JS.truthy. destruct (String.eqb_spec line ""); [contradiction | reflexivity]. }
    rewrite Ht. split; reflexivity.
  - intros ds rest Hfind Hsuffix Hne Hds Hrest.
    pose proof (decimal_nonneg ds Hds) as Hpos.
    assert (Hcount : breachCount (scan_response suffix data) = JS.to_double (decimal ds)).
    { unfold scan_response. rewrite Hfind.
      assert (Ht : JS.truthy (suffix ++ ":" ++ ds ++ rest) = true).
      { destruct suffix; reflexivity. }
      rewrite Ht. cbn [breachCount].
      change (suffix ++ ":" ++ ds ++ rest) with (suffix ++ String ":" (ds ++ rest)).
      rewrite split_at_sep by exact Hsuffix.
      rewrite split_no_sep.
      + unfold JS.parseInt_at. cbn [nth]. now apply parseInt_count.
      + unfold has_char.
        assert (Hno : forall l1 l2,
                  forallb JS.is_digit l1 = true ->
                  existsb (Ascii.eqb ":") l2 = false ->
                  existsb (Ascii.eqb ":") (l1 ++ l2) = false).
        { intros l1 l2 H1 H2. rewrite existsb_app, H2, orb_false_r.
          induction l1 as [| c l1 IH]; [reflexivity |].
          cbn [forallb] in H1. apply andb_true_iff in H1. destruct H1 as [Hc H1].
          cbn [existsb]. rewrite (IH H1), orb_false_r.
          apply digit_cases in Hc. simpl in Hc.
          repeat (destruct Hc as [<- | Hc]; [reflexivity |]). contradiction. }
        assert (Happ : forall s1 s2,
                  list_ascii_of_string (s1 ++ s2) =
                  (list_ascii_of_string s1 ++ list_ascii_of_string s2)%list).
        { induction s1; intros; simpl; congruence. }
        rewrite Happ. apply Hno; [exact Hds |].
        destruct Hrest as [-> | ->]; reflexivity. }
    split.
    { unfold scan_response. rewrite Hfind.
      assert (Ht : JS.truthy (suffix ++ ":" ++ ds ++ rest) = true).
      { destruct suffix; reflexivity. }
      rewrite Ht. reflexivity. }
    split; [exact Hcount |].
    split; [rewrite Hcount; now apply to_double_sign |].
    split; [exact Hpos |].
    intros Hbound. rewrite Hcount. apply to_double_exact. lia.
Qed.

Lemma scan_response_witness :
  let data :=
    "0018A45C4D1DEF81644B54AB7F969B88D65:3" ++ String CR (String LF
      (suffix_of_password ++ ":9545824" ++ String CR "")) in
  isBreached (scan_response suffix_of_password data) = true /\
  breachCount (scan_response suffix_of_password data) = JS.Num 9545824 /\
  isBreached (scan_response suffix_of_password "0018A45C4D1DEF81644B54AB7F969B88D65:3") = false /\
  breachCount (scan_response suffix_of_password "0018A45C4D1DEF81644B54AB7F969B88D65:3") = JS.Num 0.
Proof.
  intros data.
  destruct (scan_response_counts suffix_of_password data) as (_ & _ & _ & H).
  destruct (H "9545824" (String CR "")) as (Hb & _ & _ & _ & Hc);
    [reflexivity | reflexivity | discriminate | reflexivity | right; reflexivity |].
  assert (Hc' := Hc ltac:(vm_compute; discriminate)).
  destruct (scan_response_counts suffix_of_password
              "0018A45C4D1DEF81644B54AB7F969B88D65:3") as (_ & H0 & _).
  destruct (H0 eq_refl) as [Hb0 Hc0].
  repeat split; assumption.
Defined.

(** A line that holds the suffix and a negative number gives a negative
    count; a line that holds the suffix and no number gives a count that is
    not a number; a count above 2^53 is rounded, here from
    9007199254740993 to 9007199254740992. *)
Lemma negative_count_counterexample :
  (exists r,
     outcome (checkPasswordBreach
                (world_range (range_text (suffix_of_password ++ ":-3"))) "password") = Ok r /\
     isBreached r = true /\ breachCount r = JS.Num (-3) /\ -3 < 0) /\
  breachCount (scan_response suffix_of_password (suffix_of_password ++ ":n/a")) = JS.NaN /\
  breachCount (scan_response suffix_of_password
                 (suffix_of_password ++ ":9007199254740993"))
  = JS.Num 9007199254740992.
Proof.
  split; [| split; vm_compute; reflexivity].
  eexists. split; [vm_compute; reflexivity |]. repeat split.
Qed.

(** ** The stages of [scanUrl] *)

Ltac unfold_stage :=
  cbv [stage_basic stage_google stage_ipqs stage_vt
       checkWithGoogle checkDomainReputation checkWithVirusTotal extractDomain
       bind try_catch lift request ret throw outcome trace fst snd andb orb
       isMalicious isPhishing vtMalicious].

(** Case analysis on what the world answers and on the tests of a stage,
    from the outside in. *)
Ltac split_cases :=
  repeat match goal with
         | |- context [match ?x with _ => _ end] =>
             lazymatch x with
             | env_google_key _ => idtac
             | env_ipqs_key _ => idtac
             | env_vt_key _ => idtac
             | url_hostname _ _ => idtac
             | fetch_threat_matches _ _ _ => idtac
             | fetch_domain_reputation _ _ _ => idtac
             | fetch_multi_engine _ _ _ => idtac
             | JS.truthy _ => idtac
             | safe _ => idtac
             | Level_eqb _ _ => idtac
             | malicious _ => idtac
             | phishing _ => idtac
             | (_ >? _) => idtac
             end;
             destruct x eqn:?; cbv beta iota zeta
         end.

Lemma stage_basic_outcome (url : string) (results : ScanResult) :
  stage_basic url results =
  ([], Ok (if basicSafe (basicUrlAnalysis url) then results
           else assign_basic results (basicUrlAnalysis url))).
Proof.
  unfold stage_basic. destruct (basicSafe (basicUrlAnalysis url)); reflexivity.
Qed.

Lemma basic_safe_no_threats (url : string) :
  basicSafe (basicUrlAnalysis url) = true ->
  basicThreatTypes (basicUrlAnalysis url) = [].
Proof.
  destruct (basic_verdict url) as [Hsafe _]. rewrite Hsafe.
  change (basicThreatTypes (basicUrlAnalysis url)) with (basic_threats url).
  destruct (basic_threats url); [reflexivity | discriminate].
Qed.

Lemma basic_high_unsafe (url : string) :
  basicRiskLevel (basicUrlAnalysis url) = high ->
  basicSafe (basicUrlAnalysis url) = false.
Proof.
  destruct (basic_verdict url) as [Hsafe Hlevel]. rewrite Hsafe, Hlevel.
  destruct (basic_threats url) as [| t [| t' [| t'' ts]]];
    simpl; (reflexivity || discriminate).
Qed.

(** The threat-match stage keeps a locked verdict, and leaves [threatTypes]
    as it was or replaces it by the labels of the service. *)
Lemma stage_google_step (W : World) (url : string) (results r' : ScanResult) :
  outcome (stage_google W url results) = Ok r' ->
  (locked results -> locked r') /\
  match google_labels W url with
  | Some labels => threatTypes r' = labels /\ locked r'
  | None => r' = results
  end.
Proof.
  unfold google_labels. unfold_stage.
  destruct (env_google_key W) as [key | e]; [| discriminate].
  destruct (JS.truthy key); [| intros [= <-]; auto].
  destruct (fetch_threat_matches W (normalizeUrl url) key) as [[[[| m ms] |]] | e];
    cbv beta iota zeta; intros [= <-]; auto.
  split; [intros _ |]; repeat split.
Qed.

(** The reputation stage keeps a locked verdict and [threatTypes]. *)
Lemma stage_ipqs_step (W : World) (url : string) (results r' : ScanResult) :
  outcome (stage_ipqs W url results) = Ok r' ->
  (locked results -> locked r') /\ threatTypes r' = threatTypes results.
Proof.
  unfold locked. unfold_stage. split_cases; intros [= <-]; cbn; intuition congruence.
Qed.

(** The multi-engine stage keeps a locked verdict and [threatTypes]. *)
Lemma stage_vt_step (W : World) (url : string) (results r' : ScanResult) :
  outcome (stage_vt W url results) = Ok r' ->
  (locked results -> locked r') /\ threatTypes r' = threatTypes results.
Proof.
  unfold locked. unfold_stage. split_cases; intros [= <-]; cbn; intuition congruence.
Qed.

Lemma finalize_step (results : ScanResult) :
  (locked results -> locked (finalize results)) /\
  threatTypes (finalize results) = threatTypes results.
Proof.
  unfold locked. cbn. tauto.
Qed.

(** The [try] block returns when its four stages do, one after the other. *)
Lemma scanUrl_try_stages (W : World) (url : string) (r : ScanResult) :
  outcome (scanUrl_try W url) = Ok r <->
  exists r1 r2 r3 r4,
    outcome (stage_basic url initial_results) = Ok r1 /\
    outcome (stage_google W url r1) = Ok r2 /\
    outcome (stage_ipqs W url r2) = Ok r3 /\
    outcome (stage_vt W url r3) = Ok r4 /\
    r = finalize r4.
Proof.
  unfold scanUrl_try. rewrite outcome_bind. split.
  - destruct (outcome (stage_basic url initial_results)) as [r1 | e] eqn:H1;
      [| discriminate].
    rewrite outcome_bind.
    destruct (outcome (stage_google W url r1)) as [r2 | e] eqn:H2; [| discriminate].
    rewrite outcome_bind.
    destruct (outcome (stage_ipqs W url r2)) as [r3 | e] eqn:H3; [| discriminate].
    rewrite outcome_bind.
    destruct (outcome (stage_vt W url r3)) as [r4 | e] eqn:H4; [| discriminate].
    intros [= <-]. exists r1, r2, r3, r4. auto.
  - intros (r1 & r2 & r3 & r4 & H1 & H2 & H3 & H4 & ->).
    rewrite H1, outcome_bind, H2, outcome_bind, H3, outcome_bind, H4. reflexivity.
Qed.

Lemma after_google_stages (W : World) (url : string) (r2 : ScanResult) :
  outcome (after_google W url) = Ok r2 <->
  exists r1,
    outcome (stage_basic url initial_results) = Ok r1 /\
    outcome (stage_google W url r1) = Ok r2.
Proof.
  unfold after_google. rewrite outcome_bind. split.
  - destruct (outcome (stage_basic url initial_results)) as [r1 | e]; [| discriminate].
    intros H. exists r1. auto.
  - intros (r1 & H1 & H2). now rewrite H1.
Qed.

Lemma after_ipqs_stages (W : World) (url : string) (r3 : ScanResult) :
  outcome (after_ipqs W url) = Ok r3 <->
  exists r2,
    outcome (after_google W url) = Ok r2 /\
    outcome (stage_ipqs W url r2) = Ok r3.
Proof.
  unfold after_ipqs. rewrite outcome_bind. split.
  - destruct (outcome (after_google W url)) as [r2 | e]; [| discriminate].
    intros H. exists r2. auto.
  - intros (r2 & H1 & H2). now rewrite H1.
Qed.

Lemma scanUrl_outcome (W : World) (url : string) :
  outcome (scanUrl W url) =
  Ok match outcome (scanUrl_try W url) with
     | Ok r => r
     | Throw _ => scan_failed
     end.
Proof.
  unfold scanUrl. rewrite outcome_try_catch.
  destruct (outcome (scanUrl_try W url)); reflexivity.
Qed.

Lemma scan_failed_locked : locked scan_failed.
Proof.
  split; reflexivity.
Qed.

(** ** [scanUrl] *)

Lemma threatTypes_after_basic (url : string) (r1 : ScanResult) :
  outcome (stage_basic url initial_results) = Ok r1 ->
  threatTypes r1 = basicThreatTypes (basicUrlAnalysis url) /\
  (basicRiskLevel (basicUrlAnalysis url) = high -> locked r1).
Proof.
  rewrite stage_basic_outcome. unfold outcome. cbn [snd].
  destruct (basicSafe (basicUrlAnalysis url)) eqn:Hsafe; intros [= <-].
  - split.
    + rewrite basic_safe_no_threats by exact Hsafe. reflexivity.
    + intros Hhigh. apply basic_high_unsafe in Hhigh. congruence.
  - split; [reflexivity |]. intros Hhigh. split; [exact Hsafe | exact Hhigh].
Qed.

Lemma threatTypes_at_end (W : World) (url : string) (r : ScanResult) :
  outcome (scanUrl_try W url) = Ok r ->
  threatTypes r =
  match google_labels W url with
  | Some labels => labels
  | None => basicThreatTypes (basicUrlAnalysis url)
  end.
Proof.
  intros H. apply scanUrl_try_stages in H.
  destruct H as (r1 & r2 & r3 & r4 & H1 & H2 & H3 & H4 & ->).
  apply threatTypes_after_basic in H1. destruct H1 as [H1 _].
  apply stage_google_step in H2. destruct H2 as [_ H2].
  apply stage_ipqs_step in H3. destruct H3 as [_ H3].
  apply stage_vt_step in H4. destruct H4 as [_ H4].
  destruct (finalize_step r4) as [_ H5].
  rewrite H5, H4, H3.
  destruct (google_labels W url) as [labels |].
  - apply H2.
  - now rewrite H2.
Qed.

(** A verdict locked after any stage is locked at the end. *)
Lemma locked_to_the_end (W : World) (url : string) (r : ScanResult) :
  outcome (scanUrl W url) = Ok r ->
  (forall r1, outcome (stage_basic url initial_results) = Ok r1 -> locked r1 -> locked r) /\
  (forall r2, outcome (after_google W url) = Ok r2 -> locked r2 -> locked r) /\
  (forall r3, outcome (after_ipqs W url) = Ok r3 -> locked r3 -> locked r).
Proof.
  rewrite scanUrl_outcome.
  destruct (outcome (scanUrl_try W url)) as [r0 | e] eqn:Htry; intros [= <-].
  2: { repeat split; intros; apply scan_failed_locked. }
  apply scanUrl_try_stages in Htry.
  destruct Htry as (r1 & r2 & r3 & r4 & H1 & H2 & H3 & H4 & ->).
  assert (L4 : locked r3 -> locked (finalize r4)).
  { intros L. apply finalize_step. eapply stage_vt_step; eassumption. }
  assert (L3 : locked r2 -> locked (finalize r4)).
  { intros L. apply L4. eapply stage_ipqs_step; eassumption. }
  assert (L2 : locked r1 -> locked (finalize r4)).
  { intros L. apply L3. eapply stage_google_step; eassumption. }
  split; [| split].
  - intros r1' H1' L. rewrite H1 in H1'. injection H1' as <-. auto.
  - intros r2' H2' L. apply after_google_stages in H2'.
    destruct H2' as (r1' & H1' & H2').
    rewrite H1 in H1'. injection H1' as <-.
    rewrite H2 in H2'. injection H2' as <-. auto.
  - intros r3' H3' L. apply after_ipqs_stages in H3'.
    destruct H3' as (r2' & H2' & H3').
    apply after_google_stages in H2'. destruct H2' as (r1' & H1' & H2').
    rewrite H1 in H1'. injection H1' as <-.
    rewrite H2 in H2'. injection H2' as <-.
    rewrite H3 in H3'. injection H3' as <-. auto.
Qed.

(** C1 (as the code has it).  A verdict that is unsafe and high is kept
    unsafe and high by every later stage and by the finalisation, so it is
    the verdict returned.  The list of threats is not a union: the
    threat-match stage replaces it by the labels of the service when there
    is a match, the reputation stage, the multi-engine stage and the
    finalisation leave it as it is.  At the end it is the labels of the
    threat match when there are some, the threats of the local analysis
    otherwise, and the single entry of the fallback when the block
    failed. *)
Theorem verdict_kept_threats_replaced (W : World) (url : string) :
  (forall results r',
     outcome (stage_google W url results) = Ok r' ->
     (locked results -> locked r') /\
     (threatTypes r' = threatTypes results \/
      google_labels W url = Some (threatTypes r'))) /\
  (forall results r',
     outcome (stage_ipqs W url results) = Ok r' ->
     (locked results -> locked r') /\ threatTypes r' = threatTypes results) /\
  (forall results r',
     outcome (stage_vt W url results) = Ok r' ->
     (locked results -> locked r') /\ threatTypes r' = threatTypes results) /\
  (forall results,
     (locked results -> locked (finalize results)) /\
     threatTypes (finalize results) = threatTypes results) /\
  exists r,
    outcome (scanUrl W url) = Ok r /\
    (forall e, outcome (scanUrl_try W url) = Throw e ->
               threatTypes r = ["Scan failed"]) /\
    (forall r0, outcome (scanUrl_try W url) = Ok r0 ->
                threatTypes r =
                match google_labels W url with
                | Some labels => labels
                | None => basicThreatTypes (basicUrlAnalysis url)
                end) /\
    (basicRiskLevel (basicUrlAnalysis url) = high -> locked r) /\
    (forall r2, outcome (after_google W url) = Ok r2 -> locked r2 -> locked r) /\
    (forall r3, outcome (after_ipqs W url) = Ok r3 -> locked r3 -> locked r).
Proof.
  split; [| split; [| split; [| split]]].
  - intros results r' H. apply stage_google_step in H. destruct H as [HL H].
    split; [exact HL |].
    destruct (google_labels W url) as [labels |].
    + right. destruct H as [-> _]. reflexivity.
    + left. now rewrite H.
  - intros results r'. apply stage_ipqs_step.
  - intros results r'. apply stage_vt_step.
  - apply finalize_step.
  - eexists. split; [apply scanUrl_outcome |].
    destruct (locked_to_the_end W url _ (scanUrl_outcome W url)) as (L1 & L2 & L3).
    split; [| split; [| split; [| split]]].
    + intros e He. rewrite He. reflexivity.
    + intros r0 H0. rewrite H0. now apply threatTypes_at_end.
    + intros Hhigh.
      apply (L1 _ (f_equal snd (stage_basic_outcome url initial_results))).
      eapply threatTypes_after_basic; [| exact Hhigh].
      now rewrite stage_basic_outcome.
    + exact L2.
    + exact L3.
Qed.

Lemma verdict_kept_witness :
  exists r,
    outcome (scanUrl world_malware "http://example.com") = Ok r /\
    threatTypes r = ["MALWARE"] /\
    locked r.
Proof.
  destruct (verdict_kept_threats_replaced world_malware "http://example.com")
    as (_ & _ & _ & _ & r & Hr & _ & Hthreats & _ & Hlocked & _).
  exists r. split; [exact Hr |]. split.
  - apply (Hthreats
             {| safe := false; riskLevel := high; threatTypes := ["MALWARE"];
                googleSafe := false; domainReputation := high; riskScore := 0;
                details := "⚠️ MALWARE" |}).
    vm_compute. reflexivity.
  - apply (Hlocked
             {| safe := false; riskLevel := high; threatTypes := ["MALWARE"];
                googleSafe := false; domainReputation := high; riskScore := 0;
                details := "Google Safe Browsing: MALWARE detected" |}).
    + vm_compute. reflexivity.
    + split; reflexivity.
Defined.

(** The local analysis records that [http://example.com] does not use
    HTTPS; the threat-match stage then reports malware, and the entry of the
    local analysis is gone from the final list. *)
Lemma threat_erased_counterexample :
  exists r,
    outcome (scanUrl world_malware "http://example.com") = Ok r /\
    In msg_no_https (basicThreatTypes (basicUrlAnalysis "http://example.com")) /\
    ~ In msg_no_https (threatTypes r).
Proof.
  eexists. split; [vm_compute; reflexivity |]. split.
  - vm_compute. tauto.
  - simpl. intros [H | []]. discriminate H.
Qed.

(** A stage fails only when its key getter does: the failure of a service
    stays inside its stage. *)
Lemma stage_google_throws (W : World) (url : string) (results : ScanResult) (e : string) :
  outcome (stage_google W url results) = Throw e -> env_google_key W = Throw e.
Proof.
  unfold_stage. split_cases; try congruence.
  all: destruct (matches _) as [[| ? ?] |]; cbn; congruence.
Qed.

Lemma stage_ipqs_throws (W : World) (url : string) (results : ScanResult) (e : string) :
  outcome (stage_ipqs W url results) = Throw e -> env_ipqs_key W = Throw e.
Proof.
  unfold_stage. split_cases; congruence.
Qed.

Lemma stage_vt_throws (W : World) (url : string) (results : ScanResult) (e : string) :
  outcome (stage_vt W url results) = Throw e -> env_vt_key W = Throw e.
Proof.
  unfold_stage. split_cases; congruence.
Qed.

Lemma scanUrl_try_throws (W : World) (url : string) (e : string) :
  outcome (scanUrl_try W url) = Throw e ->
  env_google_key W = Throw e \/ env_ipqs_key W = Throw e \/ env_vt_key W = Throw e.
Proof.
  unfold scanUrl_try. rewrite outcome_bind, stage_basic_outcome.
  unfold outcome at 1. cbn [snd].
  set (r1 := if basicSafe (basicUrlAnalysis url) then _ else _). clearbody r1.
  rewrite outcome_bind.
  destruct (outcome (stage_google W url r1)) as [r2 | e2] eqn:H2.
  2: { intros [= <-]. left. eapply stage_google_throws; eassumption. }
  rewrite outcome_bind.
  destruct (outcome (stage_ipqs W url r2)) as [r3 | e3] eqn:H3.
  2: { intros [= <-]. right. left. eapply stage_ipqs_throws; eassumption. }
  rewrite outcome_bind.
  destruct (outcome (stage_vt W url r3)) as [r4 | e4] eqn:H4.
  - discriminate.
  - intros [= <-]. right. right. eapply stage_vt_throws; eassumption.
Qed.

(** C7.  [scanUrl] returns a complete assessment for every input and every
    behaviour of the services.  When its block fails, the assessment is the
    fallback: unsafe, high, risk score 100, and the single threat
    "Scan failed" (the literal of the code, "scan failed" up to the case of
    its first letter).  The block fails only through a key getter; the
    failure of a service never reaches it. *)
Theorem scanUrl_never_throws (W : World) (url : string) :
  exists r : ScanResult,
    outcome (scanUrl W url) = Ok r /\
    (forall e, outcome (scanUrl_try W url) = Throw e ->
       r = scan_failed /\
       safe r = false /\ riskLevel r = high /\ riskScore r = 100 /\
       threatTypes r = ["Scan failed"] /\
       map JS.toLowerCase (threatTypes r) = ["scan failed"] /\
       (env_google_key W = Throw e \/ env_ipqs_key W = Throw e \/
        env_vt_key W = Throw e)) /\
    (forall r0, outcome (scanUrl_try W url) = Ok r0 -> r = r0).
Proof.
  eexists. split; [apply scanUrl_outcome |]. split.
  - intros e He. rewrite He. repeat split. exact (scanUrl_try_throws W url e He).
  - intros r0 H0. now rewrite H0.
Qed.

Lemma scanUrl_never_throws_witness :
  outcome (scanUrl world_no_config "https://example.com") = Ok scan_failed /\
  outcome (scanUrl world_offline "https://example.com") =
    Ok (finalize initial_results).
Proof.
  split.
  - destruct (scanUrl_never_throws world_no_config "https://example.com")
      as (r & Hr & Hfail & _).
    rewrite Hr. f_equal.
    apply (Hfail "Cannot read properties of undefined"). reflexivity.
  - destruct (scanUrl_never_throws world_offline "https://example.com")
      as (r & Hr & _ & Hok).
    rewrite Hr. f_equal.
    apply (Hok (finalize initial_results)). vm_compute. reflexivity.
Defined.

(** ** The reputation stage *)

Lemma checkDomainReputation_outcome (W : World) (domain apiKey : string)
  (data : IpqsData) :
  fetch_domain_reputation W domain apiKey = Ok data ->
  exists r,
    outcome (checkDomainReputation W domain apiKey) = Ok r /\
    reputation r = reputation_of (risk_score data) /\
    ipqsRiskScore r = or_zero (risk_score data) /\
    isMalicious r = malicious data /\
    isPhishing r = phishing data.
Proof.
  intros H. unfold checkDomainReputation, request, bind, ret, outcome.
  rewrite H. cbn. eexists. split; [reflexivity |]. repeat split.
Qed.

Lemma reputation_of_score (z : Z) :
  (75 < z -> reputation_of (Some z) = low) /\
  (25 < z <= 75 -> reputation_of (Some z) = medium) /\
  (z <= 25 -> reputation_of (Some z) = high).
Proof.
  unfold reputation_of, gt_num.
  destruct (Z.gtb_spec z 75); destruct (Z.gtb_spec z 25);
    repeat split; intros; (reflexivity || lia).
Qed.

Lemma extractDomain_returns (W : World) (url : string) :
  extractDomain W url =
  ([], Ok match url_hostname W (normalizeUrl url) with
          | Ok hostname => hostname
          | Throw _ => url
          end).
Proof.
  unfold extractDomain, try_catch, lift, ret.
  destruct (url_hostname W (normalizeUrl url)); reflexivity.
Qed.

(** The reputation stage, when it runs and the service answers. *)
Lemma stage_ipqs_records (W : World) (url : string) (results : ScanResult)
  (key domain : string) (ipqs : IpqsResult) :
  env_ipqs_key W = Ok key ->
  JS.truthy key = true ->
  safe results = true ->
  outcome (extractDomain W url) = Ok domain ->
  outcome (checkDomainReputation W domain key) = Ok ipqs ->
  exists r',
    outcome (stage_ipqs W url results) = Ok r' /\
    domainReputation r' = reputation ipqs /\
    riskScore r' = ipqsRiskScore ipqs /\
    threatTypes r' = threatTypes results /\
    ((isMalicious ipqs || isPhishing ipqs)%bool = true -> locked r') /\
    ((isMalicious ipqs || isPhishing ipqs)%bool = false ->
     safe r' = safe results /\ riskLevel r' = riskLevel results).
Proof.
  intros Hkey Htruthy Hsafe Hdom Hrep.
  unfold stage_ipqs. rewrite outcome_bind. unfold lift, outcome at 1. cbn [snd].
  rewrite Hkey, Htruthy, Hsafe. cbn [andb].
  rewrite outcome_try_catch, outcome_bind, Hdom, outcome_bind, Hrep.
  cbn [outcome ret snd]. eexists. split; [reflexivity |].
  cbn. unfold locked. cbn.
  destruct (isMalicious ipqs || isPhishing ipqs)%bool; repeat split; congruence.
Qed.

Lemma stage_vt_keeps (W : World) (url : string) (results r' : ScanResult) :
  outcome (stage_vt W url results) = Ok r' ->
  domainReputation r' = domainReputation results /\
  riskScore r' = riskScore results.
Proof.
  unfold_stage. split_cases; intros [= <-]; cbn; auto.
Qed.

Lemma stage_vt_returns (W : World) (url : string) (results : ScanResult) (key : string) :
  env_vt_key W = Ok key ->
  exists r', outcome (stage_vt W url results) = Ok r'.
Proof.
  intros H. unfold stage_vt. rewrite outcome_bind. unfold lift, outcome at 1.
  cbn [snd]. rewrite H.
  destruct (JS.truthy key && Level_eqb (riskLevel results) high)%bool.
  - apply try_catch_returns.
  - eexists. reflexivity.
Qed.

(** C6.  The reputation label is low for a risk score above 75, medium for
    one above 25 and up to 75, high for one up to 25 (and for a response
    without a score).  When the reputation stage runs in [scanUrl] and the
    service answers, [domainReputation] and [riskScore] are those of the
    answer, and a malicious or phishing flag makes the verdict unsafe and
    high; this is what [scanUrl] returns. *)
Theorem domain_reputation_recorded (W : World) :
  (forall (domain apiKey : string) (data : IpqsData),
     fetch_domain_reputation W domain apiKey = Ok data ->
     exists r,
       outcome (checkDomainReputation W domain apiKey) = Ok r /\
       (forall z, risk_score data = Some z ->
          (75 < z -> reputation r = low) /\
          (25 < z <= 75 -> reputation r = medium) /\
          (z <= 25 -> reputation r = high)) /\
       (risk_score data = None -> reputation r = high) /\
       ipqsRiskScore r = or_zero (risk_score data) /\
       isMalicious r = malicious data /\
       isPhishing r = phishing data) /\
  (forall (url : string) (results : ScanResult) (key domain : string)
          (ipqs : IpqsResult),
     env_ipqs_key W = Ok key ->
     JS.truthy key = true ->
     safe results = true ->
     outcome (extractDomain W url) = Ok domain ->
     outcome (checkDomainReputation W domain key) = Ok ipqs ->
     exists r',
       outcome (stage_ipqs W url results) = Ok r' /\
       domainReputation r' = reputation ipqs /\
       riskScore r' = ipqsRiskScore ipqs /\
       ((isMalicious ipqs || isPhishing ipqs)%bool = true ->
        safe r' = false /\ riskLevel r' = high)) /\
  (forall (url : string) (r2 : ScanResult) (key domain vtKey : string)
          (ipqs : IpqsResult),
     outcome (after_google W url) = Ok r2 ->
     safe r2 = true ->
     env_ipqs_key W = Ok key ->
     JS.truthy key = true ->
     outcome (extractDomain W url) = Ok domain ->
     outcome (checkDomainReputation W domain key) = Ok ipqs ->
     env_vt_key W = Ok vtKey ->
     exists r,
       outcome (scanUrl W url) = Ok r /\
       domainReputation r = reputation ipqs /\
       riskScore r = ipqsRiskScore ipqs /\
       ((isMalicious ipqs || isPhishing ipqs)%bool = true ->
        safe r = false /\ riskLevel r = high)).
Proof.
  split; [| split].
  - intros domain apiKey data H.
    destruct (checkDomainReputation_outcome W domain apiKey data H)
      as (r & Hr & Hrep & Hscore & Hm & Hp).
    exists r. split; [exact Hr |]. rewrite Hrep.
    split; [| split; [| auto]].
    + intros z ->. apply reputation_of_score.
    + intros ->. reflexivity.
  - intros url results key domain ipqs Hkey Ht Hsafe Hdom Hrep.
    destruct (stage_ipqs_records W url results key domain ipqs Hkey Ht Hsafe Hdom Hrep)
      as (r' & Hr' & Hd & Hs & _ & Hflag & _).
    exists r'. auto.
  - intros url r2 key domain vtKey ipqs H2 Hsafe Hkey Ht Hdom Hrep Hvt.
    destruct (stage_ipqs_records W url r2 key domain ipqs Hkey Ht Hsafe Hdom Hrep)
      as (r3 & H3 & Hd & Hs & _ & Hflag & _).
    destruct (stage_vt_returns W url r3 vtKey Hvt) as [r4 H4].
    apply after_google_stages in H2. destruct H2 as (r1 & H1 & H2).
    assert (Htry : outcome (scanUrl_try W url) = Ok (finalize r4)).
    { apply scanUrl_try_stages. exists r1, r2, r3, r4. auto. }
    exists (finalize r4). split; [rewrite scanUrl_outcome, Htry; reflexivity |].
    destruct (stage_vt_keeps W url r3 r4 H4) as [Hd4 Hs4].
    cbn [finalize domainReputation riskScore safe riskLevel].
    rewrite Hd4, Hs4. split; [exact Hd |]. split; [exact Hs |].
    intros Hf. specialize (Hflag Hf).
    apply (stage_vt_step W url r3 r4 H4). exact Hflag.
Qed.

Lemma domain_reputation_witness :
  exists r,
    outcome (scanUrl world_phishing "https://example.com") = Ok r /\
    domainReputation r = low /\
    riskScore r = 88 /\
    safe r = false /\ riskLevel r = high.
Proof.
  destruct (domain_reputation_recorded world_phishing) as (_ & _ & H).
  destruct (H "https://example.com" initial_results "i-key" "example.com" ""
              {| reputation := low; ipqsRiskScore := 88; isMalicious := false;
                 isPhishing := true; isSuspicious := true;
                 ipqsDetails := "Risk score: 88/100" |})
    as (r & Hr & Hd & Hs & Hflag);
    try (vm_compute; reflexivity).
  exists r. split; [exact Hr |]. split; [exact Hd |]. split; [exact Hs |].
  apply Hflag. reflexivity.
Defined.

(** ** Which stages make a request *)

Lemma Level_eqb_high (l : Level) : Level_eqb l high = true <-> l = high.
Proof.
  destruct l; simpl; split; congruence.
Qed.

(** The threat-match stage makes threat-match requests only. *)
Lemma stage_google_trace (W : World) (url : string) (results : ScanResult)
  (rq : Request) :
  In rq (trace (stage_google W url results)) ->
  exists u key, rq = ThreatMatch u key.
Proof.
  unfold_stage. split_cases; cbn; try tauto.
  all: try (destruct (matches _) as [[| ? ?] |]; cbn).
  all: intros [<- | []]; eauto.
Qed.

(** The reputation stage makes a request only with a configured key and
    on a verdict that is still safe. *)
Lemma stage_ipqs_trace (W : World) (url : string) (results : ScanResult)
  (rq : Request) :
  In rq (trace (stage_ipqs W url results)) ->
  (exists domain key,
     rq = DomainReputation domain key /\
     env_ipqs_key W = Ok key /\ JS.truthy key = true) /\
  safe results = true.
Proof.
  unfold_stage. split_cases; cbn; try tauto.
  all: intros [<- | []]; split; eauto.
Qed.

(** The multi-engine stage makes a request only with a configured key and
    on a risk level that is already high. *)
Lemma stage_vt_trace (W : World) (url : string) (results : ScanResult)
  (rq : Request) :
  In rq (trace (stage_vt W url results)) ->
  (exists id key,
     rq = MultiEngine id key /\
     env_vt_key W = Ok key /\ JS.truthy key = true) /\
  riskLevel results = high.
Proof.
  unfold_stage. split_cases; cbn; try tauto.
  all: intros [<- | []]; split; eauto; now apply Level_eqb_high.
Qed.

(** A stage whose condition fails makes no request and changes nothing. *)
Lemma stage_ipqs_skipped (W : World) (url : string) (results : ScanResult)
  (key : string) :
  env_ipqs_key W = Ok key ->
  (JS.truthy key && safe results)%bool = false ->
  stage_ipqs W url results = ([], Ok results).
Proof.
  intros Hkey Hcond. unfold stage_ipqs, bind, lift, ret.
  now rewrite Hkey, Hcond.
Qed.

Lemma stage_vt_skipped (W : World) (url : string) (results : ScanResult)
  (key : string) :
  env_vt_key W = Ok key ->
  (JS.truthy key && Level_eqb (riskLevel results) high)%bool = false ->
  stage_vt W url results = ([], Ok results).
Proof.
  intros Hkey Hcond. unfold stage_vt, bind, lift, ret.
  now rewrite Hkey, Hcond.
Qed.

(** A request of [scanUrl] is a request of one of its stages, made on the
    state the stages before it left. *)
Lemma scanUrl_trace (W : World) (url : string) (rq : Request) :
  In rq (trace (scanUrl W url)) ->
  (exists r1,
     outcome (stage_basic url initial_results) = Ok r1 /\
     In rq (trace (stage_google W url r1))) \/
  (exists r2,
     outcome (after_google W url) = Ok r2 /\
     In rq (trace (stage_ipqs W url r2))) \/
  (exists r3,
     outcome (after_ipqs W url) = Ok r3 /\
     In rq (trace (stage_vt W url r3))).
Proof.
  unfold scanUrl. rewrite trace_try_catch.
  assert (Hnil : match outcome (scanUrl_try W url) with
                 | Ok _ => []
                 | Throw e => trace (ret (A := ScanResult) scan_failed)
                 end = []) by (destruct (outcome (scanUrl_try W url)); reflexivity).
  rewrite Hnil, app_nil_r. clear Hnil.
  assert (Hag : outcome (after_google W url) =
                outcome (stage_google W url
                           (if basicSafe (basicUrlAnalysis url) then initial_results
                            else assign_basic initial_results (basicUrlAnalysis url)))).
  { unfold after_google. rewrite outcome_bind, stage_basic_outcome. reflexivity. }
  assert (Hai : outcome (after_ipqs W url) =
                match outcome (after_google W url) with
                | Ok r2 => outcome (stage_ipqs W url r2)
                | Throw e => Throw e
                end).
  { unfold after_ipqs. now rewrite outcome_bind. }
  rewrite Hai, Hag. clear Hai Hag.
  unfold scanUrl_try.
  rewrite trace_bind, stage_basic_outcome.
  set (r1 := if basicSafe (basicUrlAnalysis url) then _ else _).
  unfold trace at 1, outcome at 1. cbn [fst snd app].
  rewrite trace_bind.
  intros H. apply in_app_or in H. destruct H as [H | H].
  { left. exists r1. split; [reflexivity | exact H]. }
  right.
  destruct (outcome (stage_google W url r1)) as [r2 | e2]; [| contradiction].
  rewrite trace_bind in H. apply in_app_or in H. destruct H as [H | H].
  { left. exists r2. split; [reflexivity | exact H]. }
  right.
  destruct (outcome (stage_ipqs W url r2)) as [r3 | e3]; [| contradiction].
  rewrite trace_bind in H. apply in_app_or in H. destruct H as [H | H].
  - exists r3. split; [reflexivity | exact H].
  - destruct (outcome (stage_vt W url r3)); contradiction.
Qed.

(** C5.  The reputation stage makes its request only when its key is
    configured and the verdict is still safe after the threat-match stage;
    the multi-engine stage makes its request only when its key is
    configured and the risk level is already high.  A stage whose condition
    fails makes no request and returns the assessment it was given. *)
Theorem stages_run_under_their_conditions (W : World) (url : string) :
  (forall domain key,
     In (DomainReputation domain key) (trace (scanUrl W url)) ->
     env_ipqs_key W = Ok key /\ JS.truthy key = true /\
     exists r2, outcome (after_google W url) = Ok r2 /\ safe r2 = true) /\
  (forall id key,
     In (MultiEngine id key) (trace (scanUrl W url)) ->
     env_vt_key W = Ok key /\ JS.truthy key = true /\
     exists r3, outcome (after_ipqs W url) = Ok r3 /\ riskLevel r3 = high) /\
  (forall results key,
     env_ipqs_key W = Ok key ->
     (JS.truthy key && safe results)%bool = false ->
     trace (stage_ipqs W url results) = [] /\
     outcome (stage_ipqs W url results) = Ok results) /\
  (forall results key,
     env_vt_key W = Ok key ->
     (JS.truthy key && Level_eqb (riskLevel results) high)%bool = false ->
     trace (stage_vt W url results) = [] /\
     outcome (stage_vt W url results) = Ok results).
Proof.
  split; [| split; [| split]].
  - intros domain key H. apply scanUrl_trace in H.
    destruct H as [(r1 & _ & H) | [(r2 & H2 & H) | (r3 & _ & H)]].
    + apply stage_google_trace in H. destruct H as (u & k & H). discriminate H.
    + apply stage_ipqs_trace in H.
      destruct H as [(d & k & [= <- <-] & Hkey & Ht) Hsafe]. eauto.
    + apply stage_vt_trace in H.
      destruct H as [(i & k & H & _) _]. discriminate H.
  - intros id key H. apply scanUrl_trace in H.
    destruct H as [(r1 & _ & H) | [(r2 & _ & H) | (r3 & H3 & H)]].
    + apply stage_google_trace in H. destruct H as (u & k & H). discriminate H.
    + apply stage_ipqs_trace in H.
      destruct H as [(d & k & H & _) _]. discriminate H.
    + apply stage_vt_trace in H.
      destruct H as [(i & k & [= <- <-] & Hkey & Ht) Hhigh]. eauto.
  - intros results key Hkey Hcond.
    rewrite (stage_ipqs_skipped W url results key Hkey Hcond). auto.
  - intros results key Hkey Hcond.
    rewrite (stage_vt_skipped W url results key Hkey Hcond). auto.
Qed.

Lemma stages_run_witness :
  (env_ipqs_key world_phishing = Ok "i-key" /\ JS.truthy "i-key" = true /\
   exists r2,
     outcome (after_google world_phishing "https://example.com") = Ok r2 /\
     safe r2 = true) /\
  (env_vt_key world_malware = Ok "v-key" /\ JS.truthy "v-key" = true /\
   exists r3,
     outcome (after_ipqs world_malware "http://example.com") = Ok r3 /\
     riskLevel r3 = high) /\
  (trace (stage_ipqs world_malware "http://example.com" scan_failed) = [] /\
   outcome (stage_ipqs world_malware "http://example.com" scan_failed) = Ok scan_failed) /\
  (trace (stage_vt world_malware "http://example.com" initial_results) = [] /\
   outcome (stage_vt world_malware "http://example.com" initial_results)
     = Ok initial_results).
Proof.
  destruct (stages_run_under_their_conditions world_phishing "https://example.com")
    as (Hipqs & _).
  destruct (stages_run_under_their_conditions world_malware "http://example.com")
    as (_ & Hvt & Hskip3 & Hskip4).
  split; [| split; [| split]].
  - apply (Hipqs "example.com" "i-key").
    vm_compute. left. reflexivity.
  - apply (Hvt "aHR0cDovL2V4YW1wbGUuY29t" "v-key").
    vm_compute. right. left. reflexivity.
  - apply (Hskip3 scan_failed "i-key"); reflexivity.
  - apply (Hskip4 initial_results "v-key"); reflexivity.
Defined.

(** * Further properties *)

(** ** The score of [checkStrength] *)

Lemma b2z_range (b : bool) : 0 <= b2z b <= 1.
Proof.
  destruct b; simpl; lia.
Qed.

(** The points of the sub-checks, one for each test that holds. *)
Lemma sub_checks_points (password : string) :
  fst (sub_checks password) =
  b2z (JS.length password >=? 8) + b2z (JS.length password >=? 12)
  + b2z (Regex.test re_upper password) + b2z (Regex.test re_lower password)
  + b2z (Regex.test re_digit password) + b2z (Regex.test re_symbol password).
Proof.
  unfold sub_checks, class_check.
  destruct (JS.length password >=? 8); destruct (JS.length password >=? 12);
    destruct (JS.length password <? 8);
    destruct (test re_upper password); destruct (test re_lower password);
    destruct (test re_digit password); destruct (test re_symbol password);
    reflexivity.
Qed.

Lemma sub_checks_advice (password : string) :
  snd (sub_checks password) = advice password.
Proof.
  unfold sub_checks, class_check, advice, JS.push.
  destruct (JS.length password >=? 8); destruct (JS.length password >=? 12);
    destruct (JS.length password <? 8);
    destruct (test re_upper password); destruct (test re_lower password);
    destruct (test re_digit password); destruct (test re_symbol password);
    reflexivity.
Qed.

(** Every character is a capital, a small letter, a digit or a symbol. *)
Lemma char_classes (c : ascii) :
  (JS.is_upper c || JS.is_lower c || JS.is_digit c || negb (JS.is_alnum c))%bool = true.
Proof.
  unfold JS.is_alnum.
  destruct (JS.is_upper c); destruct (JS.is_lower c); destruct (JS.is_digit c);
    reflexivity.
Qed.

Lemma nonempty_has_class (password : string) :
  password <> "" ->
  1 <= b2z (Regex.test re_upper password) + b2z (Regex.test re_lower password)
       + b2z (Regex.test re_digit password) + b2z (Regex.test re_symbol password).
Proof.
  intros Hne. unfold re_upper, re_lower, re_digit, re_symbol.
  rewrite !test_Cls. unfold has_char.
  destruct password as [| c s]; [congruence |].
  cbn [list_ascii_of_string existsb].
  pose proof (char_classes c) as Hc.
  destruct (JS.is_upper c); destruct (JS.is_lower c); destruct (JS.is_digit c);
    destruct (negb (JS.is_alnum c)); try discriminate Hc; cbn [orb b2z];
    repeat match goal with
           | |- context [b2z ?b] => destruct b; cbn [b2z]
           end; lia.
Qed.

Lemma empty_has_no_class :
  fst (sub_checks "") = 0.
Proof.
  reflexivity.
Qed.

(** The common passwords have at most 11 characters. *)
Lemma common_is_short (password : string) :
  is_common password = true -> (1 <= String.length password <= 11)%nat.
Proof.
  unfold is_common. intros H. apply includes_In in H.
  rewrite <- (toLowerCase_length password).
  simpl in H.
  repeat (destruct H as [<- | H]; [simpl; lia |]). contradiction.
Qed.

Lemma length_geb (password : string) (n : nat) :
  (JS.length password >=? Z.of_nat n) = Nat.leb n (String.length password).
Proof.
  unfold JS.length.
  destruct (Z.geb_spec (Z.of_nat (String.length password)) (Z.of_nat n));
    destruct (Nat.leb_spec n (String.length password)); lia || reflexivity.
Qed.

(** X1.  The score is 6 exactly for a password of 12 characters or more
    that holds a capital, a small letter, a digit and a symbol. *)
Theorem full_score_iff (password : string) :
  score (checkStrength password) = 6 <->
  (12 <= String.length password)%nat /\
  Regex.test re_upper password = true /\
  Regex.test re_lower password = true /\
  Regex.test re_digit password = true /\
  Regex.test re_symbol password = true.
Proof.
  rewrite checkStrength_score. unfold final_score. fold (is_common password).
  rewrite sub_checks_points.
  change 8 with (Z.of_nat 8). change 12 with (Z.of_nat 12). rewrite !length_geb.
  destruct (is_common password) eqn:Hc.
  - apply common_is_short in Hc. split; [discriminate | lia].
  - destruct (Nat.leb_spec 8 (String.length password));
      destruct (Nat.leb_spec 12 (String.length password));
      destruct (test re_upper password); destruct (test re_lower password);
      destruct (test re_digit password); destruct (test re_symbol password);
      cbn [b2z];
      (split;
       [intros Hx; try lia; repeat split; (lia || reflexivity)
       | intros (Hl & Hu & Hlo & Hd & Hs); (lia || congruence)]).
Qed.

Lemma short_password_score (password : string) :
  (String.length password < 8)%nat ->
  score (checkStrength password) <= 4 /\
  strength (checkStrength password) <> Strength.strong.
Proof.
  rewrite checkStrength_strength, checkStrength_score.
  unfold final_score. fold (is_common password).
  rewrite sub_checks_points.
  change 8 with (Z.of_nat 8). change 12 with (Z.of_nat 12). rewrite !length_geb.
  intros Hlen.
  destruct (Nat.leb_spec 8 (String.length password)); [lia |].
  destruct (Nat.leb_spec 12 (String.length password)); [lia |].
  destruct (is_common password);
    destruct (test re_upper password); destruct (test re_lower password);
    destruct (test re_digit password); destruct (test re_symbol password);
    cbn; split; (lia || discriminate).
Qed.

Lemma long_password_score (password : string) :
  (12 <= String.length password)%nat ->
  is_common password = false /\
  3 <= score (checkStrength password) /\
  strength (checkStrength password) <> Strength.weak.
Proof.
  intros Hlen.
  assert (Hc : is_common password = false).
  { destruct (is_common password) eqn:Hc; [| reflexivity].
    apply common_is_short in Hc. lia. }
  split; [exact Hc |].
  rewrite checkStrength_strength, checkStrength_score.
  unfold final_score. fold (is_common password). rewrite Hc.
  rewrite sub_checks_points.
  change 8 with (Z.of_nat 8). change 12 with (Z.of_nat 12). rewrite !length_geb.
  assert (Hne : password <> "") by (destruct password; simpl in Hlen; [lia | discriminate]).
  pose proof (nonempty_has_class password Hne) as Hcls.
  destruct (Nat.leb_spec 8 (String.length password)); [| lia].
  destruct (Nat.leb_spec 12 (String.length password)); [| lia].
  cbn [b2z] in *.
  set (n := b2z _ + b2z _ + b2z _ + b2z _) in *.
  replace (1 + 1 + b2z (test re_upper password) + b2z (test re_lower password)
           + b2z (test re_digit password) + b2z (test re_symbol password))
    with (2 + n) by (subst n; lia).
  split; [lia |].
  destruct (Z.geb_spec (2 + n) 5); [discriminate |].
  destruct (Z.geb_spec (2 + n) 3); [discriminate | lia].
Qed.

(** X2.  A password shorter than 8 characters scores at most 4 and is
    never strong; a password of 12 characters or more scores at least 3 and
    is never weak. *)
Theorem length_bounds_strength (password : string) :
  ((String.length password < 8)%nat ->
   score (checkStrength password) <= 4 /\
   strength (checkStrength password) <> Strength.strong) /\
  ((12 <= String.length password)%nat ->
   3 <= score (checkStrength password) /\
   strength (checkStrength password) <> Strength.weak).
Proof.
  split.
  - apply short_password_score.
  - intros Hlen. now apply long_password_score.
Qed.

Lemma length_bounds_witness :
  strength (checkStrength "Ab1!") <> Strength.strong /\
  strength (checkStrength "aaaaaaaaaaaa") <> Strength.weak.
Proof.
  split.
  - apply (length_bounds_strength "Ab1!"). simpl. lia.
  - apply (length_bounds_strength "aaaaaaaaaaaa"). simpl. lia.
Defined.

(** X3.  The score is 0 exactly for the empty password and for the common
    passwords. *)
Theorem zero_score_iff (password : string) :
  score (checkStrength password) = 0 <->
  password = "" \/ is_common password = true.
Proof.
  rewrite checkStrength_score. unfold final_score. fold (is_common password).
  destruct (is_common password) eqn:Hc.
  - split; auto.
  - split.
    + intros H. left.
      destruct password as [| c s]; [reflexivity |].
      assert (Hne : String c s <> "") by discriminate.
      pose proof (nonempty_has_class _ Hne) as Hcls.
      rewrite sub_checks_points in H.
      pose proof (b2z_range (JS.length (String c s) >=? 8)).
      pose proof (b2z_range (JS.length (String c s) >=? 12)).
      lia.
    + intros [-> | H]; [reflexivity | discriminate].
Qed.

(** ** The feedback of [checkStrength] *)

Lemma checkStrength_feedback (password : string) :
  feedback (checkStrength password) =
  (advice password
   ++ (if is_common password then [msg_common] else [])
   ++ [summary (strength (checkStrength password))])%list.
Proof.
  rewrite <- sub_checks_advice. unfold checkStrength, is_common.
  destruct (sub_checks password) as [sc fb]. cbn [snd].
  destruct (JS.includes commonPasswords (JS.toLowerCase password)).
  - cbn. unfold JS.push. now rewrite <- app_assoc.
  - destruct (sc >=? 5); [| destruct (sc >=? 3)]; cbn; unfold JS.push;
      reflexivity.
Qed.

(** Membership in the feedback, by cases on the tests. *)
Ltac feedback_cases password :=
  rewrite checkStrength_feedback; unfold advice;
  destruct (JS.length password <? 8); destruct (test re_upper password);
  destruct (test re_lower password); destruct (test re_digit password);
  destruct (test re_symbol password); destruct (is_common password);
  destruct (strength (checkStrength password));
  cbn; split; intros Hx; try reflexivity; try discriminate Hx; try tauto;
  repeat (destruct Hx as [Hx | Hx]; try discriminate Hx); try contradiction.

(** X4.  The feedback is the advice of the checks that failed, in the order
    of the checks, then the common-password entry if any, then the summary
    of the strength, which comes last.  An entry of advice is there exactly
    when its check failed. *)
Theorem feedback_is_accurate (password : string) :
  feedback (checkStrength password) =
    (advice password
     ++ (if is_common password then [msg_common] else [])
     ++ [summary (strength (checkStrength password))])%list /\
  (In msg_too_short (feedback (checkStrength password)) <->
   (JS.length password <? 8) = true) /\
  (In msg_add_upper (feedback (checkStrength password)) <->
   Regex.test re_upper password = false) /\
  (In msg_add_lower (feedback (checkStrength password)) <->
   Regex.test re_lower password = false) /\
  (In msg_add_digit (feedback (checkStrength password)) <->
   Regex.test re_digit password = false) /\
  (In msg_add_special (feedback (checkStrength password)) <->
   Regex.test re_symbol password = false) /\
  (In msg_common (feedback (checkStrength password)) <->
   is_common password = true).
Proof.
  split; [apply checkStrength_feedback |].
  split; [feedback_cases password |].
  split; [feedback_cases password |].
  split; [feedback_cases password |].
  split; [feedback_cases password |].
  split; [feedback_cases password |].
  feedback_cases password.
Qed.

(** ** [generateStrongPassword] *)

Lemma get_In (s : string) (n : nat) (c : ascii) :
  String.get n s = Some c -> In c (list_ascii_of_string s).
Proof.
  revert n. induction s as [| a s IH]; intros [| n] H; simpl in *;
    try discriminate.
  - injection H as ->. auto.
  - right. eapply IH. exact H.
Qed.

Lemma get_in_range (s : string) (n : nat) :
  (n < String.length s)%nat -> exists c, String.get n s = Some c.
Proof.
  revert n. induction s as [| a s IH]; intros [| n] H; simpl in *; try lia.
  - eauto.
  - apply IH. lia.
Qed.

Lemma charAt_in_range (s : string) (k : Z) :
  0 <= k < Z.of_nat (String.length s) ->
  exists c, charAt s k = String c "" /\ In c (list_ascii_of_string s).
Proof.
  intros Hk. unfold charAt.
  destruct (Z.ltb_spec k 0); [lia |].
  destruct (get_in_range s (Z.to_nat k)) as [c Hc]; [lia |].
  rewrite Hc. exists c. split; [reflexivity |]. eapply get_In; eassumption.
Qed.

Lemma chars_append (s1 s2 : string) :
  list_ascii_of_string (s1 ++ s2) =
  (list_ascii_of_string s1 ++ list_ascii_of_string s2)%list.
Proof.
  induction s1; simpl; congruence.
Qed.

Lemma generate_loop_spec (draw : nat -> Z) (count i : nat) (password : string) :
  (forall j, 0 <= draw j < 70) ->
  String.length (generate_loop draw i count password)
    = (String.length password + count)%nat /\
  (forall c,
     In c (list_ascii_of_string (generate_loop draw i count password)) ->
     In c (list_ascii_of_string password) \/ In c (list_ascii_of_string charset)).
Proof.
  intros Hdraw. revert i password.
  induction count as [| count IH]; intros i password; cbn [generate_loop].
  - split; [lia | auto].
  - destruct (charAt_in_range charset (draw i)) as (c0 & Hc0 & Hin0);
      [apply Hdraw |].
    destruct (IH (S i) (password ++ charAt charset (draw i))) as [Hlen Hchars].
    rewrite Hc0 in *. split.
    + rewrite Hlen, append_length. simpl. lia.
    + intros c Hc. apply Hchars in Hc. destruct Hc as [Hc | Hc]; [| auto].
      rewrite chars_append in Hc. apply in_app_or in Hc.
      destruct Hc as [Hc | [<- | []]]; auto.
Qed.

(** X5.  The generated password has as many characters as asked for (none
    for a length of zero or less), each one from the alphabet of 70
    characters. *)
Theorem generated_password_shape (draw : nat -> Z) (length : Z) :
  (forall j, 0 <= draw j < 70) ->
  String.length charset = 70%nat /\
  String.length (generateStrongPassword draw length) = Z.to_nat length /\
  (forall c,
     In c (list_ascii_of_string (generateStrongPassword draw length)) ->
     In c (list_ascii_of_string charset)).
Proof.
  intros Hdraw. split; [reflexivity |].
  destruct (generate_loop_spec draw (Z.to_nat length) 0 "" Hdraw) as [Hlen Hchars].
  split; [exact Hlen |].
  intros c Hc. destruct (Hchars c Hc) as [[] | H]. exact H.
Qed.

Lemma generated_password_witness :
  String.length (generateStrongPassword (fun i => Z.of_nat (7 * i) mod 70) 16) = 16%nat /\
  generateStrongPassword (fun i => Z.of_nat (7 * i) mod 70) 16 = "AHOVcjqx4@AHOVcj" /\
  generateStrongPassword (fun i => 0) (-3) = "".
Proof.
  split; [| split; reflexivity].
  apply (generated_password_shape (fun i => Z.of_nat (7 * i) mod 70) 16).
  intros j. apply Z.mod_pos_bound. lia.
Defined.

(** X6.  A generated password of 12 characters or more (the default is 16)
    is not a common password, scores at least 3 and is never rated weak;
    it can be rated medium only. *)
Theorem generated_password_strength :
  (forall (draw : nat -> Z) (length : Z),
     (forall j, 0 <= draw j < 70) ->
     12 <= length ->
     let password := generateStrongPassword draw length in
     is_common password = false /\
     3 <= score (checkStrength password) /\
     strength (checkStrength password) <> Strength.weak) /\
  (exists draw : nat -> Z,
     (forall j, 0 <= draw j < 70) /\
     strength (checkStrength (generateStrongPassword draw 16)) = Strength.medium).
Proof.
  split.
  - intros draw length Hdraw Hlen password.
    apply long_password_score. subst password.
    destruct (generate_loop_spec draw (Z.to_nat length) 0 "" Hdraw) as [Hl _].
    unfold generateStrongPassword. rewrite Hl. simpl. lia.
  - exists (fun _ => 26). split; [intros; lia | reflexivity].
Qed.

Lemma generated_strength_witness :
  strength (checkStrength (generateStrongPassword (fun i => Z.of_nat (7 * i) mod 70) 16))
    <> Strength.weak.
Proof.
  destruct generated_password_strength as [H _].
  apply (H (fun i => Z.of_nat (7 * i) mod 70) 16).
  - intros j. apply Z.mod_pos_bound. lia.
  - lia.
Defined.

(** ** The hash and the request of [checkPasswordBreach] *)

Lemma substring_split (n : nat) (s : string) :
  JS.substring_to n s ++ JS.substring_from n s = s.
Proof.
  unfold JS.substring_to. revert s.
  induction n as [| n IH]; intros [| c s]; simpl; try reflexivity.
  now rewrite IH.
Qed.

Lemma upper_char_idempotent (c : ascii) :
  JS.upper_char (JS.upper_char c) = JS.upper_char c.
Proof.
  destruct c as [[] [] [] [] [] [] [] []]; reflexivity.
Qed.

Lemma toUpperCase_idempotent (s : string) :
  JS.toUpperCase (JS.toUpperCase s) = JS.toUpperCase s.
Proof.
  induction s as [| c s IH]; simpl; [reflexivity |].
  now rewrite upper_char_idempotent, IH.
Qed.

Lemma toUpperCase_substring_from (n : nat) (s : string) :
  JS.toUpperCase (JS.substring_from n s) = JS.substring_from n (JS.toUpperCase s).
Proof.
  revert s. induction n as [| n IH]; intros [| c s]; simpl; auto.
Qed.

Lemma toUpperCase_append (s1 s2 : string) :
  JS.toUpperCase (s1 ++ s2) = JS.toUpperCase s1 ++ JS.toUpperCase s2.
Proof.
  induction s1; simpl; congruence.
Qed.

Lemma join_empty_cons (x : string) (rest : list string) :
  JS.join "" (x :: rest) = x ++ JS.join "" rest.
Proof.
  destruct rest; cbn [JS.join append].
  - induction x; simpl; congruence.
  - reflexivity.
Qed.

Lemma hex_byte_chars (b : Byte.byte) :
  forallb is_hex_upper
    (list_ascii_of_string (JS.toUpperCase (padStart 2 "0" (toString16 b)))) = true.
Proof.
  destruct b; reflexivity.
Qed.

Lemma hex_string_cons (b : Byte.byte) (bs : list Byte.byte) :
  hex_string (b :: bs) =
  JS.toUpperCase (padStart 2 "0" (toString16 b)) ++ hex_string bs.
Proof.
  unfold hex_string. cbn [map]. now rewrite join_empty_cons, toUpperCase_append.
Qed.

Lemma hex_string_chars (hashArray : list Byte.byte) :
  forallb is_hex_upper (list_ascii_of_string (hex_string hashArray)) = true.
Proof.
  induction hashArray as [| b bs IH]; [reflexivity |].
  rewrite hex_string_cons, chars_append, forallb_app, hex_byte_chars, IH.
  reflexivity.
Qed.

(** X7.  The hash is cut in two parts that make it up again: the prefix,
    its first five characters, and the suffix, the rest; both are made of
    digits and the capitals A to F, so putting the suffix in capitals
    changes nothing. *)
Theorem hash_prefix_and_suffix (hashArray : list Byte.byte) :
  let passwordHash := hex_string hashArray in
  hash_prefix passwordHash ++ hash_suffix passwordHash = passwordHash /\
  hash_suffix passwordHash = JS.substring_from 5 passwordHash /\
  forallb is_hex_upper (list_ascii_of_string passwordHash) = true /\
  String.length passwordHash = (2 * List.length hashArray)%nat.
Proof.
  intros passwordHash.
  assert (Hsuffix : hash_suffix passwordHash = JS.substring_from 5 passwordHash).
  { unfold hash_suffix, passwordHash, hex_string.
    now rewrite toUpperCase_substring_from, toUpperCase_idempotent. }
  split; [| split; [exact Hsuffix | split]].
  - rewrite Hsuffix. apply substring_split.
  - apply hex_string_chars.
  - unfold passwordHash, hex_string.
    now rewrite toUpperCase_length, join_hex_length.
Qed.

Lemma checkPasswordBreach_trace (W : World) (password : string) :
  trace (checkPasswordBreach W password) =
  match subtle_digest_sha1 W password with
  | Ok hashArray => [RangeLookup (hash_prefix (hex_string hashArray))]
  | Throw _ => []
  end.
Proof.
  cbv [checkPasswordBreach checkPasswordBreach_try sha1 bind try_catch lift
       request ret throw trace fst].
  destruct (subtle_digest_sha1 W password) as [hashArray | e]; [| reflexivity].
  destruct (fetch_range W (hash_prefix (hex_string hashArray))) as [response | e];
    [| reflexivity].
  destruct (ok response); cbn [negb]; [| reflexivity].
  destruct (text response); reflexivity.
Qed.

(** X8.  The breach lookup makes no request when the digest fails, and one
    request otherwise, whatever the service answers: the range lookup of
    the prefix, which has five characters for a digest of 20 bytes.  Two
    passwords whose hashes begin with the same five characters make the
    same request. *)
Theorem breach_lookup_sends_the_prefix_only (W : World) (password : string) :
  (forall e,
     subtle_digest_sha1 W password = Throw e ->
     trace (checkPasswordBreach W password) = []) /\
  (forall hashArray,
     subtle_digest_sha1 W password = Ok hashArray ->
     trace (checkPasswordBreach W password)
       = [RangeLookup (hash_prefix (hex_string hashArray))] /\
     (List.length hashArray = 20%nat ->
      String.length (hash_prefix (hex_string hashArray)) = 5%nat)) /\
  (forall other hashArray hashArray',
     subtle_digest_sha1 W password = Ok hashArray ->
     subtle_digest_sha1 W other = Ok hashArray' ->
     hash_prefix (hex_string hashArray) = hash_prefix (hex_string hashArray') ->
     trace (checkPasswordBreach W other) = trace (checkPasswordBreach W password)).
Proof.
  split; [| split].
  - intros e He. now rewrite checkPasswordBreach_trace, He.
  - intros hashArray Hd. rewrite checkPasswordBreach_trace, Hd.
    split; [reflexivity |]. intros Hlen. now apply hash_lengths.
  - intros other h h' Hd Hd' Hp.
    rewrite !checkPasswordBreach_trace, Hd, Hd', Hp. reflexivity.
Qed.

Lemma breach_lookup_trace_witness :
  trace (checkPasswordBreach world_offline "password") = [] /\
  trace (checkPasswordBreach (world_range (Throw "Failed to fetch")) "password")
    = [RangeLookup "5BAA6"] /\
  String.length (hash_prefix (hex_string sha1_of_password)) = 5%nat.
Proof.
  destruct (breach_lookup_sends_the_prefix_only world_offline "password")
    as (Hnone & _).
  destruct (breach_lookup_sends_the_prefix_only
              (world_range (Throw "Failed to fetch")) "password")
    as (_ & Hone & _).
  destruct (Hone sha1_of_password eq_refl) as [Htrace Hlen].
  split; [| split].
  - apply (Hnone "crypto.subtle is undefined"). reflexivity.
  - exact Htrace.
  - apply Hlen. reflexivity.
Defined.

(** ** The lines of the response *)

Lemma scan_response_cons (suffix line rest : string) :
  has_char (Ascii.eqb LF) line = false ->
  scan_response suffix (line ++ String LF rest) =
  if JS.startsWith line suffix then
    if JS.truthy line then scan_response suffix line
    else no_breach
  else scan_response suffix rest.
Proof.
  intros Hline. unfold scan_response.
  rewrite split_at_sep by exact Hline.
  rewrite (split_no_sep LF line Hline).
  unfold JS.find. cbn [find].
  destruct (JS.startsWith line suffix); [| reflexivity].
  destruct (JS.truthy line); reflexivity.
Qed.

(** X9.  The lines of the response are read in order: a line that does not
    start with the suffix is passed over, and the first line that does
    decides the result, whatever follows it. *)
Theorem first_matching_line_decides (suffix line rest : string) :
  has_char (Ascii.eqb LF) line = false ->
  (JS.startsWith line suffix = false ->
   scan_response suffix (line ++ String LF rest) = scan_response suffix rest) /\
  (JS.startsWith line suffix = true ->
   line <> "" ->
   scan_response suffix (line ++ String LF rest) = scan_response suffix line /\
   isBreached (scan_response suffix (line ++ String LF rest)) = true).
Proof.
  intros Hline. rewrite scan_response_cons by exact Hline. split.
  - intros ->. reflexivity.
  - intros Hs Hne. rewrite Hs.
    assert (Ht : JS.truthy line = true).
    { unfold JS.truthy. destruct (String.eqb_spec line ""); [contradiction | reflexivity]. }
    rewrite Ht. split; [reflexivity |].
    unfold scan_response. rewrite (split_no_sep LF line Hline).
    unfold JS.find. cbn [find]. rewrite Hs, Ht. reflexivity.
Qed.

Lemma first_matching_line_witness :
  scan_response suffix_of_password
    ("0018A45C4D1DEF81644B54AB7F969B88D65:3" ++ String LF (suffix_of_password ++ ":7"))
  = scan_response suffix_of_password (suffix_of_password ++ ":7") /\
  scan_response suffix_of_password
    ((suffix_of_password ++ ":7") ++ String LF (suffix_of_password ++ ":9"))
  = scan_response suffix_of_password (suffix_of_password ++ ":7").
Proof.
  split.
  - apply (first_matching_line_decides suffix_of_password
             "0018A45C4D1DEF81644B54AB7F969B88D65:3" (suffix_of_password ++ ":7"));
      reflexivity.
  - apply (first_matching_line_decides suffix_of_password
             (suffix_of_password ++ ":7") (suffix_of_password ++ ":9"));
      [reflexivity | reflexivity | discriminate].
Defined.

(** ** What an assessment of [scanUrl] looks like *)

Lemma local_results_coherent (url : string) : coherent (local_results url).
Proof.
  unfold local_results, coherent, locked.
  destruct (basic_verdict url) as [Hsafe Hlevel].
  destruct (basicSafe (basicUrlAnalysis url)) eqn:Hs.
  - cbn. repeat split; intros; try reflexivity; try discriminate.
  - cbn [assign_basic safe riskLevel threatTypes googleSafe domainReputation
         riskScore initial_results].
    rewrite Hs, Hlevel.
    change (basicThreatTypes (basicUrlAnalysis url)) with (basic_threats url).
    symmetry in Hsafe.
    destruct (basic_threats url) as [| t [| t' [| t'' ts]]]; cbn in *;
      try discriminate Hsafe;
      repeat split; intros; try reflexivity; try discriminate; try lia.
Qed.

Lemma stage_google_coherent (W : World) (url : string) (results r' : ScanResult) :
  outcome (stage_google W url results) = Ok r' ->
  coherent results -> coherent r'.
Proof.
  unfold coherent, locked. unfold_stage.
  destruct (env_google_key W) as [key | e]; [| discriminate].
  destruct (JS.truthy key); [| intros [= <-]; auto].
  destruct (fetch_threat_matches W (normalizeUrl url) key) as [[[[| m ms] |]] | e];
    cbv beta iota zeta; intros [= <-]; auto.
  intros _. cbn. repeat split; intros; try reflexivity; discriminate.
Qed.

Lemma stage_ipqs_coherent (W : World) (url : string) (results r' : ScanResult) :
  outcome (stage_ipqs W url results) = Ok r' ->
  coherent results -> coherent r'.
Proof.
  unfold coherent, locked. destruct results as [s l t g d rs dt].
  unfold_stage. cbn [safe riskLevel threatTypes googleSafe domainReputation riskScore].
  destruct (env_ipqs_key W) as [key | e0]; [| discriminate].
  destruct (JS.truthy key); destruct s; cbv beta iota zeta;
    try (intros [= <-]; auto; fail).
  destruct (url_hostname W (normalizeUrl url));
    (destruct (fetch_domain_reputation W _ key) as [data | e'];
     cbv beta iota zeta; [| intros [= <-]; auto]);
    destruct (malicious data); destruct (phishing data); intros [= <-]; cbn;
    intros (H1 & H2 & H3 & H4);
    destruct (H2 eq_refl) as [-> ->];
    destruct H1 as [H1 _]; specialize (H1 eq_refl); subst l;
    repeat split; intros; try reflexivity; discriminate.
Qed.

Lemma stage_vt_coherent (W : World) (url : string) (results r' : ScanResult) :
  outcome (stage_vt W url results) = Ok r' ->
  coherent results -> r' = results.
Proof.
  unfold coherent. unfold_stage. split_cases; intros [= <-]; auto.
  intros (H1 & _).
  apply Level_eqb_high in Heqb0.
  destruct results as [s l t g d rs dt]. cbn in *. subst l.
  destruct s; [| reflexivity].
  destruct H1 as [H1 _]. specialize (H1 eq_refl). discriminate.
Qed.

Lemma finalize_coherent (results : ScanResult) :
  coherent results -> coherent (finalize results).
Proof.
  unfold coherent, locked. cbn. tauto.
Qed.

Lemma scan_failed_coherent : coherent scan_failed.
Proof.
  unfold coherent, locked. cbn.
  repeat split; intros; try reflexivity; discriminate.
Qed.

Lemma stage_basic_local (url : string) :
  stage_basic url initial_results = ([], Ok (local_results url)).
Proof.
  apply stage_basic_outcome.
Qed.

Lemma after_ipqs_coherent (W : World) (url : string) (r3 : ScanResult) :
  outcome (after_ipqs W url) = Ok r3 -> coherent r3.
Proof.
  intros H. apply after_ipqs_stages in H. destruct H as (r2 & H2 & H3).
  apply after_google_stages in H2. destruct H2 as (r1 & H1 & H2).
  rewrite stage_basic_local in H1. injection H1 as <-.
  eapply stage_ipqs_coherent; [exact H3 |].
  eapply stage_google_coherent; [exact H2 |].
  apply local_results_coherent.
Qed.

(** X10.  In every assessment [scanUrl] returns, the fields agree: it is
    safe exactly when its risk level is low, and then it has no threat and
    [googleSafe] holds; [googleSafe] is false only in an unsafe assessment
    of high risk; a medium risk comes from the local analysis alone, with
    one or two threats and the default reputation and risk score. *)
Theorem assessment_is_coherent (W : World) (url : string) :
  exists r, outcome (scanUrl W url) = Ok r /\ coherent r.
Proof.
  eexists. split; [apply scanUrl_outcome |].
  destruct (outcome (scanUrl_try W url)) as [r | e] eqn:Htry.
  - apply scanUrl_try_stages in Htry.
    destruct Htry as (r1 & r2 & r3 & r4 & H1 & H2 & H3 & H4 & ->).
    rewrite stage_basic_local in H1. injection H1 as <-.
    assert (C3 : coherent r3).
    { eapply stage_ipqs_coherent; [exact H3 |].
      eapply stage_google_coherent; [exact H2 |].
      apply local_results_coherent. }
    rewrite (stage_vt_coherent W url r3 r4 H4 C3).
    now apply finalize_coherent.
  - apply scan_failed_coherent.
Qed.

(** ** The multi-engine stage *)

Lemma stage_vt_outcome_coherent (W : World) (url : string) (results : ScanResult) :
  coherent results ->
  outcome (stage_vt W url results) =
  match env_vt_key W with
  | Ok _ => Ok results
  | Throw e => Throw e
  end.
Proof.
  intros C.
  destruct (outcome (stage_vt W url results)) as [r' | e] eqn:H.
  - rewrite (stage_vt_coherent W url results r' H C).
    destruct (env_vt_key W) eqn:Hk; [reflexivity |].
    revert H. unfold stage_vt. rewrite outcome_bind. unfold lift, outcome at 1.
    cbn [snd]. rewrite Hk. discriminate.
  - now rewrite (stage_vt_throws W url results e H).
Qed.

Lemma scanUrl_try_outcome (W : World) (url : string) :
  outcome (scanUrl_try W url) =
  match outcome (after_ipqs W url) with
  | Ok r3 =>
      match env_vt_key W with
      | Ok _ => Ok (finalize r3)
      | Throw e => Throw e
      end
  | Throw e => Throw e
  end.
Proof.
  destruct (outcome (after_ipqs W url)) as [r3 | e] eqn:H3.
  - pose proof (after_ipqs_coherent W url r3 H3) as C3.
    apply after_ipqs_stages in H3. destruct H3 as (r2 & H2 & H3).
    apply after_google_stages in H2. destruct H2 as (r1 & H1 & H2).
    unfold scanUrl_try.
    rewrite outcome_bind, H1, outcome_bind, H2, outcome_bind, H3, outcome_bind.
    rewrite (stage_vt_outcome_coherent W url r3 C3).
    destruct (env_vt_key W); reflexivity.
  - revert H3. unfold after_ipqs, after_google, scanUrl_try.
    rewrite !outcome_bind.
    destruct (outcome (stage_basic url initial_results)) as [r1 | e1]; [| auto].
    rewrite outcome_bind.
    destruct (outcome (stage_google W url r1)) as [r2 | e2]; [| auto].
    rewrite outcome_bind.
    destruct (outcome (stage_ipqs W url r2)) as [r3 | e3]; [discriminate | auto].
Qed.

(** X11.  Within [scanUrl] the multi-engine stage never changes the
    assessment: it runs on a risk level that is high, where the assessment
    is unsafe already, so what [scanUrl] returns does not depend on the
    answer of the multi-engine service. *)
Theorem multi_engine_changes_nothing (W : World) (url : string) :
  (forall r3 r4,
     outcome (after_ipqs W url) = Ok r3 ->
     outcome (stage_vt W url r3) = Ok r4 ->
     r4 = r3) /\
  (forall service,
     outcome (scanUrl (with_multi_engine W service) url) = outcome (scanUrl W url)).
Proof.
  split.
  - intros r3 r4 H3 H4. eapply stage_vt_coherent; [exact H4 |].
    now apply after_ipqs_coherent with (W := W) (url := url).
  - intros service. rewrite !scanUrl_outcome, !scanUrl_try_outcome. reflexivity.
Qed.

Lemma multi_engine_witness :
  outcome (stage_vt world_malware "http://example.com"
             {| safe := false; riskLevel := high; threatTypes := ["MALWARE"];
                googleSafe := false; domainReputation := high; riskScore := 0;
                details := "Google Safe Browsing: MALWARE detected" |})
  = Ok {| safe := false; riskLevel := high; threatTypes := ["MALWARE"];
          googleSafe := false; domainReputation := high; riskScore := 0;
          details := "Google Safe Browsing: MALWARE detected" |}.
Proof.
  destruct (multi_engine_changes_nothing world_malware "http://example.com")
    as [H _].
  destruct (outcome (stage_vt world_malware "http://example.com" _)) as [r4 | e] eqn:H4.
  - f_equal. eapply H; [| exact H4]. vm_compute. reflexivity.
  - vm_compute in H4. discriminate H4.
Defined.

(** ** [scanUrl] without the services *)

Lemma truthy_empty : JS.truthy "" = false.
Proof.
  reflexivity.
Qed.

(** X12.  When no credential is configured, [scanUrl] makes no request and
    returns the verdict of the local analysis. *)
Theorem scan_without_credentials (W : World) (url : string) :
  env_google_key W = Ok "" ->
  env_ipqs_key W = Ok "" ->
  env_vt_key W = Ok "" ->
  scanUrl W url = ([], Ok (finalize (local_results url))) /\
  safe (finalize (local_results url)) = basicSafe (basicUrlAnalysis url) /\
  riskLevel (finalize (local_results url)) = basicRiskLevel (basicUrlAnalysis url) /\
  threatTypes (finalize (local_results url)) = basicThreatTypes (basicUrlAnalysis url).
Proof.
  intros Hg Hi Hv. split.
  - unfold scanUrl, scanUrl_try. rewrite stage_basic_local.
    unfold stage_google, stage_ipqs, stage_vt.
    rewrite Hg, Hi, Hv. reflexivity.
  - unfold local_results.
    destruct (basicSafe (basicUrlAnalysis url)) eqn:Hs;
      cbn [finalize safe riskLevel threatTypes initial_results assign_basic].
    + rewrite (basic_safe_no_threats url Hs).
      destruct (basic_verdict url) as [_ Hlevel]. rewrite Hlevel.
      change (basic_threats url) with (basicThreatTypes (basicUrlAnalysis url)).
      rewrite (basic_safe_no_threats url Hs). auto.
    + auto.
Qed.

Lemma scan_without_credentials_witness :
  scanUrl world_offline "http://bit.ly/abc"
  = ([], Ok (finalize (local_results "http://bit.ly/abc"))).
Proof.
  apply (scan_without_credentials world_offline "http://bit.ly/abc"); reflexivity.
Defined.

(** X13.  When the threat-match and the reputation services fail on every
    call, [scanUrl] still returns, and returns the verdict of the local
    analysis, whatever credentials are configured. *)
Theorem scan_fails_open (W : World) (url : string) (gKey iKey vKey : string) :
  env_google_key W = Ok gKey ->
  env_ipqs_key W = Ok iKey ->
  env_vt_key W = Ok vKey ->
  (forall u k, exists e, fetch_threat_matches W u k = Throw e) ->
  (forall d k, exists e, fetch_domain_reputation W d k = Throw e) ->
  outcome (scanUrl W url) = Ok (finalize (local_results url)).
Proof.
  intros Hg Hi Hv Hthreat Hrep.
  rewrite scanUrl_outcome, scanUrl_try_outcome, Hv.
  assert (H2 : outcome (after_google W url) = Ok (local_results url)).
  { unfold after_google. rewrite stage_basic_local.
    unfold_stage. rewrite Hg.
    destruct (JS.truthy gKey); [| reflexivity].
    destruct (Hthreat (normalizeUrl url) gKey) as [e ->]. reflexivity. }
  assert (H3 : outcome (after_ipqs W url) = Ok (local_results url)).
  { unfold after_ipqs. rewrite outcome_bind, H2.
    unfold_stage. rewrite Hi.
    destruct (JS.truthy iKey); [| reflexivity].
    destruct (safe (local_results url)); [| reflexivity].
    destruct (url_hostname W (normalizeUrl url)) as [h | e0].
    - destruct (Hrep h iKey) as [e ->]. reflexivity.
    - destruct (Hrep url iKey) as [e ->]. reflexivity. }
  rewrite H3. reflexivity.
Qed.

Lemma scan_fails_open_witness :
  outcome (scanUrl
             {| subtle_digest_sha1 := fun _ => Throw "unused";
                fetch_range := fun _ => Throw "unused";
                env_google_key := Ok "g-key";
                env_ipqs_key := Ok "i-key";
                env_vt_key := Ok "v-key";
                fetch_threat_matches := fun _ _ => Throw "Failed to fetch";
                fetch_domain_reputation := fun _ _ => Throw "Failed to fetch";
                fetch_multi_engine := fun _ _ => Throw "Failed to fetch";
                url_hostname := fun _ => Throw "Invalid URL" |}
             "https://example.com")
  = Ok (finalize (local_results "https://example.com")).
Proof.
  apply (scan_fails_open _ "https://example.com" "g-key" "i-key" "v-key");
    try reflexivity; intros; eexists; reflexivity.
Defined.

(** ** The reputation stage on a flagged URL *)

Lemma stage_google_keeps_unsafe (W : World) (url : string) (results r' : ScanResult) :
  outcome (stage_google W url results) = Ok r' ->
  safe results = false ->
  safe r' = false /\
  domainReputation r' = domainReputation results /\
  riskScore r' = riskScore results.
Proof.
  unfold_stage.
  destruct (env_google_key W) as [key | e]; [| discriminate].
  destruct (JS.truthy key); [| intros [= <-]; auto].
  destruct (fetch_threat_matches W (normalizeUrl url) key) as [[[[| m ms] |]] | e];
    cbv beta iota zeta; intros [= <-]; auto.
Qed.

Lemma stage_ipqs_unsafe (W : World) (url : string) (results r' : ScanResult) :
  outcome (stage_ipqs W url results) = Ok r' ->
  safe results = false ->
  r' = results.
Proof.
  unfold stage_ipqs. rewrite outcome_bind. unfold lift, outcome at 1. cbn [snd].
  destruct (env_ipqs_key W) as [key | e]; [| discriminate].
  intros H Hs. rewrite Hs, andb_false_r in H. now injection H.
Qed.

(** X14.  For a URL the local analysis flags (any URL that does not start
    with [https://] is one), [scanUrl] never asks the reputation service,
    and the assessment of the pipeline is unsafe with the default
    reputation, high, and the default risk score, 0. *)
Theorem flagged_url_skips_reputation (W : World) (url : string) :
  (JS.startsWith url "https://" = false -> basicSafe (basicUrlAnalysis url) = false) /\
  (basicSafe (basicUrlAnalysis url) = false ->
   (forall domain key, ~ In (DomainReputation domain key) (trace (scanUrl W url))) /\
   (forall r,
      outcome (scanUrl_try W url) = Ok r ->
      safe r = false /\ domainReputation r = high /\ riskScore r = 0)).
Proof.
  split; [intros Hs; now apply not_https_flagged |].
  intros Hflag.
  assert (H1 : safe (local_results url) = false /\
               domainReputation (local_results url) = high /\
               riskScore (local_results url) = 0).
  { unfold local_results. rewrite Hflag. cbn. auto. }
  assert (Hag : forall r2, outcome (after_google W url) = Ok r2 ->
                safe r2 = false /\ domainReputation r2 = high /\ riskScore r2 = 0).
  { intros r2 H2. apply after_google_stages in H2. destruct H2 as (r1 & Hb & H2).
    rewrite stage_basic_local in Hb. injection Hb as <-.
    destruct H1 as (Hs & Hd & Hr).
    destruct (stage_google_keeps_unsafe W url _ r2 H2 Hs) as (Hs2 & Hd2 & Hr2).
    rewrite Hd2, Hr2. auto. }
  split.
  - intros domain key Hin. apply scanUrl_trace in Hin.
    destruct Hin as [(r1 & _ & H) | [(r2 & H2 & H) | (r3 & _ & H)]].
    + apply stage_google_trace in H. destruct H as (u & k & H). discriminate H.
    + apply stage_ipqs_trace in H. destruct H as [_ Hsafe].
      destruct (Hag r2 H2) as [Hs _]. congruence.
    + apply stage_vt_trace in H. destruct H as [(i & k & H & _) _]. discriminate H.
  - intros r Htry. apply scanUrl_try_stages in Htry.
    destruct Htry as (r1 & r2 & r3 & r4 & Hb & H2 & H3 & H4 & ->).
    assert (Hag2 : outcome (after_google W url) = Ok r2).
    { apply after_google_stages. eauto. }
    destruct (Hag r2 Hag2) as (Hs & Hd & Hr).
    rewrite (stage_ipqs_unsafe W url r2 r3 H3 Hs) in *.
    destruct (stage_vt_keeps W url r2 r4 H4) as [Hd4 Hr4].
    destruct (stage_vt_step W url r2 r4 H4) as [_ _].
    cbn [finalize safe domainReputation riskScore].
    rewrite Hd4, Hr4. split; [| auto].
    revert H4. unfold_stage. split_cases; intros [= <-]; cbn; auto.
Qed.

Lemma flagged_url_witness :
  (forall domain key,
     ~ In (DomainReputation domain key)
          (trace (scanUrl world_phishing "http://example.com"))) /\
  (exists key,
     In (DomainReputation "example.com" key)
        (trace (scanUrl world_phishing "https://example.com"))).
Proof.
  destruct (flagged_url_skips_reputation world_phishing "http://example.com")
    as [Hhttp Hflag].
  assert (Hs : basicSafe (basicUrlAnalysis "http://example.com") = false)
    by (apply Hhttp; vm_compute; reflexivity).
  split.
  - exact (proj1 (Hflag Hs)).
  - exists "i-key". vm_compute. left. reflexivity.
Defined.

(** ** The labels of the local analysis *)

Lemma basic_threats_opt (url : string) :
  basic_threats url =
  (concat (map (fun entry => opt_threat (test (fst entry) (JS.toLowerCase url))
                                        (snd entry))
               suspiciousPatterns)
   ++ opt_threat (negb (JS.startsWith url "https://")) msg_no_https
   ++ opt_threat (JS.length url >? 100) msg_long_url)%list.
Proof.
  rewrite basic_threats_eq. unfold matching_patterns. f_equal.
  - induction suspiciousPatterns as [| [p l] ps IH]; [reflexivity |].
    cbn [filter map concat fst snd].
    destruct (test p (JS.toLowerCase url)); cbn; now rewrite IH.
  - destruct (JS.startsWith url "https://"); reflexivity.
Qed.

Lemma In_opt_threat (b : bool) (label x : string) :
  In x (opt_threat b label) <-> b = true /\ label = x.
Proof.
  destruct b; simpl; intuition congruence.
Qed.

Lemma threat_cases (url : string) :
  exists b1 b2 b3 b4 b5 b6 b7 b8,
    basic_threats url =
    (opt_threat b1 "Potential phishing page"
     ++ opt_threat b2 "Brand impersonation"
     ++ opt_threat b3 "URL shortener"
     ++ opt_threat b4 "Misleading @ symbol"
     ++ opt_threat b5 "IP address instead of domain"
     ++ opt_threat b6 "Suspicious keywords"
     ++ opt_threat b7 msg_no_https
     ++ opt_threat b8 msg_long_url)%list.
Proof.
  rewrite basic_threats_opt. unfold suspiciousPatterns.
  cbn [map concat fst snd]. rewrite <- !app_assoc. cbn [app].
  do 8 eexists. reflexivity.
Qed.

(** X15.  Each of the eight labels of the local analysis is in the list at
    most once, and exactly when its test holds: a pattern on the lowercased
    URL, the missing [https://] prefix, or a length above 100. *)
Theorem threat_labels_follow_tests (url : string) :
  let threats := basicThreatTypes (basicUrlAnalysis url) in
  NoDup threats /\
  (List.length threats <= 8)%nat /\
  (forall pattern label,
     In (pattern, label) suspiciousPatterns ->
     (In label threats <-> test pattern (JS.toLowerCase url) = true)) /\
  (In msg_no_https threats <-> JS.startsWith url "https://" = false) /\
  (In msg_long_url threats <-> (JS.length url >? 100) = true).
Proof.
  intros threats.
  change threats with (basic_threats url). clear threats.
  split; [| split].
  - destruct (threat_cases url)
      as (b1 & b2 & b3 & b4 & b5 & b6 & b7 & b8 & ->).
    destruct b1, b2, b3, b4, b5, b6, b7, b8; cbn;
      repeat (constructor; [simpl; intuition discriminate |]); constructor.
  - destruct (threat_cases url)
      as (b1 & b2 & b3 & b4 & b5 & b6 & b7 & b8 & ->).
    destruct b1, b2, b3, b4, b5, b6, b7, b8; cbn; lia.
  - rewrite basic_threats_opt. unfold suspiciousPatterns.
    cbn [map concat fst snd]. rewrite <- !app_assoc. cbn [app].
    split; [| split].
    + intros pattern label Hin. simpl in Hin.
      rewrite !in_app_iff, !In_opt_threat.
      repeat (destruct Hin as [[= <- <-] | Hin];
              [unfold msg_no_https, msg_long_url;
               intuition (discriminate || congruence) |]).
      contradiction.
    + rewrite !in_app_iff, !In_opt_threat. unfold msg_no_https, msg_long_url.
      destruct (JS.startsWith url "https://"); cbn [negb];
        intuition (discriminate || congruence).
    + rewrite !in_app_iff, !In_opt_threat. unfold msg_no_https, msg_long_url.
      intuition (discriminate || congruence).
Qed.

Lemma threat_labels_witness :
  In "Misleading @ symbol" (basicThreatTypes (basicUrlAnalysis "http://user@example.com")) /\
  ~ In "Misleading @ symbol" (basicThreatTypes (basicUrlAnalysis "http://example.com")).
Proof.
  assert (Hentry : In (Chr "@", "Misleading @ symbol") suspiciousPatterns)
    by (right; right; right; left; reflexivity).
  pose proof (threat_labels_follow_tests "http://user@example.com") as H1.
  pose proof (threat_labels_follow_tests "http://example.com") as H2.
  cbv zeta in H1, H2.
  destruct H1 as (_ & _ & H1 & _). destruct H2 as (_ & _ & H2 & _).
  specialize (H1 _ _ Hentry). specialize (H2 _ _ Hentry).
  split.
  - apply (proj2 H1). vm_compute. reflexivity.
  - intros Hin. apply (proj1 H2) in Hin. vm_compute in Hin. discriminate Hin.
Defined.

(** ** [normalizeUrl] *)

(** X16.  [normalizeUrl] gives a URL that starts with [http], leaves such a
    URL as it is and no other, and changes nothing when applied twice. *)
Theorem normalizeUrl_idempotent (url : string) :
  JS.startsWith (normalizeUrl url) "http" = true /\
  normalizeUrl (normalizeUrl url) = normalizeUrl url /\
  (normalizeUrl url = url <-> JS.startsWith url "http" = true).
Proof.
  unfold normalizeUrl.
  destruct (JS.startsWith url "http") eqn:Hs.
  - rewrite Hs. repeat split; auto.
  - assert (Hp : JS.startsWith ("http://" ++ url) "http" = true) by reflexivity.
    rewrite Hp. repeat split; auto; try discriminate.
    intros H. apply (f_equal String.length) in H. simpl in H. lia.
Qed.

(** ** Shorteners *)

Lemma Matches_Lit (lit : string) : Matches (Lit lit) lit.
Proof.
  induction lit as [| c lit IH]; [constructor |].
  destruct lit as [| c' lit'].
  - simpl. constructor. apply Ascii.eqb_refl.
  - change (Lit (String c (String c' lit')))
      with (Cat (Chr c) (Lit (String c' lit'))).
    change (String c (String c' lit'))
      with (String c "" ++ String c' lit').
    constructor; [| exact IH]. constructor. apply Ascii.eqb_refl.
Qed.

Lemma Matches_Chr_inv (c : ascii) (s : string) :
  Matches (Chr c) s -> s = String c "".
Proof.
  unfold Chr. intros H. inversion H as [| p a Hp | | | | |]; subst.
  apply Ascii.eqb_eq in Hp. now subst.
Qed.

Lemma Matches_Lit_inv (lit s : string) : Matches (Lit lit) s -> s = lit.
Proof.
  revert s. induction lit as [| c lit IH]; intros s H.
  - inversion H. reflexivity.
  - destruct lit as [| c' lit'].
    + now apply Matches_Chr_inv.
    + change (Lit (String c (String c' lit')))
        with (Cat (Chr c) (Lit (String c' lit'))) in H.
      inversion H as [| | r1 r2 s1 s2 H1 H2 | | | |]; subst.
      apply Matches_Chr_inv in H1. apply IH in H2. subst. reflexivity.
Qed.

Lemma Matches_Alts_Lit (lits : list string) (s : string) :
  Matches (Alts (map Lit lits)) s <-> In s lits.
Proof.
  induction lits as [| l lits IH].
  - simpl. split; [intros H; inversion H | contradiction].
  - destruct lits as [| l' lits'].
    + simpl. split.
      * intros H. left. symmetry. now apply Matches_Lit_inv.
      * intros [<- | []]. apply Matches_Lit.
    + change (Alts (map Lit (l :: l' :: lits')))
        with (Alt (Lit l) (Alts (map Lit (l' :: lits')))).
      split.
      * intros H. inversion H; subst.
        -- left. symmetry. now apply Matches_Lit_inv.
        -- right. now apply IH.
      * intros [<- | H].
        -- apply M_AltL. apply Matches_Lit.
        -- apply M_AltR. now apply IH.
Qed.

(** X17.  The label "URL shortener" is given exactly when the lowercased
    URL holds one of [bit.ly], [tinyurl], [goo.gl], [t.co], [ow.ly]
    anywhere, be it inside a longer name: [https://microsoft.com] holds
    [t.co] and is flagged. *)
Theorem shortener_label_iff (url : string) :
  In "URL shortener" (basicThreatTypes (basicUrlAnalysis url)) <->
  exists lit before after,
    In lit shorteners /\
    JS.toLowerCase url = before ++ lit ++ after.
Proof.
  change (basicThreatTypes (basicUrlAnalysis url)) with (basic_threats url).
  rewrite basic_threats_opt. unfold suspiciousPatterns.
  cbn [map concat fst snd]. rewrite <- !app_assoc. cbn [app].
  rewrite !in_app_iff, !In_opt_threat. unfold msg_no_https, msg_long_url.
  change (Alts [Lit "bit.ly"; Lit "tinyurl"; Lit "goo.gl"; Lit "t.co"; Lit "ow.ly"])
    with (Alts (map Lit shorteners)).
  split.
  - intros H.
    assert (Ht : test (Alts (map Lit shorteners)) (JS.toLowerCase url) = true)
      by (intuition (discriminate || congruence)).
    apply test_Matches in Ht. destruct Ht as (s0 & s1 & s2 & Hs & Hm).
    apply Matches_Alts_Lit in Hm. exists s1, s0, s2. auto.
  - intros (lit & before & after & Hin & Hs).
    right. right. left. split; [| reflexivity].
    apply test_Matches. exists before, lit, after. split; [exact Hs |].
    now apply Matches_Alts_Lit.
Qed.

Lemma shortener_label_witness :
  In "URL shortener" (basicThreatTypes (basicUrlAnalysis "https://microsoft.com")) /\
  basicSafe (basicUrlAnalysis "https://microsoft.com") = false.
Proof.
  split; [| vm_compute; reflexivity].
  apply (shortener_label_iff "https://microsoft.com").
  exists "t.co", "https://microsof", "m". split; [simpl; tauto | reflexivity].
Defined.

(** ** The colours of the result card *)

(** X18.  On the result card the colour of the reputation and the colour of
    the risk score (green, yellow, red) agree for every risk score but 25
    and 75: at 25 the reputation is green and the score yellow, at 75 the
    reputation is yellow and the score red. *)
Theorem reputation_and_score_colours (risk_score : option Z) :
  (getReputationColor (Level_label (reputation_of risk_score))
   = riskScoreColor (or_zero risk_score)
   <-> risk_score <> Some 25 /\ risk_score <> Some 75) /\
  getReputationColor (Level_label (reputation_of (Some 25))) = "text-green-600" /\
  riskScoreColor (or_zero (Some 25)) = "text-yellow-600" /\
  getReputationColor (Level_label (reputation_of (Some 75))) = "text-yellow-600" /\
  riskScoreColor (or_zero (Some 75)) = "text-red-600".
Proof.
  split; [| repeat split].
  destruct risk_score as [z |]; [| cbn; split; [split; discriminate | reflexivity]].
  unfold reputation_of, gt_num, or_zero, riskScoreColor.
  destruct (Z.gtb_spec z 75) as [G75 | G75]; destruct (Z.gtb_spec z 25) as [G25 | G25];
    destruct (Z.ltb_spec z 25) as [L25 | L25]; destruct (Z.ltb_spec z 75) as [L75 | L75];
    try lia; cbn;
    (split; [intros Hc; try discriminate Hc; split; intros [= ->]; lia
            | intros [H1 H2]; try reflexivity;
              exfalso; assert (z = 25 \/ z = 75) as [-> | ->] by lia; congruence]).
Qed.

(** ** The identifier of the multi-engine request *)

Lemma string_ind3 (P : string -> Prop) :
  P "" ->
  (forall a, P (String a "")) ->
  (forall a b, P (String a (String b ""))) ->
  (forall a b c rest, P rest -> P (String a (String b (String c rest)))) ->
  forall s, P s.
Proof.
  intros H0 H1 H2 H3 s.
  assert (H : P s /\ (forall a, P (String a s)) /\
              (forall a b, P (String a (String b s)))).
  { induction s as [| c s (IH0 & IH1 & IH2)]; [auto |].
    split; [apply IH1 |]. split; [intros a; apply IH2 |].
    intros a b. apply H3. exact IH0. }
  apply H.
Qed.

Lemma code_bound (c : ascii) : (JS.code c < 256)%nat.
Proof.
  apply nat_ascii_bounded.
Qed.

Lemma b64_char_in_alphabet (n : nat) :
  (n < 64)%nat -> is_base64_char (b64_char n) = true.
Proof.
  intros H.
  do 64 (destruct n as [| n]; [reflexivity |]). lia.
Qed.

Lemma btoa_chars (s : string) :
  forallb (fun c => (is_base64_char c || Ascii.eqb c "=")%bool)
          (list_ascii_of_string (btoa s)) = true.
Proof.
  induction s as [| a | a b | a b c rest IH] using string_ind3.
  - reflexivity.
  - pose proof (code_bound a). cbn [btoa list_ascii_of_string forallb].
    rewrite !b64_char_in_alphabet by (apply Nat.Div0.div_lt_upper_bound; lia) ||
                                      (pose proof (Nat.mod_upper_bound (JS.code a) 4); lia).
    reflexivity.
  - pose proof (code_bound a). pose proof (code_bound b).
    pose proof (Nat.mod_upper_bound (JS.code a) 4 ltac:(lia)).
    pose proof (Nat.mod_upper_bound (JS.code b) 16 ltac:(lia)).
    assert (JS.code a / 4 < 64)%nat by (apply Nat.Div0.div_lt_upper_bound; lia).
    assert (JS.code b / 16 < 16)%nat by (apply Nat.Div0.div_lt_upper_bound; lia).
    cbn [btoa list_ascii_of_string forallb].
    rewrite !b64_char_in_alphabet by lia. reflexivity.
  - pose proof (code_bound a). pose proof (code_bound b). pose proof (code_bound c).
    pose proof (Nat.mod_upper_bound (JS.code a) 4 ltac:(lia)).
    pose proof (Nat.mod_upper_bound (JS.code b) 16 ltac:(lia)).
    pose proof (Nat.mod_upper_bound (JS.code c) 64 ltac:(lia)).
    assert (JS.code a / 4 < 64)%nat by (apply Nat.Div0.div_lt_upper_bound; lia).
    assert (JS.code b / 16 < 16)%nat by (apply Nat.Div0.div_lt_upper_bound; lia).
    assert (JS.code c / 64 < 4)%nat by (apply Nat.Div0.div_lt_upper_bound; lia).
    cbn [btoa list_ascii_of_string forallb].
    rewrite !b64_char_in_alphabet by lia. exact IH.
Qed.

Lemma strip_padding_chars (s : string) :
  forallb (fun c => (is_base64_char c || Ascii.eqb c "=")%bool)
          (list_ascii_of_string s) = true ->
  forallb is_base64_char (list_ascii_of_string (strip_padding s)) = true /\
  has_char (Ascii.eqb "=") (strip_padding s) = false.
Proof.
  unfold has_char.
  induction s as [| c s IH]; [auto |].
  cbn [list_ascii_of_string forallb strip_padding].
  intros H. apply andb_true_iff in H. destruct H as [Hc Hs].
  destruct (IH Hs) as [IH1 IH2].
  destruct (Ascii.eqb c "=") eqn:Hpad; [auto |].
  cbn [list_ascii_of_string forallb existsb].
  rewrite orb_false_r in Hc. rewrite Hc, IH1, IH2, Ascii.eqb_sym, Hpad. auto.
Qed.

Lemma latin1_code_units (s : string) : Wide.latin1 (Wide.code_units s) = Some s.
Proof.
  unfold Wide.latin1, Wide.code_units.
  assert (Hall : forallb (fun u => Nat.ltb u 256) (map JS.code (list_ascii_of_string s))
                 = true).
  { apply forallb_forall. intros u Hu. apply in_map_iff in Hu.
    destruct Hu as (c & <- & _). apply Nat.ltb_lt. apply code_bound. }
  rewrite Hall. f_equal.
  rewrite map_map.
  rewrite (map_ext _ (fun c => c)) by (intros c; apply ascii_nat_embedding).
  rewrite map_id. apply string_of_list_ascii_of_string.
Qed.

Lemma latin1_all_below (units : list nat) :
  (forall u, In u units -> (u < 256)%nat) ->
  Wide.latin1 units = Some (string_of_list_ascii (map ascii_of_nat units)).
Proof.
  intros H. unfold Wide.latin1.
  assert (Hall : forallb (fun u => Nat.ltb u 256) units = true).
  { apply forallb_forall. intros u Hu. apply Nat.ltb_lt. now apply H. }
  now rewrite Hall.
Qed.

Lemma latin1_one_above (units : list nat) (u : nat) :
  In u units -> (256 <= u)%nat -> Wide.latin1 units = None.
Proof.
  intros Hin Hu. unfold Wide.latin1.
  destruct (forallb (fun u => Nat.ltb u 256) units) eqn:Hall; [| reflexivity].
  rewrite forallb_forall in Hall. apply Hall in Hin. apply Nat.ltb_lt in Hin. lia.
Qed.

(** X19.  [checkWithVirusTotal] on a URL whose code units are all below
    256 makes one request; its identifier is the base64 text of the URL
    with the padding removed: it holds no equals sign, and only letters,
    digits, plus signs and slashes.  On a URL with a code unit from 256 on,
    [btoa] throws: the function makes no request and throws.  On the
    Latin-1 strings it is the function that the pipeline calls. *)
Theorem multi_engine_identifier (W : World) (url : list nat) (apiKey : string) :
  ((forall u, In u url -> (u < 256)%nat) ->
   let id := strip_padding (btoa (string_of_list_ascii (map ascii_of_nat url))) in
   trace (Wide.checkWithVirusTotal W url apiKey) = [MultiEngine id apiKey] /\
   (forall e, fetch_multi_engine W id apiKey = Throw e ->
              outcome (Wide.checkWithVirusTotal W url apiKey) = Throw e) /\
   (forall data, fetch_multi_engine W id apiKey = Ok data ->
      let stats :=
        match last_analysis_stats data with
        | Some st => st
        | None => []
        end in
      outcome (Wide.checkWithVirusTotal W url apiKey)
      = Ok {| vtMalicious := stat "malicious" stats;
              vtSuspicious := stat "suspicious" stats;
              vtUndetected := stat "undetected" stats;
              vtTotal := fold_left (fun a kv => a + snd kv) stats 0 |}) /\
   has_char (Ascii.eqb "=") id = false /\
   forallb is_base64_char (list_ascii_of_string id) = true) /\
  (forall u, In u url -> (256 <= u)%nat ->
   trace (Wide.checkWithVirusTotal W url apiKey) = [] /\
   exists e, outcome (Wide.checkWithVirusTotal W url apiKey) = Throw e) /\
  (forall s : string,
     url = Wide.code_units s ->
     Wide.checkWithVirusTotal W url apiKey = checkWithVirusTotal W s apiKey).
Proof.
  split; [| split].
  - intros Hall id.
    set (s := string_of_list_ascii (map ascii_of_nat url)) in *.
    destruct (strip_padding_chars (btoa s) (btoa_chars s)) as [Hchars Hpad].
    unfold Wide.checkWithVirusTotal, Wide.btoa.
    rewrite (latin1_all_below url Hall). fold s.
    unfold lift, request, bind, ret, trace, outcome. fold id.
    destruct (fetch_multi_engine W id apiKey) as [data | e] eqn:Hfetch; cbn [fst snd app].
    + split; [reflexivity |]. split; [discriminate |]. split; [| auto].
      intros data' [= <-]. reflexivity.
    + split; [reflexivity |]. split; [intros e' [= <-]; reflexivity |].
      split; [discriminate | auto].
  - intros u Hin Hu. unfold Wide.checkWithVirusTotal, Wide.btoa.
    rewrite (latin1_one_above url u Hin Hu). cbn. eauto.
  - intros s ->. unfold Wide.checkWithVirusTotal, Wide.btoa, checkWithVirusTotal.
    rewrite latin1_code_units. unfold lift, bind. cbn [app].
    destruct (request _ _) as [t [data | e]]; [| reflexivity].
    destruct (ret _) as [t' r]. reflexivity.
Qed.

Lemma multi_engine_identifier_witness :
  trace (Wide.checkWithVirusTotal world_offline
           (Wide.code_units "https://example.com/?q=1") "key")
    = [MultiEngine "aHR0cHM6Ly9leGFtcGxlLmNvbS8/cT0x" "key"] /\
  trace (Wide.checkWithVirusTotal world_offline
           (Wide.code_units "https://a.b/" ++ [960%nat]) "key") = [] /\
  Wide.checkWithVirusTotal world_offline (Wide.code_units "http://a.b") "key"
    = checkWithVirusTotal world_offline "http://a.b" "key".
Proof.
  destruct (multi_engine_identifier world_offline
              (Wide.code_units "https://example.com/?q=1") "key") as (H1 & _ & _).
  destruct (multi_engine_identifier world_offline
              (Wide.code_units "https://a.b/" ++ [960%nat]) "key") as (_ & H2 & _).
  destruct (multi_engine_identifier world_offline
              (Wide.code_units "http://a.b") "key") as (_ & _ & H3).
  split; [| split].
  - destruct H1 as (Ht & _).
    + intros u Hu. vm_compute in Hu.
      repeat (destruct Hu as [<- | Hu]; [lia |]). contradiction.
    + rewrite Ht. vm_compute. reflexivity.
  - destruct (H2 960%nat) as [Ht _]; [apply in_or_app; right; left; reflexivity | lia |].
    exact Ht.
  - apply H3. reflexivity.
Defined.

(** ** Objects *)

Section Props.
Context {A : Type} (absent : A).

Lemma prop_set_fresh (props : list (string * A)) (key : string) (v : A) :
  ~ In key (keys props) -> prop_set props key v = (props ++ [(key, v)])%list.
Proof.
  induction props as [| [k v0] rest IH]; intros Hk; [reflexivity |].
  cbn [prop_set app]. cbn [keys map fst In] in Hk.
  destruct (String.eqb_spec k key) as [-> | Hne]; [tauto |].
  rewrite IH; [reflexivity | tauto].
Qed.

Lemma prop_get_set (props : list (string * A)) (key key' : string) (v : A) :
  prop_get absent (prop_set props key v) key' =
  if String.eqb key key' then v else prop_get absent props key'.
Proof.
  induction props as [| [k v0] rest IH]; cbn [prop_set prop_get].
  - reflexivity.
  - destruct (String.eqb_spec k key) as [-> | Hne]; cbn [prop_get].
    + destruct (String.eqb key key'); reflexivity.
    + rewrite IH. destruct (String.eqb_spec k key') as [-> | Hne'].
      * destruct (String.eqb_spec key key'); [congruence | reflexivity].
      * reflexivity.
Qed.

Lemma prop_get_In (props : list (string * A)) (key : string) (v : A) :
  NoDup (keys props) -> In (key, v) props -> prop_get absent props key = v.
Proof.
  induction props as [| [k v0] rest IH]; intros Hnd Hin; [contradiction |].
  cbn [keys map fst] in Hnd. inversion Hnd as [| ? ? Hk Hrest]; subst.
  cbn [prop_get]. destruct Hin as [[= -> ->] | Hin].
  - now rewrite String.eqb_refl.
  - destruct (String.eqb_spec k key) as [-> | Hne].
    + exfalso. apply Hk. apply (in_map fst) in Hin. exact Hin.
    + now apply IH.
Qed.

Lemma spread_get_other (a b : list (string * A)) (key : string) :
  ~ In key (keys b) ->
  prop_get absent (spread a b) key = prop_get absent a key.
Proof.
  unfold spread. revert a.
  induction b as [| [k v] rest IH]; intros a Hk; [reflexivity |].
  cbn [fold_left fst snd]. cbn [keys map fst In] in Hk.
  rewrite IH by tauto. rewrite prop_get_set.
  destruct (String.eqb_spec k key); [tauto | reflexivity].
Qed.

Lemma spread_get_In (a b : list (string * A)) (key : string) (v : A) :
  NoDup (keys b) -> In (key, v) b ->
  prop_get absent (spread a b) key = v.
Proof.
  unfold spread. revert a.
  induction b as [| [k v0] rest IH]; intros a Hnd Hin; [contradiction |].
  cbn [keys map fst] in Hnd. inversion Hnd as [| ? ? Hk Hrest]; subst.
  cbn [fold_left fst snd]. destruct Hin as [[= -> ->] | Hin].
  - fold (spread (prop_set a key v) rest).
    rewrite spread_get_other by exact Hk.
    now rewrite prop_get_set, String.eqb_refl.
  - now apply IH.
Qed.
End Props.

(** ** [logActivity] *)

Lemma clean_fold (details l acc : list (string * value)) :
  (forall kv, In kv l -> prop_get VUndefined details (fst kv) = snd kv) ->
  NoDup (keys l) ->
  (forall k, In k (keys l) -> ~ In k (keys acc)) ->
  fold_left (clean_step details) (keys l) acc =
  (acc ++ filter (fun kv => is_present (snd kv)) l)%list.
Proof.
  revert acc. induction l as [| [k v] rest IH]; intros acc Hget Hnd Hfresh.
  - cbn. now rewrite app_nil_r.
  - cbn [keys map fst] in Hnd. inversion Hnd as [| ? ? Hk Hrest]; subst.
    assert (Hstep : clean_step details acc k =
                    if is_present v then (acc ++ [(k, v)])%list else acc).
    { unfold clean_step.
      pose proof (Hget (k, v) (or_introl eq_refl)) as Hg. cbn [fst snd] in Hg.
      rewrite Hg.
      destruct (is_present v); [| reflexivity].
      apply prop_set_fresh. apply Hfresh. left. reflexivity. }
    cbn [keys map fst fold_left filter snd]. rewrite Hstep.
    destruct (is_present v).
    + fold (keys rest). rewrite IH.
      * now rewrite <- app_assoc.
      * intros kv Hin. apply Hget. now right.
      * exact Hrest.
      * intros k' Hin. unfold keys. rewrite map_app, in_app_iff.
        intros [H | [<- | []]].
        -- apply (Hfresh k'); [right; exact Hin | exact H].
        -- apply Hk. exact Hin.
    + fold (keys rest). apply IH.
      * intros kv Hin. apply Hget. now right.
      * exact Hrest.
      * intros k' Hin. apply Hfresh. now right.
Qed.

Lemma clean_details_filter (props : list (string * value)) :
  NoDup (keys props) ->
  clean_details props = filter (fun kv => is_present (snd kv)) props.
Proof.
  intros Hnd. unfold clean_details.
  rewrite (clean_fold props props []); [reflexivity | | exact Hnd | auto].
  intros [k v] Hin. now apply prop_get_In.
Qed.

Lemma logged_details_ops (F : Firestore) (userId action : string) (details : value) :
  db_ops (logActivity F userId action details)
    = [AddDoc ["users"; userId; "activities"] (activity_data F action details)] /\
  db_outcome (logActivity F userId action details) = Done tt.
Proof.
  unfold logActivity, db_try, db_bind, db_op, db_ret, db_ops, db_outcome.
  destruct (db_addDoc F _ _); split; reflexivity.
Qed.

(** X20.  [logActivity] never throws and adds one document to the
    activities of the user, whether the store accepts it or not: the
    action, the time of the server and the user agent, and the details when
    there are any.  An object given as details is stored without its
    properties that are null or undefined, the others in their order, and
    is left out when none remains; a string, a number or a boolean is
    stored as it is; null, undefined and any other value give no details
    field. *)
Theorem logged_details_are_clean (F : Firestore) (userId action : string)
  (details : value) :
  (forall props, details = VObject props -> NoDup (keys props)) ->
  db_outcome (logActivity F userId action details) = Done tt /\
  db_ops (logActivity F userId action details)
    = [AddDoc ["users"; userId; "activities"]
         ([("action", FValue (VString action));
           ("timestamp", FServerTimestamp);
           ("userAgent", FValue (VString (navigator_userAgent F)))]
          ++ match details with
             | VObject props =>
                 match filter (fun kv => is_present (snd kv)) props with
                 | [] => []
                 | kept => [("details", FValue (VObject kept))]
                 end
             | VString _ | VNumber _ | VBool _ => [("details", FValue details)]
             | VUndefined | VNull | VOther => []
             end)%list].
Proof.
  intros Hnd.
  destruct (logged_details_ops F userId action details) as [Hops Hout].
  split; [exact Hout |]. rewrite Hops. do 2 f_equal.
  unfold activity_data.
  destruct details as [| | b | n | s | props |]; cbn [activity_details];
    try reflexivity.
  rewrite (clean_details_filter props (Hnd props eq_refl)).
  destruct (filter _ props); reflexivity.
Qed.

Lemma logged_details_witness :
  let F := {| db_getDoc := fun _ => Done None;
              db_setDoc := fun _ _ => Done tt;
              db_updateDoc := fun _ _ => Done tt;
              db_addDoc := fun _ _ => Failed (new_Error "unavailable");
              db_deleteDoc := fun _ => Done tt;
              db_getDocs := fun _ _ => Done [];
              navigator_userAgent := "agent" |} in
  db_ops (logActivity F "u" "SCANNED_URL"
            (VObject [("url", VString "http://a.b"); ("safe", VNull);
                      ("riskLevel", VString "high")]))
  = [AddDoc ["users"; "u"; "activities"]
       [("action", FValue (VString "SCANNED_URL"));
        ("timestamp", FServerTimestamp);
        ("userAgent", FValue (VString "agent"));
        ("details", FValue (VObject [("url", VString "http://a.b");
                                     ("riskLevel", VString "high")]))]] /\
  db_ops (logActivity F "u" "DELETED" (VObject [("scanId", VUndefined)]))
  = [AddDoc ["users"; "u"; "activities"]
       [("action", FValue (VString "DELETED"));
        ("timestamp", FServerTimestamp);
        ("userAgent", FValue (VString "agent"))]] /\
  db_ops (logActivity F "u" "NOTE" (VString "text"))
  = [AddDoc ["users"; "u"; "activities"]
       [("action", FValue (VString "NOTE"));
        ("timestamp", FServerTimestamp);
        ("userAgent", FValue (VString "agent"));
        ("details", FValue (VString "text"))]] /\
  db_outcome (logActivity F "u" "VIEWED" VNull) = Done tt.
Proof.
  intros F.
  split; [| split; [| split]].
  - destruct (logged_details_are_clean F "u" "SCANNED_URL"
                (VObject [("url", VString "http://a.b"); ("safe", VNull);
                          ("riskLevel", VString "high")])) as [_ H].
    + intros props [= <-]. cbn. repeat constructor; simpl; intuition discriminate.
    + exact H.
  - destruct (logged_details_are_clean F "u" "DELETED"
                (VObject [("scanId", VUndefined)])) as [_ H].
    + intros props [= <-]. cbn. repeat constructor; simpl; intuition discriminate.
    + exact H.
  - destruct (logged_details_are_clean F "u" "NOTE" (VString "text")) as [_ H].
    + intros props [=].
    + exact H.
  - destruct (logged_details_are_clean F "u" "VIEWED" VNull) as [H _].
    + intros props [=].
    + exact H.
Defined.

(** ** [initUserProfile] *)

Lemma placeholder_returns (F : Firestore) (userRef : list string) (name : string) :
  placeholder F userRef name
  = ([SetDoc (userRef ++ [name; "initial"])%list []], Done tt).
Proof.
  unfold placeholder, db_try, db_op, db_ret.
  destruct (db_setDoc F _ _) as [[] | e]; reflexivity.
Qed.

(** X21.  [initUserProfile] never throws.  It returns true exactly when the
    profile could be read and then written: created when it did not exist,
    its last login updated when it did.  An existing profile is never
    overwritten: the only write is the update of the last login.  The four
    placeholder documents of a new profile are written after it, and their
    failures change nothing. *)
Theorem initUserProfile_result (F : Firestore) (user : User) :
  let userRef := ["users"; uid user] in
  let login := [("profile.lastLogin", FServerTimestamp)] in
  exists b,
    db_outcome (initUserProfile F user) = Done b /\
    (b = true <->
     match db_getDoc F userRef with
     | Done None => db_setDoc F userRef (profile_document user) = Done tt
     | Done (Some _) => db_updateDoc F userRef login = Done tt
     | Failed _ => False
     end) /\
    (forall d,
       db_getDoc F userRef = Done (Some d) ->
       db_ops (initUserProfile F user) = [GetDoc userRef; UpdateDoc userRef login]) /\
    (db_getDoc F userRef = Done None ->
     db_setDoc F userRef (profile_document user) = Done tt ->
     db_ops (initUserProfile F user)
       = [GetDoc userRef;
          SetDoc userRef (profile_document user);
          SetDoc ["users"; uid user; "screenTime"; "initial"] [];
          SetDoc ["users"; uid user; "todos"; "initial"] [];
          SetDoc ["users"; uid user; "digitalProperties"; "initial"] [];
          SetDoc ["users"; uid user; "subscriptions"; "initial"] []]).
Proof.
  intros userRef login. unfold initUserProfile. fold userRef. fold login.
  rewrite !placeholder_returns.
  unfold db_try, db_bind, db_op, db_ret, db_outcome, db_ops.
  destruct (db_getDoc F userRef) as [[d |] | e]; cbn.
  - destruct (db_updateDoc F userRef login) as [[] | e]; cbn.
    + exists true. split; [reflexivity |]. split; [split; reflexivity |].
      split; [intros d0 _; reflexivity | intros H; discriminate H].
    + exists false. split; [reflexivity |]. split; [split; discriminate |].
      split; [intros d0 _; reflexivity | intros H; discriminate H].
  - destruct (db_setDoc F userRef (profile_document user)) as [[] | e]; cbn.
    + exists true. split; [reflexivity |]. split; [split; reflexivity |].
      split; [intros d0 H; discriminate H | intros _ _; reflexivity].
    + exists false. split; [reflexivity |]. split; [split; discriminate |].
      split; [intros d0 H; discriminate H | intros _ H; discriminate H].
  - exists false. split; [reflexivity |]. split; [split; [discriminate | contradiction] |].
    split; [intros d0 H; discriminate H | intros H; discriminate H].
Qed.

Lemma initUserProfile_witness :
  db_outcome (initUserProfile store_new_user user_ada) = Done true /\
  db_ops (initUserProfile store_existing_user user_ada)
    = [GetDoc ["users"; "u1"];
       UpdateDoc ["users"; "u1"] [("profile.lastLogin", FServerTimestamp)]] /\
  db_outcome (initUserProfile store_down user_ada) = Done false.
Proof.
  destruct (initUserProfile_result store_new_user user_ada) as (b & Hb & Hiff & _).
  destruct (initUserProfile_result store_existing_user user_ada) as (_ & _ & _ & Hops & _).
  destruct (initUserProfile_result store_down user_ada) as (b' & Hb' & Hiff' & _).
  split; [| split].
  - rewrite Hb. f_equal. apply Hiff. reflexivity.
  - apply (Hops [("profile", FMap [])]). reflexivity.
  - rewrite Hb'. f_equal. destruct b'; [| reflexivity].
    exfalso. apply (proj1 Hiff'). reflexivity.
Defined.

(** ** The profile of a new user *)

Lemma split_first (sep : ascii) (s1 s2 : string) :
  has_char (Ascii.eqb sep) s1 = false ->
  exists rest, JS.split sep (s1 ++ String sep s2) = s1 :: rest.
Proof.
  intros H. rewrite split_at_sep by exact H. eauto.
Qed.

(** X22.  In the profile of a new user the display name is the name of the
    account when it has one, and otherwise the part of the e-mail address
    before its first at sign; it is undefined when the account has neither.
    The photo address is the empty string when the account has none. *)
Theorem profile_display_name (user : User) :
  (forall name,
     displayName user = Some name -> name <> "" ->
     prop_get (FValue VUndefined) (profile_fields user) "displayName"
       = FValue (VString name)) /\
  (forall local domain,
     displayName user = None \/ displayName user = Some "" ->
     email user = Some (local ++ String "@" domain) ->
     has_char (Ascii.eqb "@") local = false ->
     prop_get (FValue VUndefined) (profile_fields user) "displayName"
       = FValue (VString local)) /\
  (displayName user = None \/ displayName user = Some "" ->
   email user = None ->
   prop_get (FValue VUndefined) (profile_fields user) "displayName"
     = FValue VUndefined) /\
  (photoURL user = None ->
   prop_get (FValue VUndefined) (profile_fields user) "photoURL"
     = FValue (VString "")).
Proof.
  unfold profile_fields. cbn [prop_get String.eqb Ascii.eqb Bool.eqb].
  split; [| split; [| split]].
  - intros name -> Hne.
    assert (Ht : JS.truthy name = true).
    { unfold JS.truthy. destruct (String.eqb_spec name ""); [contradiction | reflexivity]. }
    cbn. now rewrite Ht.
  - intros local domain Hname Hemail Hlocal.
    assert (Hl : email_local_part user = VString local).
    { unfold email_local_part. rewrite Hemail.
      destruct (split_first "@" local domain Hlocal) as [rest ->]. reflexivity. }
    cbn. destruct Hname as [-> | ->]; cbn; now rewrite Hl.
  - intros Hname Hemail.
    assert (Hl : email_local_part user = VUndefined).
    { unfold email_local_part. now rewrite Hemail. }
    cbn. destruct Hname as [-> | ->]; cbn; now rewrite Hl.
  - intros ->. reflexivity.
Qed.

Lemma profile_display_name_witness :
  prop_get (FValue VUndefined) (profile_fields user_ada) "displayName"
    = FValue (VString "ada") /\
  prop_get (FValue VUndefined)
    (profile_fields {| uid := "u2"; displayName := Some "Grace";
                       email := Some "g@example.com"; photoURL := None |})
    "displayName"
    = FValue (VString "Grace") /\
  prop_get (FValue VUndefined)
    (profile_fields {| uid := "u3"; displayName := Some "";
                       email := None; photoURL := None |})
    "displayName"
    = FValue VUndefined.
Proof.
  split; [| split].
  - apply (profile_display_name user_ada) with (domain := "example.com");
      [left; reflexivity | reflexivity | reflexivity].
  - apply (profile_display_name
             {| uid := "u2"; displayName := Some "Grace";
                email := Some "g@example.com"; photoURL := None |});
      [reflexivity | discriminate].
  - apply (profile_display_name
             {| uid := "u3"; displayName := Some ""; email := None;
                photoURL := None |});
      [right; reflexivity | reflexivity].
Defined.

(** ** The getters of the collections *)

Lemma filter_length_le {A} (p : A -> bool) (l : list A) :
  (List.length (filter p l) <= List.length l)%nat.
Proof.
  induction l as [| x l IH]; simpl; [lia |].
  destruct (p x); simpl; lia.
Qed.

(** X23.  [getTodos] never throws: it returns the empty list when the query
    fails, and otherwise the documents of the query in their order, without
    the placeholder document [initial].  [getPhishingHistory] returns the
    empty list on a failure too, where [getScreenTimeHistory] lets the
    failure through. *)
Theorem getters_on_failure (F : Firestore) (userId : string) :
  let todosRef := ["users"; userId; "todos"] in
  (exists items,
     db_outcome (getTodos F userId) = Done items /\
     (forall e, db_getDocs F todosRef (Some ("createdAt", "desc")) = Failed e ->
                items = []) /\
     (forall docs,
        db_getDocs F todosRef (Some ("createdAt", "desc")) = Done docs ->
        items = map with_id (filter not_initial docs) /\
        (List.length items <= List.length docs)%nat /\
        (forall doc, In doc (filter not_initial docs)
                     <-> In doc docs /\ fst doc <> "initial"))) /\
  (forall e,
     db_getDocs F ["users"; userId; "phishingScans"] (Some ("timestamp", "desc"))
       = Failed e ->
     db_outcome (getPhishingHistory F userId) = Done []) /\
  (forall e,
     db_getDocs F ["users"; userId; "screenTime"] (Some ("createdAt", "desc"))
       = Failed e ->
     db_outcome (getScreenTimeHistory F userId) = Failed e).
Proof.
  intros todosRef. split; [| split].
  - unfold getTodos. fold todosRef.
    unfold db_try, db_bind, db_op, db_ret, db_outcome.
    destruct (db_getDocs F todosRef (Some ("createdAt", "desc"))) as [docs | e]; cbn.
    + eexists. split; [reflexivity |]. split; [discriminate |].
      intros docs' [= <-]. split; [reflexivity |]. split.
      * rewrite length_map. apply filter_length_le.
      * intros doc. rewrite filter_In. unfold not_initial.
        destruct (String.eqb_spec (fst doc) "initial"); cbn; intuition congruence.
    + eexists. split; [reflexivity |]. split; [reflexivity | discriminate].
  - intros e He. unfold getPhishingHistory, db_try, db_bind, db_op, db_ret, db_outcome.
    now rewrite He.
  - intros e He. unfold getScreenTimeHistory, db_bind, db_op, db_ret, db_outcome.
    now rewrite He.
Qed.

Lemma getters_witness :
  db_outcome (getTodos store_existing_user "u1")
    = Done [[("id", FValue (VString "t2")); ("title", FValue (VString "Rotate keys"))];
            [("id", FValue (VString "legacy-7")); ("title", FValue (VString "Back up"))]] /\
  db_outcome (getTodos store_down "u1") = Done [] /\
  db_outcome (getScreenTimeHistory store_down "u1") = Failed (new_Error "unavailable").
Proof.
  destruct (getters_on_failure store_existing_user "u1") as ((items & Hi & _ & Hdocs) & _).
  destruct (getters_on_failure store_down "u1") as ((items' & Hi' & Hfail & _) & _ & Hst).
  split; [| split].
  - rewrite Hi. f_equal. destruct (Hdocs _ eq_refl) as [-> _]. reflexivity.
  - rewrite Hi'. f_equal. apply (Hfail (new_Error "unavailable")). reflexivity.
  - apply Hst. reflexivity.
Defined.

(** X24.  An item of a getter carries the identifier of its document under
    [id], unless the document has a field named [id] itself, which then
    takes its place; the other fields are those of the document. *)
Theorem item_identifier (id : string) (data : document) :
  NoDup (keys data) ->
  (~ In "id" (keys data) ->
   prop_get (FValue VUndefined) (with_id (id, data)) "id" = FValue (VString id)) /\
  (forall v, In ("id", v) data ->
             prop_get (FValue VUndefined) (with_id (id, data)) "id" = v) /\
  (forall key v, In (key, v) data ->
                 prop_get (FValue VUndefined) (with_id (id, data)) key = v).
Proof.
  intros Hnd. unfold with_id. cbn [fst snd]. split; [| split].
  - intros Hno. rewrite spread_get_other by exact Hno. reflexivity.
  - intros v Hin. now apply spread_get_In.
  - intros key v Hin. now apply spread_get_In.
Qed.

Lemma item_identifier_witness :
  prop_get (FValue VUndefined)
    (with_id ("t2", [("title", FValue (VString "Rotate keys"))])) "id"
    = FValue (VString "t2") /\
  prop_get (FValue VUndefined)
    (with_id ("t1", [("title", FValue (VString "Back up"));
                     ("id", FValue (VString "legacy-7"))])) "id"
    = FValue (VString "legacy-7").
Proof.
  split.
  - destruct (item_identifier "t2" [("title", FValue (VString "Rotate keys"))])
      as (Hfresh & _).
    + repeat constructor; simpl; tauto.
    + apply Hfresh. intros H. simpl in H. destruct H as [H | []]. discriminate H.
  - destruct (item_identifier "t1" [("title", FValue (VString "Back up"));
                                    ("id", FValue (VString "legacy-7"))])
      as (_ & Hown & _).
    + repeat constructor; simpl; intuition discriminate.
    + apply Hown. simpl. tauto.
Defined.

(** ** The history of the scanner page *)

Lemma filter_partition_length {A} (p : A -> bool) (l : list A) :
  List.length l
  = (List.length (filter p l) + List.length (filter (fun x => negb (p x)) l))%nat.
Proof.
  induction l as [| x l IH]; [reflexivity |].
  cbn [filter]. destruct (p x); cbn; lia.
Qed.

Lemma stats_total (scans : list ScanEntry) :
  total (stats_of scans)
  = safeCount (stats_of scans) + unsafeCount (stats_of scans).
Proof.
  unfold stats_of, count_of. cbn.
  rewrite (filter_partition_length entrySafe scans). lia.
Qed.

Lemma other_than_fresh (scanId : string) (scans : list ScanEntry) :
  ~ In scanId (map entryId scans) -> filter (other_than scanId) scans = scans.
Proof.
  induction scans as [| x l IH]; intros H; [reflexivity |].
  cbn [map In] in H. cbn [filter]. unfold other_than at 1.
  destruct (String.eqb_spec (entryId x) scanId); [tauto |].
  cbn. rewrite IH; [reflexivity | tauto].
Qed.

(** Removing the entry of an identifier removes the one entry found. *)
Lemma remove_count (p : ScanEntry -> bool) (scanId : string) (scans : list ScanEntry) :
  NoDup (map entryId scans) ->
  List.length (filter p scans)
  = (List.length (filter p (filter (other_than scanId) scans))
     + match JS.find (fun scan => String.eqb (entryId scan) scanId) scans with
       | Some d => if p d then 1 else 0
       | None => 0
       end)%nat.
Proof.
  unfold JS.find.
  induction scans as [| x l IH]; intros Hnd; [reflexivity |].
  cbn [map] in Hnd. inversion Hnd as [| ? ? Hx Hl]; subst.
  cbn [filter find]. unfold other_than at 1.
  destruct (String.eqb_spec (entryId x) scanId) as [Heq | Hne]; cbn [negb].
  - rewrite other_than_fresh by (rewrite <- Heq; exact Hx).
    destruct (p x); cbn; lia.
  - cbn [filter]. destruct (p x); cbn [List.length]; rewrite (IH Hl); lia.
Qed.

Lemma remove_length (scanId : string) (scans : list ScanEntry) :
  NoDup (map entryId scans) ->
  List.length scans
  = (List.length (filter (other_than scanId) scans)
     + match JS.find (fun scan => String.eqb (entryId scan) scanId) scans with
       | Some _ => 1
       | None => 0
       end)%nat.
Proof.
  intros Hnd.
  pose proof (remove_count (fun _ => true) scanId scans Hnd) as H.
  assert (Hall : forall l : list ScanEntry, filter (fun _ => true) l = l).
  { induction l; cbn; congruence. }
  rewrite !Hall in H. rewrite H at 1.
  destruct (JS.find _ scans); reflexivity.
Qed.

Lemma deleteScan_page (F : Firestore) (userId scanId : string) (st : PageState) :
  page_after (deleteScan F (Some userId) true scanId st) =
  {| history := filter (other_than scanId) (history st);
     scanStats :=
       match JS.find (fun scan => String.eqb (entryId scan) scanId) (history st) with
       | Some d =>
           {| total := total (scanStats st) - 1;
              safeCount := safeCount (scanStats st) - (if entrySafe d then 1 else 0);
              unsafeCount := unsafeCount (scanStats st) - (if entrySafe d then 0 else 1) |}
       | None => scanStats st
       end |}.
Proof.
  unfold deleteScan, page_after. cbn [negb].
  destruct (db_outcome (deletePhishingScan F userId scanId)); reflexivity.
Qed.

(** X25.  After [deleteScan] the history of the page is without the scan,
    whether the store deleted it or refused: a failed deletion does not
    put the scan back.  When the statistics were those of the history and
    the identifiers are distinct, the statistics are again those of the
    history, and the total is the sum of the safe and the unsafe scans.
    Without a user, or when the confirmation is declined, nothing
    changes. *)
Theorem deleteScan_keeps_statistics (F : Firestore) (userId scanId : string)
  (st : PageState) :
  let st' := page_after (deleteScan F (Some userId) true scanId st) in
  history st' = filter (other_than scanId) (history st) /\
  (forall scan, In scan (history st') <->
                In scan (history st) /\ entryId scan <> scanId) /\
  (scanStats st = stats_of (history st) ->
   NoDup (map entryId (history st)) ->
   scanStats st' = stats_of (history st') /\
   total (scanStats st') = safeCount (scanStats st') + unsafeCount (scanStats st')) /\
  deleteScan F None true scanId st = (st, [], None) /\
  deleteScan F (Some userId) false scanId st = (st, [], None).
Proof.
  intros st'. subst st'. rewrite deleteScan_page. cbn [history scanStats].
  split; [reflexivity |]. split; [| split; [| split; reflexivity]].
  - intros scan. rewrite filter_In. unfold other_than.
    destruct (String.eqb_spec (entryId scan) scanId); cbn; intuition congruence.
  - intros Hstats Hnd.
    assert (Heq : match JS.find (fun scan => String.eqb (entryId scan) scanId) (history st) with
                  | Some d =>
                      {| total := total (scanStats st) - 1;
                         safeCount := safeCount (scanStats st) - (if entrySafe d then 1 else 0);
                         unsafeCount := unsafeCount (scanStats st) - (if entrySafe d then 0 else 1) |}
                  | None => scanStats st
                  end = stats_of (filter (other_than scanId) (history st))).
    { rewrite Hstats. unfold stats_of, count_of. cbn [total safeCount unsafeCount].
      pose proof (remove_length scanId (history st) Hnd) as Hlen.
      pose proof (remove_count entrySafe scanId (history st) Hnd) as Hsafe.
      pose proof (remove_count (fun s => negb (entrySafe s)) scanId (history st) Hnd)
        as Hunsafe.
      destruct (JS.find _ (history st)) as [d |].
      - destruct (entrySafe d); cbn [negb] in *; f_equal; lia.
      - f_equal; lia. }
    rewrite Heq. split; [reflexivity | apply stats_total].
Qed.

Lemma deleteScan_statistics_witness :
  scanStats (page_after (deleteScan store_existing_user (Some "u1") true "s3"
                           (on_snapshot sample_history)))
  = {| total := 2; safeCount := 2; unsafeCount := 0 |} /\
  map entryId (history (page_after (deleteScan store_existing_user (Some "u1") true "s3"
                                      (on_snapshot sample_history))))
  = ["s2"; "s1"].
Proof.
  destruct (deleteScan_keeps_statistics store_existing_user "u1" "s3"
              (on_snapshot sample_history)) as (Hh & _ & Hs & _).
  split.
  - destruct Hs as [-> _]; [reflexivity | | ].
    + repeat constructor; simpl; intuition discriminate.
    + rewrite Hh. reflexivity.
  - rewrite Hh. reflexivity.
Defined.

(** ** The alert of a failed deletion *)

Lemma deletePhishingScan_result (F : Firestore) (userId scanId : string) :
  deletePhishingScan F userId scanId =
  ([DeleteDoc ["users"; userId; "phishingScans"; scanId]],
   match db_deleteDoc F ["users"; userId; "phishingScans"; scanId] with
   | Done _ => Done tt
   | Failed e =>
       Failed (new_Error ("Failed to delete phishing scan: " ++ err_message e))
   end).
Proof.
  unfold deletePhishingScan, db_try, db_bind, db_op, db_ret, db_throw.
  destruct (db_deleteDoc F _) as [[] | e]; reflexivity.
Qed.

(** X26.  [deletePhishingScan] deletes one document and, when the store
    refuses, throws a new error that keeps the message and drops the code.
    So when a deletion fails, the page never shows its permission-denied or
    not-found alert, whatever the code of the store was: it shows the
    general alert with the message of the store.  When the deletion
    succeeds no alert is shown and the deletion is logged. *)
Theorem deleteScan_alert (F : Firestore) (userId scanId : string) (st : PageState) :
  let scanRef := ["users"; userId; "phishingScans"; scanId] in
  let r := deleteScan F (Some userId) true scanId st in
  (forall e,
     db_deleteDoc F scanRef = Failed e ->
     db_outcome (deletePhishingScan F userId scanId)
       = Failed {| err_code := None;
                   err_message := "Failed to delete phishing scan: " ++ err_message e |} /\
     alert_after r
       = Some ("Failed to delete scan: Failed to delete phishing scan: "
               ++ err_message e ++ ". Please refresh and try again.") /\
     ops_after r = [DeleteDoc scanRef]) /\
  (db_deleteDoc F scanRef = Done tt ->
   alert_after r = None /\
   ops_after r
     = [DeleteDoc scanRef;
        AddDoc ["users"; userId; "activities"]
               (activity_data F "DELETED_PHISHING_SCAN"
                              (VObject [("scanId", VString scanId)]))]) /\
  alert_after r <> Some alert_permission /\
  alert_after r <> Some alert_not_found.
Proof.
  intros scanRef r. subst r.
  unfold deleteScan, alert_after, ops_after. cbn [negb].
  rewrite deletePhishingScan_result. fold scanRef.
  cbn [db_outcome db_ops fst snd].
  destruct (db_deleteDoc F scanRef) as [[] | e]; cbn [fst snd new_Error err_code err_message].
  - split; [discriminate |]. split; [| split; discriminate].
    intros _. split; [reflexivity |].
    destruct (logged_details_ops F userId "DELETED_PHISHING_SCAN"
                (VObject [("scanId", VString scanId)])) as [-> _].
    reflexivity.
  - split; [| split; [discriminate | split; discriminate]].
    intros e' [= <-]. cbn. split; [reflexivity |]. split; reflexivity.
Qed.

Lemma deleteScan_alert_witness :
  alert_after (deleteScan store_existing_user (Some "u1") true "s3"
                 (on_snapshot sample_history))
  = Some ("Failed to delete scan: Failed to delete phishing scan: "
          ++ "Missing or insufficient permissions." ++ ". Please refresh and try again.") /\
  alert_after (deleteScan store_new_user (Some "u1") true "s3"
                 (on_snapshot sample_history))
  = None.
Proof.
  destruct (deleteScan_alert store_existing_user "u1" "s3" (on_snapshot sample_history))
    as (Hfail & _).
  destruct (deleteScan_alert store_new_user "u1" "s3" (on_snapshot sample_history))
    as (_ & Hdone & _).
  split.
  - apply (Hfail {| err_code := Some "permission-denied";
                    err_message := "Missing or insufficient permissions." |}).
    reflexivity.
  - apply Hdone. reflexivity.
Defined.

(** ** The handlers of the pages *)

Lemma truthy_iff (s : string) : JS.truthy s = true <-> s <> "".
Proof.
  unfold JS.truthy. destruct (String.eqb_spec s ""); cbn; split; congruence.
Qed.

Lemma truthy_false_iff (s : string) : JS.truthy s = false <-> s = "".
Proof.
  unfold JS.truthy. destruct (String.eqb_spec s ""); cbn; split; congruence.
Qed.

(** X27.  The handler of the scanner page does nothing for a URL that is
    blank.  Otherwise it sets the assessment of [scanUrl] as the result,
    and with a signed-in user adds it to the history.  When the store
    refuses the addition, and only then, the handler replaces the
    assessment, be the URL safe, by the object of a failed scan ("Scan
    error").  That object has no [timestamp], so the markup throws on it:
    the only card the page builds is that of the assessment, and the card
    of a failed scan is never built. *)
Theorem scan_handler_result (W : World) (F : Firestore) (user : option string)
  (url : string) :
  let run := handleScanUrl W F user url in
  (trim url = "" -> setResult run = [] /\ requests run = [] /\ stored run = []) /\
  (trim url <> "" ->
   exists r,
     outcome (scanUrl W url) = Ok r /\
     requests run = trace (scanUrl W url) /\
     (user = None -> setResult run = [assessment r] /\ stored run = []) /\
     (forall userId,
        user = Some userId ->
        let scansRef := ["users"; userId; "phishingScans"] in
        let data :=
          spread (as_fields (scan_record url r)) [("timestamp", FServerTimestamp)] in
        exists rest,
          stored run = AddDoc scansRef data :: rest /\
          (forall e, db_addDoc F scansRef data = Failed e ->
                     setResult run = [assessment r; scan_error] /\ rest = []) /\
          (forall id, db_addDoc F scansRef data = Done id ->
                      setResult run = [assessment r] /\
                      exists activity,
                        rest = [AddDoc ["users"; userId; "activities"] activity])) /\
     (In scan_error (setResult run) <->
      exists userId e,
        user = Some userId /\
        db_addDoc F ["users"; userId; "phishingScans"]
          (spread (as_fields (scan_record url r)) [("timestamp", FServerTimestamp)])
        = Failed e) /\
     (In scan_error (setResult run) ->
      last (setResult run) (assessment r) = scan_error) /\
     render_result (assessment r) =
       Ok {| riskClass := getRiskColor (Level_label (riskLevel r));
             riskBadge := JS.toUpperCase (Level_label (riskLevel r)) ++ " RISK";
             safeBadge := if safe r then "SAFE" else "UNSAFE";
             googleBadge := if googleSafe r then "Safe" else "Threat";
             reputationClass := getReputationColor (Level_label (domainReputation r));
             reputationBadge := JS.toUpperCase (Level_label (domainReputation r));
             scoreClass := riskScoreColor (riskScore r);
             scoreText := JS.show_Z (riskScore r) ++ "/100";
             detectedThreats := threatTypes r;
             recommendation :=
               if safe r then "✅ Safe to Proceed" else "🚫 Do Not Proceed" |} /\
     (forall result view,
        In result (setResult run) ->
        render_result result = Ok view ->
        result = assessment r /\ detectedThreats view = threatTypes r)) /\
  (exists e, render_result scan_error = Throw e).
Proof.
  intros run. subst run. unfold handleScanUrl.
  assert (Hne : forall r, scan_error <> assessment r) by (intros r; discriminate).
  assert (Hview : forall r result view,
            In result [assessment r; scan_error] ->
            render_result result = Ok view ->
            result = assessment r /\ detectedThreats view = threatTypes r).
  { intros r result view [<- | [<- | []]] Hr; [| discriminate Hr].
    split; [reflexivity |]. injection Hr as <-. reflexivity. }
  assert (Hrender : forall r,
            render_result (assessment r) =
            Ok {| riskClass := getRiskColor (Level_label (riskLevel r));
                  riskBadge := JS.toUpperCase (Level_label (riskLevel r)) ++ " RISK";
                  safeBadge := if safe r then "SAFE" else "UNSAFE";
                  googleBadge := if googleSafe r then "Safe" else "Threat";
                  reputationClass := getReputationColor (Level_label (domainReputation r));
                  reputationBadge := JS.toUpperCase (Level_label (domainReputation r));
                  scoreClass := riskScoreColor (riskScore r);
                  scoreText := JS.show_Z (riskScore r) ++ "/100";
                  detectedThreats := threatTypes r;
                  recommendation :=
                    if safe r then "✅ Safe to Proceed" else "🚫 Do Not Proceed" |}).
  { intros r. unfold render_result, assessment. cbn. destruct (googleSafe r); reflexivity. }
  split; [| split; [| eexists; reflexivity]].
  - intros Hblank. apply truthy_false_iff in Hblank. rewrite Hblank. cbn. auto.
  - intros Hurl. apply truthy_iff in Hurl. rewrite Hurl. cbn [negb].
    rewrite scanUrl_outcome.
    set (r := match outcome (scanUrl_try W url) with
              | Ok r0 => r0
              | Throw _ => scan_failed
              end).
    exists r. split; [reflexivity |].
    destruct user as [userId |].
    + unfold addPhishingScan, db_op, db_outcome, db_ops. cbn [fst snd].
      set (data := spread (as_fields (scan_record url r)) [("timestamp", FServerTimestamp)]).
      destruct (db_addDoc F ["users"; userId; "phishingScans"] data) as [id | e] eqn:Hadd;
        cbn [setResult requests stored].
      * split; [reflexivity |]. split; [discriminate |]. split; [| split; [| split; [| split]]].
        -- intros u [= <-]. cbn zeta. fold data. rewrite Hadd.
           destruct (logged_details_ops F userId "SCANNED_URL"
                       (VObject [("url", VString url); ("safe", VBool (safe r));
                                 ("riskLevel", VString (Level_label (riskLevel r)))]))
             as [Hops _].
           unfold db_ops in Hops. rewrite Hops. cbn [app].
           eexists. split; [reflexivity |].
           split; [discriminate |]. intros id' _. split; [reflexivity | eauto].
        -- split.
           ++ intros [H | []]. destruct (Hne r (eq_sym H)).
           ++ intros (u & e & [= <-] & He). fold data in He. congruence.
        -- intros [H | []]. destruct (Hne r (eq_sym H)).
        -- apply Hrender.
        -- intros result view Hin. apply (Hview r). destruct Hin as [<- | []]. now left.
      * split; [reflexivity |]. split; [discriminate |]. split; [| split; [| split; [| split]]].
        -- intros u [= <-]. cbn zeta. fold data. rewrite Hadd.
           eexists. split; [reflexivity |].
           split; [intros e' _; auto | discriminate].
        -- split; [intros _ | intros _; right; left; reflexivity].
           exists userId, e. fold data. auto.
        -- intros _. reflexivity.
        -- apply Hrender.
        -- apply Hview.
    + cbn [setResult requests stored]. split; [reflexivity |].
      split; [auto |]. split; [discriminate |]. split; [| split; [| split]].
      * split; [intros [H | []]; destruct (Hne r (eq_sym H))
               | intros (u & e & H & _); discriminate H].
      * intros [H | []]. destruct (Hne r (eq_sym H)).
      * apply Hrender.
      * intros result view Hin. apply (Hview r). destruct Hin as [<- | []]. now left.
Qed.

Lemma scan_handler_witness :
  setResult (handleScanUrl world_offline store_down (Some "u1") "https://example.com")
    = [assessment (finalize initial_results); scan_error] /\
  setResult (handleScanUrl world_offline store_down None "https://example.com")
    = [assessment (finalize initial_results)] /\
  setResult (handleScanUrl world_offline store_down (Some "u1") "   ") = [].
Proof.
  destruct (scan_handler_result world_offline store_down (Some "u1") "https://example.com")
    as (_ & H1 & _).
  destruct (scan_handler_result world_offline store_down None "https://example.com")
    as (_ & H2 & _).
  destruct (scan_handler_result world_offline store_down (Some "u1") "   ")
    as (H3 & _).
  split; [| split].
  - destruct H1 as (r & Hr & _ & _ & Huser & _); [discriminate |].
    destruct (Huser "u1" eq_refl) as (rest & _ & Hfail & _).
    destruct (Hfail (new_Error "unavailable") eq_refl) as [-> _].
    vm_compute in Hr. injection Hr as <-. reflexivity.
  - destruct H2 as (r & Hr & _ & Hnone & _); [discriminate |].
    destruct (Hnone eq_refl) as [-> _].
    vm_compute in Hr. injection Hr as <-. reflexivity.
  - apply H3. reflexivity.
Defined.


